(** * Streaming time-weighted spread aggregator

    A shallow embedding of [exercises/streaming_spread/time_weight.py]
    (classes [QuotePair] and [TimeCache]) together with the statements of
    its specification.

    The Python methods mutate [self] and may raise; they are embedded in a
    small state-and-exception monad, so that the state left behind by a
    call that raises is part of its result.  Dynamically typed arguments
    are values of [pyval].  Python's [float] is kept abstract behind the
    class [FloatOps], so that what does not depend on the arithmetic is
    proved once, for any implementation; the class is instantiated by
    [Binary64.b64_ops]: IEEE 754 binary64 on Rocq's primitive floats, with
    [round(x, 8)], [int(x)], [math.floor] and ["%.8f"] computed exactly
    from the value of the double (CPython 2.7: the test suite of the
    repository imports [cStringIO]).

    The properties that depend on rounding are proved on binary64 from
    the specification of the primitive floats ([SpecFloat]): within
    stated bounds, the sums and differences the program forms from its
    timestamps are exact. *)

From Stdlib Require Import ZArith List String Ascii Bool Lia.
From Stdlib Require Import Floats DecimalString.
Import ListNotations.

Set Warnings "-inexact-float".
Set Implicit Arguments.

(** ** Python values, exceptions and the method monad *)

Module Py.

(** The exceptions of the module ([InputError], [QuoteError]) and the
    built-in ones the code can run into. *)
Inductive exn : Type :=
| InputError
| QuoteError
| IndexError
| ZeroDivisionError
| UnboundLocalError
| TypeError
| ValueError
| OverflowError.

(** Outcome of a computation.  [OutOfFuel] is not a Python outcome: it
    marks a [while] loop cut by the fuel of the model. *)
Inductive result (A : Type) : Type :=
| Ok (a : A)
| Raise (e : exn)
| OutOfFuel.
Arguments Raise {A} e.
Arguments OutOfFuel {A}.

(** A method on an object of state [S]: the state after the call is
    returned in every case, also when the call raises. *)
Definition M (S A : Type) : Type := S -> S * result A.

Definition ret {S A} (a : A) : M S A := fun s => (s, Ok a).
Definition raise {S A} (e : exn) : M S A := fun s => (s, Raise e).
Definition out_of_fuel {S A} : M S A := fun s => (s, OutOfFuel).
Definition bind {S A B} (m : M S A) (k : A -> M S B) : M S B :=
  fun s =>
    match m s with
    | (s', Ok a) => k a s'
    | (s', Raise e) => (s', Raise e)
    | (s', OutOfFuel) => (s', OutOfFuel)
    end.
Definition get {S} : M S S := fun s => (s, Ok s).
Definition put {S} (s' : S) : M S unit := fun _ => (s', Ok tt).
(** A pure computation that may raise (indexing, division, formatting). *)
Definition lift {S A} (r : result A) : M S A := fun s => (s, r).

Definition rbind {A B} (r : result A) (k : A -> result B) : result B :=
  match r with
  | Ok a => k a
  | Raise e => Raise e
  | OutOfFuel => OutOfFuel
  end.

(** Dynamically typed values, as far as the code tells them apart. *)
Inductive pyval (F : Type) : Type :=
| PyNone
| PyInt (z : Z)
| PyFloat (x : F)
| PyStr (s : string).
Arguments PyNone {F}.
Arguments PyInt {F} z.
Arguments PyStr {F} s.

(** [l[i]], with Python's negative indices. *)
Definition getitem {A} (l : list A) (i : Z) : result A :=
  let n := Z.of_nat (List.length l) in
  let j := if (i <? 0)%Z then (i + n)%Z else i in
  if ((0 <=? j) && (j <? n))%Z
  then match nth_error l (Z.to_nat j) with
       | Some a => Ok a
       | None => Raise IndexError
       end
  else Raise IndexError.

(** [range(a, b)] *)
Definition range (a b : Z) : list Z :=
  map (fun k => (a + Z.of_nat k)%Z) (seq 0 (Z.to_nat (b - a))).

Definition len {A} (l : list A) : Z := Z.of_nat (List.length l).

End Py.
Import Py.

Declare Scope py_scope.
Delimit Scope py_scope with py.
Notation "x <- m ;; k" := (bind m (fun x => k))
  (at level 61, m at next level, right associativity) : py_scope.
Notation "m ;;; k" := (bind m (fun _ => k))
  (at level 61, right associativity) : py_scope.
Notation "x <~ r ;; k" := (rbind r (fun x => k))
  (at level 61, r at next level, right associativity) : py_scope.

(** ** The interface of Python's [float] *)

Class FloatOps (F : Type) : Type := {
  of_int : Z -> F;            (** an [int] operand or a literal such as [1.0] *)
  fadd : F -> F -> F;
  fsub : F -> F -> F;
  fmul : F -> F -> F;
  fdiv : F -> F -> F;         (** the quotient, for a divisor that is not zero *)
  nonzero : F -> bool;        (** truth value: [x != 0.0] *)
  flt : F -> F -> bool;       (** [x < y] *)
  floor : F -> F;             (** [math.floor] *)
  round8 : F -> F;            (** [round(x, FLOAT_DIGITS)] *)
  to_int : F -> result Z;     (** [int(x)] *)
  fmt_f8 : F -> string        (** ["%.8f" % x] *)
}.

(** ** Decimal rounding and printing, on exact fractions *)

Module Decimal8.
Open Scope Z_scope.

(** Nearest integer to [n/d], ties away from zero (Python 2 [round]). *)
Definition round_half_away (n : Z) (d : positive) : Z :=
  Z.sgn n * ((2 * Z.abs n + Zpos d) / (2 * Zpos d)).

(** Nearest integer to [n/d], ties to even (["%.8f"]). *)
Definition round_half_even (n : Z) (d : positive) : Z :=
  let a := Z.abs n in
  let q := a / Zpos d in
  let r := a mod Zpos d in
  Z.sgn n * match 2 * r ?= Zpos d with
            | Lt => q
            | Gt => q + 1
            | Eq => if Z.even q then q else q + 1
            end.

(** ["%i" % z] *)
Definition str_of_Z (z : Z) : string := NilZero.string_of_int (Z.to_int z).

(** The digits of [N / 10^8] with eight decimals, [N >= 0]. *)
Definition fixed8 (neg : bool) (N : Z) : string :=
  ((if neg then "-" else "") ++ str_of_Z (N / 10 ^ 8) ++ "."
   ++ String.substring 1 8 (str_of_Z (10 ^ 8 + N mod 10 ^ 8)))%string.

End Decimal8.

(** ** IEEE 754 binary64 *)

Module Binary64.
Import Decimal8.
Open Scope Z_scope.

(** The exact value of a finite double: sign, numerator, denominator. *)
Definition B2Q (x : float) : option (bool * Z * positive) :=
  match Prim2SF x with
  | S754_zero s => Some (s, 0, 1%positive)
  | S754_finite s m e =>
      match e with
      | Zneg p => Some (s, Zpos m, Pos.pow 2 p)
      | _ => Some (s, Zpos m * 2 ^ e, 1%positive)
      end
  | _ => None
  end.

(** The double nearest to [(-1)^s * n/d] (ties to even), [n >= 0]:
    what [strtod] returns for a decimal string and [float(n)] for an
    integer. *)
Definition Q2B (s : bool) (n : Z) (d : positive) : float :=
  SF2Prim
    match n with
    | Zpos m =>
        let '(mz, ez, lz) := SFdiv_core_binary prec emax (Zpos m) 0 (Zpos d) 0 in
        binary_round_aux prec emax s mz ez lz
    | _ => S754_zero s
    end.

(** The exponent function and the least exponent of the format. *)
Definition fexp64 : Z -> Z := SpecFloat.fexp prec emax.
Definition emin64 : Z := -1074.

Definition b64_of_int (z : Z) : float := Q2B (z <? 0) (Z.abs z) 1.

(** [round(x, 8)] in CPython 2.7: NaN, infinities and zeros are returned
    as they are; otherwise the exact value is rounded to a multiple of
    [10^-8], ties away from zero, and the decimal result is converted
    back to the nearest double. *)
Definition b64_round8 (x : float) : float :=
  match B2Q x with
  | Some (s, Zpos m, d) => Q2B s (round_half_away (Zpos m * 10 ^ 8) d) (10 ^ 8)
  | _ => x
  end.

Definition b64_floor (x : float) : float :=
  match B2Q x with
  | Some (s, Zpos m, d) =>
      let z := (if s then - Zpos m else Zpos m) / Zpos d in
      Q2B (z <? 0) (Z.abs z) 1
  | _ => x
  end.

(** [int(x)]: truncation toward zero; NaN and infinities raise. *)
Definition b64_to_int (x : float) : result Z :=
  match B2Q x with
  | Some (s, n, d) => Ok (if s then - (n / Zpos d) else n / Zpos d)
  | None => if is_nan x then Raise ValueError else Raise OverflowError
  end.

Definition b64_fmt_f8 (x : float) : string :=
  match B2Q x with
  | Some (s, n, d) => fixed8 s (round_half_even (n * 10 ^ 8) d)
  | None =>
      if is_nan x then "nan"%string
      else if (x <? 0)%float then "-inf"%string else "inf"%string
  end.

#[export] Instance b64_ops : FloatOps float := {
  of_int := b64_of_int;
  fadd := PrimFloat.add;
  fsub := PrimFloat.sub;
  fmul := PrimFloat.mul;
  fdiv := PrimFloat.div;
  nonzero := fun x => negb (x =? 0)%float;
  flt := PrimFloat.ltb;
  floor := b64_floor;
  round8 := b64_round8;
  to_int := b64_to_int;
  fmt_f8 := b64_fmt_f8
}.

End Binary64.

(** Truth value of a dynamically typed value. *)
Definition truth {F} `{FloatOps F} (v : pyval F) : bool :=
  match v with
  | PyNone => false
  | PyInt z => negb (z =? 0)%Z
  | PyFloat x => nonzero x
  | PyStr s => negb (String.eqb s "")
  end.

(** Truth value of an attribute that holds a float or [None]. *)
Definition truthy {F} `{FloatOps F} (o : option F) : bool :=
  match o with
  | Some x => nonzero x
  | None => false
  end.

(** [isinstance(v, float)] *)
Definition isinstance_float {F} (v : pyval F) : bool :=
  match v with
  | PyFloat _ => true
  | _ => false
  end.

(** [x / y] on floats: a zero divisor raises. *)
Definition truediv {F} `{FloatOps F} (x y : F) : result F :=
  if nonzero y then Ok (fdiv x y) else Raise ZeroDivisionError.

(** Module-level constants of [time_weight.py]. *)
Definition float_multiplier : Z := 1.
Definition sec_to_microsec {F} `{FloatOps F} (x : F) : F := fmul x (of_int 1000000).
Definition newline : string := String (ascii_of_nat 10) EmptyString.

(** [OUTPUT_FORMAT % (int(sec_to_microsec(ts)), price)]: the timestamp is
    converted first, then the price is formatted ([None] is a [TypeError]). *)
Definition output_line {F} `{FloatOps F} (ts : F) (price : option F) : result string :=
  (n <~ to_int (sec_to_microsec ts) ;;
   match price with
   | Some p => Ok (Decimal8.str_of_Z n ++ "," ++ fmt_f8 p ++ newline)%string
   | None => Raise TypeError
   end)%py.

(** [o is not None] *)
Definition is_not_none {A} (o : option A) : bool :=
  match o with
  | Some _ => true
  | None => false
  end.

(** [v == s] for a string literal [s], and [v == z] for an [int] literal. *)
Definition py_eq_str {F} (v : pyval F) (s : string) : bool :=
  match v with
  | PyStr s' => String.eqb s' s
  | _ => false
  end.

Definition py_eq_int {F} (v : pyval F) (z : Z) : bool :=
  match v with
  | PyInt z' => (z' =? z)%Z
  | _ => false
  end.

(** [for i in l: body], threading the local variables [A]. *)
Fixpoint for_each {S A} (l : list Z) (body : Z -> A -> M S A) (a : A) : M S A :=
  match l with
  | [] => ret a
  | i :: l' => (a' <- body i a ;; for_each l' body a')%py
  end.

(** The same loop for a body that has no object to mutate. *)
Definition for_pure {A} (l : list Z) (body : Z -> A -> result A) (a : A) : result A :=
  fold_left (fun acc i => rbind acc (body i)) l (Ok a).

(** ** class QuotePair *)

Module QuotePair.

Record t (F : Type) : Type := mk {
  current_ts : option F;
  ask : option F;
  bid : option F
}.

Section Methods.
Context {F : Type} `{FloatOps F}.
Open Scope py_scope.

Definition __init__ : t F := mk None None None.

Definition set_current_ts (v : option F) : M (t F) unit :=
  self <- get ;; put (mk v (ask self) (bid self)).
Definition set_ask (v : option F) : M (t F) unit :=
  self <- get ;; put (mk (current_ts self) v (bid self)).
Definition set_bid (v : option F) : M (t F) unit :=
  self <- get ;; put (mk (current_ts self) (ask self) v).

Definition _update_quote (side : pyval F) (price : F) : M (t F) unit :=
  (if py_eq_str side ":a" then
     self <- get ;;
     match ask self with
     | Some _ => raise QuoteError
     | None => set_ask (Some price)
     end
   else ret tt) ;;;
  (if py_eq_str side ":b" then
     self <- get ;;
     match bid self with
     | Some _ => raise QuoteError
     | None => set_bid (Some price)
     end
   else ret tt).

Definition _clear_prices : M (t F) unit :=
  set_ask None ;;; set_bid None.

(** [add(self, ts, side, price)]: the spread, or [None]. *)
Definition add (ts side price : pyval F) : M (t F) (option F) :=
  match ts with
  | PyFloat ts_ =>
      if negb (py_eq_str side ":a") && negb (py_eq_str side ":b")
      then raise InputError
      else
        match price with
        | PyFloat price_ =>
            (* first, is this a new timestamp? *)
            new_time <- (self <- get ;;
                         match current_ts self with
                         | None => set_current_ts (Some ts_) ;;; ret (PyInt 0)
                         | Some cur => ret (PyFloat (fsub ts_ cur))
                         end) ;;
            (* if yes, make sure you were done with previous *)
            (if truth new_time then
               self <- get ;;
               match ask self, bid self with
               | Some _, Some _ => _clear_prices
               | _, _ => raise QuoteError
               end
             else
               (* make sure it's not a duplicate record *)
               self <- get ;;
               if truthy (ask self) && truthy (bid self)
               then raise QuoteError
               else ret tt) ;;;
            _update_quote side price_ ;;;
            set_current_ts (Some ts_) ;;;
            self <- get ;;
            if truthy (ask self) && truthy (bid self) then
              match ask self, bid self with
              | Some a, Some b => ret (Some (fsub a b))
              | _, _ => ret None
              end
            else ret None
        | _ => raise InputError
        end
  | _ => raise InputError
  end.

End Methods.
End QuotePair.

(** ** class TimeCache *)

Module TimeCache.

Record t (F : Type) : Type := mk {
  archive : list (F * option F);
  last_spread : option F;
  tmp_cache : list (F * F)
}.

(** [log] writes to [sys.stdout]: its state is the object and the list
    of the strings written so far. *)
Record world (F : Type) : Type := mkw {
  self_ : t F;
  stdout : list string
}.

Section Methods.
Context {F : Type} `{FloatOps F}.
Open Scope py_scope.

Definition __init__ : t F := mk [] None [].

Definition _get_spreads_and_time_weights (self : t F) : result (list F * list F) :=
  (* don't use first segment in computation for this second *)
  init <~ match last_spread self with
          | Some first_spread =>
              r0 <~ getitem (tmp_cache self) 0 ;;
              a <~ getitem (archive self) (-1) ;;
              Ok ([first_spread], [fsub (fst r0) (fst a)])
          | None => Ok ([], [])
          end ;;
  (* fill out main part of arrays: i = 1 .. len(tmp_cache) - 1 *)
  main <~ for_pure (range 1 (len (tmp_cache self)))
            (fun i acc =>
               prev <~ getitem (tmp_cache self) (i - 1) ;;
               cur <~ getitem (tmp_cache self) i ;;
               Ok (fst acc ++ [snd prev],
                   snd acc ++ [fsub (fst cur) (fst prev)]))
            init ;;
  (* the value of i when the loop is left *)
  let i := Z.max 1 (len (tmp_cache self)) in
  lastr <~ getitem (tmp_cache self) (i - 1) ;;
  a <~ getitem (archive self) (-1) ;;
  Ok (fst main ++ [snd lastr],
      snd main ++ [fsub (fadd (fst a) (of_int float_multiplier)) (fst lastr)]).

Definition _weight_time (spreads time_weights : list F) : result F :=
  acc <~ for_pure (range 0 (len spreads))
           (fun i acc =>
              s <~ getitem spreads i ;;
              w <~ getitem time_weights i ;;
              Ok (fadd (fst acc) (fmul s w), fadd (snd acc) w))
           (of_int 0, of_int 0) ;;
  q <~ truediv (fst acc) (snd acc) ;;
  Ok (round8 q).

Definition _get_last_archive_ts : M (t F) F :=
  self <- get ;;
  a <- lift (getitem (archive self) (-1)) ;;
  ret (fst a).

Definition _cold_cache (ts spread : F) : M (t F) (pyval F) :=
  self <- get ;;
  if (len (tmp_cache self) =? 0)%Z then
    put (mk (archive self) (last_spread self) (tmp_cache self ++ [(ts, spread)])) ;;;
    self <- get ;;
    if (len (archive self) =? 0)%Z then
      put (mk [(floor ts, None)] (last_spread self) (tmp_cache self)) ;;;
      ret (PyInt 1)
    else ret PyNone
  else ret (PyInt 0).

Definition _update_archive (ts spread : F) : M (t F) unit :=
  self <- get ;;
  st <- lift (_get_spreads_and_time_weights self) ;;
  twa <- lift (_weight_time (fst st) (snd st)) ;;
  let archive_floor := floor ts in
  put (mk (archive self ++ [(archive_floor, Some twa)])
          (last_spread self) (tmp_cache self)) ;;;
  self <- get ;;
  lastr <- lift (getitem (tmp_cache self) (-1)) ;;
  put (mk (archive self) (Some (snd lastr)) (tmp_cache self)) ;;;
  (* start a new current time data section *)
  self <- get ;;
  put (mk (archive self) (last_spread self) [(ts, spread)]).

(** [add(self, ts, spread)]: [None] on a cold cache, [1] when a second
    was promoted, [0] otherwise. *)
Definition add (ts spread : pyval F) : M (t F) (pyval F) :=
  match ts with
  | PyFloat ts_ =>
      match spread with
      | PyFloat spread_ =>
          cold <- _cold_cache ts_ spread_ ;;
          if py_eq_int cold 1 then ret PyNone
          else
            last <- _get_last_archive_ts ;;
            let duration := fsub ts_ last in
            if flt (of_int 1) duration then
              _update_archive ts_ spread_ ;;; ret (PyInt 1)
            else
              self <- get ;;
              put (mk (archive self) (last_spread self)
                      (tmp_cache self ++ [(ts_, spread_)])) ;;;
              ret (PyInt 0)
      | _ => raise InputError
      end
  | _ => raise InputError
  end.

Definition write (s : string) : M (world F) unit :=
  w <- get ;; put (mkw (self_ w) (stdout w ++ [s])).

(** The inner [while] of [log]: one record per whole second below
    [this_ts], as long as there is a price to repeat. *)
Fixpoint fill_gap (fuel : nat) (last_logged_ts this_ts : F) (price : option F)
  : M (world F) F :=
  if flt last_logged_ts this_ts && is_not_none price then
    match fuel with
    | O => out_of_fuel
    | S fuel' =>
        line <- lift (output_line last_logged_ts price) ;;
        write line ;;;
        fill_gap fuel' (fadd last_logged_ts (of_int 1)) this_ts price
    end
  else ret last_logged_ts.

(** The body of the [for] loop of [log]; the local variables are
    [last_logged_ts] and [this_ts], which is unbound ([None]) until
    the first iteration that is not skipped. *)
Definition log_body (fuel : nat) (i : Z) (loc : F * option F)
  : M (world F) (F * option F) :=
  if (i =? 0)%Z then ret loc
  else
    w <- get ;;
    e <- lift (getitem (archive (self_ w)) i) ;;
    p <- lift (getitem (archive (self_ w)) (i - 1)) ;;
    let this_ts := fst e in
    let price := snd p in
    last' <- fill_gap fuel (fst loc) this_ts price ;;
    ret (last', Some this_ts).

Definition log (fuel : nat) : M (world F) unit :=
  w <- get ;;
  a0 <- lift (getitem (archive (self_ w)) 0) ;;
  let last_logged_ts := fadd (fst a0) (of_int 1) in
  loc <- for_each (range 0 (len (archive (self_ w)))) (log_body fuel)
           (last_logged_ts, None) ;;
  (* i keeps the last index of the enumeration *)
  let i := (len (archive (self_ w)) - 1)%Z in
  match snd loc with
  | None => raise UnboundLocalError
  | Some this_ts =>
      e <- lift (getitem (archive (self_ w)) i) ;;
      line <- lift (output_line this_ts (snd e)) ;;
      write line ;;;
      w <- get ;;
      lastr <- lift (getitem (archive (self_ w)) (-1)) ;;
      put (mkw (mk [lastr] (last_spread (self_ w)) (tmp_cache (self_ w)))
               (stdout w))
  end.

End Methods.
End TimeCache.

(** ** The feeding loop of [test_add_and_log]

    Every record goes to the [QuotePair]; a spread that comes back goes to
    the [TimeCache].  Nothing is caught: an exception ends the loop. *)

Section Feed.
Context {F : Type} `{FloatOps F}.
Open Scope py_scope.

Definition on_qc {A} (m : M (QuotePair.t F) A)
  : M (QuotePair.t F * TimeCache.t F) A :=
  fun s => let '(q, r) := m (fst s) in ((q, snd s), r).

Definition on_tc {A} (m : M (TimeCache.t F) A)
  : M (QuotePair.t F * TimeCache.t F) A :=
  fun s => let '(c, r) := m (snd s) in ((fst s, c), r).

Definition feed_one (rec : F * string * F) : M (QuotePair.t F * TimeCache.t F) unit :=
  let '(ts, side, price) := rec in
  let ts := fmul ts (of_int float_multiplier) in
  let price := fmul price (of_int float_multiplier) in
  spread <- on_qc (QuotePair.add (PyFloat ts) (PyStr side) (PyFloat price)) ;;
  match spread with
  | Some s => on_tc (TimeCache.add (PyFloat ts) (PyFloat s)) ;;; ret tt
  | None => ret tt
  end.

Fixpoint feed (data : list (F * string * F)) : M (QuotePair.t F * TimeCache.t F) unit :=
  match data with
  | [] => ret tt
  | rec :: data' => feed_one rec ;;; feed data'
  end.

(** [tc.log()] on a cache, with a fresh [stdout]. *)
Definition run_log (fuel : nat) (tc : TimeCache.t F)
  : TimeCache.world F * result unit :=
  TimeCache.log fuel (TimeCache.mkw tc []).

(** ** The loop of [compute_twa]

    On records already split at the delimiter and converted by [float()]:
    the timestamp comes in microseconds.  A [QuoteError] drops the record
    (the warning goes to the log, not to [stdout]); [log] runs as soon as
    [add] reports a promotion. *)

Definition microsec_to_sec (x : F) : result F := truediv x (of_int 1000000).

Definition on_pair {A} (m : M (QuotePair.t F) A)
  : M (QuotePair.t F * TimeCache.world F) A :=
  fun s => let '(q, r) := m (fst s) in ((q, snd s), r).

Definition on_cache {A} (m : M (TimeCache.t F) A)
  : M (QuotePair.t F * TimeCache.world F) A :=
  fun s =>
    let '(c, r) := m (TimeCache.self_ (snd s)) in
    ((fst s, TimeCache.mkw c (TimeCache.stdout (snd s))), r).

Definition on_world {A} (m : M (TimeCache.world F) A)
  : M (QuotePair.t F * TimeCache.world F) A :=
  fun s => let '(w, r) := m (snd s) in ((fst s, w), r).

(** [try: spread = pair_cache.add(...) except QuoteError: continue]:
    [None] stands for [continue]. *)
Definition try_add (ts : F) (side : string) (price : F)
  : M (QuotePair.t F * TimeCache.world F) (option (option F)) :=
  fun s =>
    match on_pair (QuotePair.add (PyFloat ts) (PyStr side) (PyFloat price)) s with
    | (s', Ok spread) => (s', Ok (Some spread))
    | (s', Raise QuoteError) => (s', Ok None)
    | (s', Raise e) => (s', Raise e)
    | (s', OutOfFuel) => (s', OutOfFuel)
    end.

Definition compute_twa_one (fuel : nat) (rec : F * string * F)
  : M (QuotePair.t F * TimeCache.world F) unit :=
  let '(ts, side, price) := rec in
  ts <- lift (microsec_to_sec ts) ;;
  let ts := fmul ts (of_int float_multiplier) in
  let price := fmul price (of_int float_multiplier) in
  caught <- try_add ts side price ;;
  match caught with
  | Some (Some spread) =>
      log_ready <- on_cache (TimeCache.add (PyFloat ts) (PyFloat spread)) ;;
      if truth log_ready then on_world (TimeCache.log fuel) else ret tt
  | _ => ret tt
  end.

Fixpoint compute_twa (fuel : nat) (records : list (F * string * F))
  : M (QuotePair.t F * TimeCache.world F) unit :=
  match records with
  | [] => ret tt
  | rec :: records' => compute_twa_one fuel rec ;;; compute_twa fuel records'
  end.

End Feed.

Module Scenario.
Import Binary64.
Open Scope float_scope.

(** The records of [test_add_and_log]. *)
Definition data : list (float * string * float) :=
  [ (800.200000, ":b"%string, 1.50); (800.200000, ":a"%string, 1.60);
    (800.600000, ":b"%string, 1.75); (800.600000, ":a"%string, 1.95);
    (801.500000, ":b"%string, 1.80); (801.500000, ":a"%string, 1.90);
    (803.300000, ":b"%string, 1.13); (803.300000, ":a"%string, 1.28);
    (804.200000, ":b"%string, 1.01); (804.200000, ":a"%string, 1.11) ].

(** The state after the feeding loop of the test. *)
Definition fed := feed data (QuotePair.__init__, TimeCache.__init__).

(** The same records as lines of a stream: timestamps in microseconds. *)
Definition stream : list (float * string * float) :=
  [ (800200000, ":b"%string, 1.50); (800200000, ":a"%string, 1.60);
    (800600000, ":b"%string, 1.75); (800600000, ":a"%string, 1.95);
    (801500000, ":b"%string, 1.80); (801500000, ":a"%string, 1.90);
    (803300000, ":b"%string, 1.13); (803300000, ":a"%string, 1.28);
    (804200000, ":b"%string, 1.01); (804200000, ":a"%string, 1.11) ].

(** [compute_twa] on that stream, from new objects and an empty [stdout]. *)
Definition streamed (fuel : nat) :=
  compute_twa fuel stream
    (QuotePair.__init__, TimeCache.mkw TimeCache.__init__ []).

End Scenario.

(** ** Notions used by the statements *)

(** Both prices of a [QuotePair] are unset or have a true truth value
    (no price [0.0] is stored). *)
Definition prices_truthy {F} `{FloatOps F} (q : QuotePair.t F) : Prop :=
  (forall a, QuotePair.ask q = Some a -> nonzero a = true) /\
  (forall b, QuotePair.bid q = Some b -> nonzero b = true).

(** The caches that calls of [add] (with any arguments) and, when
    [with_log] is set, calls of [log] produce from a new [TimeCache]. *)
Inductive reachable {F} `{FloatOps F} (with_log : bool) : TimeCache.t F -> Prop :=
| reach_init : reachable with_log TimeCache.__init__
| reach_add (tc : TimeCache.t F) (ts spread : pyval F) :
    reachable with_log tc ->
    reachable with_log (fst (TimeCache.add ts spread tc))
| reach_log (tc : TimeCache.t F) (fuel : nat) :
    with_log = true ->
    reachable with_log tc ->
    snd (run_log fuel tc) <> OutOfFuel ->
    reachable with_log (TimeCache.self_ (fst (run_log fuel tc))).

(** The average of the first archive entry, if there is one, is [None]. *)
Definition first_average_none {F} (tc : TimeCache.t F) : Prop :=
  forall e rest, TimeCache.archive tc = e :: rest -> snd e = None.

(** The sum of a list of durations, added up from [0.0] in list order as
    [_weight_time] adds up [time_sum]. *)
Definition sum_weights {F} `{FloatOps F} (time_weights : list F) : F :=
  fold_left fadd time_weights (of_int 0).

(** The average of the window a cache is about to close: what
    [_update_archive] computes before it touches the archive. *)
Definition window_average {F} `{FloatOps F} (tc : TimeCache.t F) : result F :=
  (st <~ TimeCache._get_spreads_and_time_weights tc ;;
   TimeCache._weight_time (fst st) (snd st))%py.

(** The spreads and durations of the consecutive pairs of a buffer whose
    first record is [prev]: the closed form of the main loop of
    [_get_spreads_and_time_weights]. *)
Fixpoint consecutive {F} `{FloatOps F} (prev : F * F) (rest : list (F * F))
  : list F * list F :=
  match rest with
  | [] => ([], [])
  | cur :: rest' =>
      (snd prev :: fst (consecutive cur rest'),
       fsub (fst cur) (fst prev) :: snd (consecutive cur rest'))
  end.

(** ** Concrete caches, in binary64 *)

Module Cases.
Import Binary64.
Open Scope float_scope.

(** The cache of [test_weight_time]: a cold-start window. *)
Definition weighting_cache : TimeCache.t float :=
  TimeCache.mk [(1469404800.000000, None)] None
    [(1469404800.200000, 0.000010); (1469404800.600000, 0.000020)].

(** The same cache, as two calls of [add] build it. *)
Definition cold_window : TimeCache.t float :=
  fst (TimeCache.add (PyFloat 1469404800.600000) (PyFloat 0.000020)
         (fst (TimeCache.add (PyFloat 1469404800.200000) (PyFloat 0.000010)
                 TimeCache.__init__))).

(** One promotion, then [log]. *)
Definition promoted : TimeCache.t float :=
  fst (TimeCache.add (PyFloat 801.5) (PyFloat 0.10)
         (fst (TimeCache.add (PyFloat 800.2) (PyFloat 0.10) TimeCache.__init__))).

Definition logged : TimeCache.t float :=
  TimeCache.self_ (fst (run_log 1 promoted)).

(** The second window of [test_add_and_log]: archive up to 801, the
    spread 0.20 carried over, one record at 801.5. *)
Definition second_window : TimeCache.t float :=
  TimeCache.mk [(800, None); (801, Some 0.15)] (Some 0.2) [(801.5, 0.1)].

(** The cold-start window of the weighting example at the second [T],
    in the arithmetic of the program. *)
Definition example_cache (T s1 s2 : float) : TimeCache.t float :=
  TimeCache.mk [(T, None)] None [(T + 0.2, s1); (T + 0.6, s2)].

(** The cache of [test_add_and_log] after the feeding loop. *)
Definition fed_cache : TimeCache.t float := snd (fst Scenario.fed).

(** A line of output, with its end of line. *)
Definition line (s : string) : string := (s ++ newline)%string.

(** [|x - y| <= 1e-8], the tolerance of the eight decimals. *)
Definition within_tolerance (x y : float) : bool := abs (x - y) <=? 1e-8.

(** The durations of the window a cache is about to close sum to one
    second, up to the tolerance. *)
Definition closes_one_second (tc : TimeCache.t float) : Prop :=
  exists spreads time_weights,
    TimeCache._get_spreads_and_time_weights tc = Ok (spreads, time_weights)
    /\ within_tolerance (sum_weights time_weights) 1 = true.

End Cases.

(** ** Further notions: the objects a stream of calls can produce *)

(** The [QuotePair] objects that calls of [add], with any arguments,
    produce from a new one. *)
Inductive pair_reachable {F} `{FloatOps F} : QuotePair.t F -> Prop :=
| pair_init : pair_reachable QuotePair.__init__
| pair_add (q : QuotePair.t F) (ts side price : pyval F) :
    pair_reachable q ->
    pair_reachable (fst (QuotePair.add ts side price q)).

(** The shape every cache keeps (see [reachable_well_formed]): the
    archive and the buffer are empty together, and only the first
    archive entry can lack an average. *)
Definition well_formed {F} (tc : TimeCache.t F) : Prop :=
  (TimeCache.archive tc = [] <-> TimeCache.tmp_cache tc = [])
  /\ Forall (fun e : F * option F => snd e <> None) (tl (TimeCache.archive tc)).

(** No buffered record is more than one second after the last archived
    second: none of them would by itself pass the test
    [ts - last_archived_second > 1.0] of [add]. *)
Definition buffer_within_second {F} `{FloatOps F} (tc : TimeCache.t F) : Prop :=
  forall arch sec avg,
    TimeCache.archive tc = arch ++ [(sec, avg)] ->
    Forall (fun r : F * F => flt (of_int 1) (fsub (fst r) sec) = false)
      (TimeCache.tmp_cache tc).

(** The record [log] writes for the whole second [k] with the average
    [x]: the second in microseconds, a comma, the average with eight
    decimals, and the end of line. *)
Definition record_line {F} `{FloatOps F} (x : F) (k : Z) : string :=
  (Decimal8.str_of_Z (k * 1000000) ++ "," ++ fmt_f8 x ++ newline)%string.

(** The sums [_weight_time] accumulates, [(twa, time_sum)], in closed
    form. *)
Fixpoint weighted_sums {F} `{FloatOps F} (spreads time_weights : list F)
    (acc : F * F) : F * F :=
  match spreads, time_weights with
  | s :: spreads', w :: time_weights' =>
      weighted_sums spreads' time_weights'
        (fadd (fst acc) (fmul s w), fadd (snd acc) w)
  | _, _ => acc
  end.

(** On a cache that has not closed a window yet ([last_spread] is still
    [None]), the archive is the one entry the first record seeded: the
    floor of the first buffered timestamp, without an average. *)
Definition cold_window_seeded {F} `{FloatOps F} (tc : TimeCache.t F) : Prop :=
  TimeCache.last_spread tc = None ->
  forall r0 rest,
    TimeCache.tmp_cache tc = r0 :: rest ->
    TimeCache.archive tc = [(floor (fst r0), None)].

(** ** stream_data.py

    [stream(f)] reads [f] one character at a time and yields the text
    between newlines.  The file is the string of the characters not yet
    read ([f.read(1)] takes the first one and returns the empty string
    at the end of the file); the generator is the list of the lines it
    yields before [StopIteration]. *)

Module StreamData.

(** The lines yielded from the point where [chunk] holds the characters
    read since the last newline. *)
Fixpoint stream_from (chunk f : string) : list string :=
  match f with
  | String c f' =>
      if Ascii.eqb c (ascii_of_nat 10) then chunk :: stream_from EmptyString f'
      else stream_from (chunk ++ String c EmptyString) f'
  | EmptyString =>
      if negb (String.length chunk =? 0)%nat then [chunk] else []
  end.

Definition stream (f : string) : list string := stream_from EmptyString f.

End StreamData.

(** A string holds a newline character. *)
Fixpoint has_newline (s : string) : bool :=
  match s with
  | EmptyString => false
  | String c s' => Ascii.eqb c (ascii_of_nat 10) || has_newline s'
  end.

(** A text is empty or ends with a newline. *)
Fixpoint ends_line (s : string) : bool :=
  match s with
  | EmptyString => true
  | String c EmptyString => Ascii.eqb c (ascii_of_nat 10)
  | String _ s' => ends_line s'
  end.

(** The text of a list of lines, each closed by a newline. *)
Fixpoint unlines (ls : list string) : string :=
  match ls with
  | [] => EmptyString
  | l :: ls' => (l ++ newline ++ unlines ls')%string
  end.

(** ** The value of a double, in units of [2^-1074]

    Every finite double is a whole multiple of the least positive
    double, [2^-1074]; this multiple is the value the exactness proofs
    of the binary64 properties compute with. *)

Module Units.
Import Binary64.

Definition SFunits (f : spec_float) : option Z :=
  match f with
  | S754_zero _ => Some 0%Z
  | S754_finite s m e =>
      Some (cond_Zopp s (Zpos m) * 2 ^ (e - Binary64.emin64))%Z
  | _ => None
  end.

Definition units (x : float) : option Z := SFunits (Prim2SF x).

(** An integer [V] of units that a double can hold: [N * 2^k] with a
    mantissa [N] of at most 53 bits, below the overflow threshold. *)
Definition representable (V : Z) : Prop :=
  exists N k : Z,
    (V = N * 2 ^ k /\ Z.abs N < 2 ^ 53 /\ 0 <= k <= 2045)%Z.


(** The window a cache is about to close lies in the second that starts
    at its last archived timestamp, the whole second [k]: every
    buffered timestamp is between [k] and [k + 1]. *)
Definition window_in_second (k : Z) (tc : TimeCache.t float) : Prop :=
  (exists arch avg, TimeCache.archive tc = arch ++ [(of_int k, avg)])
  /\ Forall (fun r : float * float =>
               (of_int k <=? fst r)%float = true
               /\ (fst r <=? of_int k + 1)%float = true)
            (TimeCache.tmp_cache tc).

(** A timestamp [t] of [T] units lies in the second [[A, A + U]] and is
    a multiple of the spacing [q] of the doubles there. *)
Definition in_second (A U q : Z) (t : float) (T : Z) : Prop :=
  units t = Some T /\ (A <= T <= A + U)%Z /\ (q | T)%Z.

End Units.

(** ** Proof automation *)

(** Unfolds the monad and the small methods of [QuotePair]. *)
Ltac run_qp :=
  unfold QuotePair.add, QuotePair._update_quote, QuotePair._clear_prices,
    QuotePair.set_current_ts, QuotePair.set_ask, QuotePair.set_bid,
    bind, ret, raise, get, put, lift;
  cbn.


(** Unfolds the monad and the small methods of [TimeCache]. *)
Ltac run_tc :=
  unfold TimeCache.add, TimeCache._cold_cache, TimeCache._get_last_archive_ts,
    TimeCache._update_archive, bind, ret, raise, get, put, lift;
  cbn.


(** Closes an equality between powers of two by comparing exponents. *)
Ltac eq_exp := solve [repeat first [reflexivity | lia | f_equal]].

(** * Properties *)

Import Binary64 Units.


Section QuotePairFacts.
Context {F : Type} `{FloatOps F}.

(** With exactly one side set, a record whose [ts - current_ts] is true
    (the test [add] makes for a new timestamp) is refused with
    [QuoteError] and the object is left as it was. *)
Lemma add_refuses_new_time
    (q : QuotePair.t F) (cur ts price : F) (side : string) :
  QuotePair.current_ts q = Some cur ->
  is_not_none (QuotePair.ask q) <> is_not_none (QuotePair.bid q) ->
  side = ":a"%string \/ side = ":b"%string ->
  nonzero (fsub ts cur) = true ->
  QuotePair.add (PyFloat ts) (PyStr side) (PyFloat price) q = (q, Raise QuoteError).
Proof.
  intros Hts Hone Hside Hnew.
  destruct q as [c a b]; cbn in *; subst c.
  destruct Hside; subst side; run_qp; rewrite Hnew;
    destruct a, b; cbn in *; try reflexivity; congruence.
Qed.

(** On a complete pair, a record whose [ts - current_ts] is true starts
    a new instant: both prices are cleared, the price of the record is
    stored on its side, [current_ts] becomes [ts] and no spread is
    returned. *)
Lemma add_starts_new_time
    (cur a b ts price : F) (side : string) :
  side = ":a"%string \/ side = ":b"%string ->
  nonzero (fsub ts cur) = true ->
  QuotePair.add (PyFloat ts) (PyStr side) (PyFloat price)
    (QuotePair.mk (Some cur) (Some a) (Some b))
  = (QuotePair.mk (Some ts)
       (if String.eqb side ":a" then Some price else None)
       (if String.eqb side ":b" then Some price else None),
     Ok None).
Proof.
  intros Hside Hnew.
  destruct Hside; subst side; run_qp; rewrite Hnew; cbn;
    destruct (nonzero price); reflexivity.
Qed.

(** The first record of a pair, accepted without a spread, leaves
    exactly its own side set, provided no stored price is [0.0]. *)
Lemma add_first_of_pair (q q1 : QuotePair.t F) (ts p : F) (side : string) :
  side = ":a"%string \/ side = ":b"%string ->
  prices_truthy q ->
  nonzero p = true ->
  QuotePair.add (PyFloat ts) (PyStr side) (PyFloat p) q = (q1, Ok None) ->
  q1 = QuotePair.mk (Some ts)
         (if String.eqb side ":a" then Some p else None)
         (if String.eqb side ":b" then Some p else None).
Proof.
  intros Hside [Ha Hb] Hp.
  destruct q as [c a b]; cbn in Ha, Hb.
  assert (Ha' : forall x, a = Some x -> nonzero x = true) by auto.
  assert (Hb' : forall x, b = Some x -> nonzero x = true) by auto.
  clear Ha Hb.
  destruct Hside; subst side; run_qp;
    destruct c as [cur|]; cbn;
    try destruct (nonzero (fsub ts cur)); cbn;
    destruct a as [x|], b as [y|]; cbn;
    repeat (first [ rewrite (Ha' _ eq_refl) | rewrite (Hb' _ eq_refl) | rewrite Hp ]; cbn);
    intros E; inversion E; reflexivity.
Qed.

(** The second record of a pair returns [ask - bid], and after it every
    record at the same timestamp is refused, when neither price is
    [0.0] and [ts - ts] is false (a finite timestamp). *)
Lemma add_completes_pair (ts pa pb : F) (first : string) :
  first = ":a"%string \/ first = ":b"%string ->
  nonzero pa = true ->
  nonzero pb = true ->
  nonzero (fsub ts ts) = false ->
  let q1 := QuotePair.mk (Some ts)
              (if String.eqb first ":a" then Some pa else None)
              (if String.eqb first ":b" then Some pb else None) in
  let second := if String.eqb first ":a" then ":b"%string else ":a"%string in
  let p2 := if String.eqb first ":a" then pb else pa in
  let q2 := QuotePair.mk (Some ts) (Some pa) (Some pb) in
  QuotePair.add (PyFloat ts) (PyStr second) (PyFloat p2) q1
  = (q2, Ok (Some (fsub pa pb)))
  /\ forall side p,
       side = ":a"%string \/ side = ":b"%string ->
       QuotePair.add (PyFloat ts) (PyStr side) (PyFloat p) q2 = (q2, Raise QuoteError).
Proof.
  intros Hfirst Ha Hb Hz.
  destruct Hfirst; subst first; cbn; split;
    try (intros side p [-> | ->]); run_qp;
    repeat (first [ rewrite Hz | rewrite Ha | rewrite Hb ]; cbn);
    reflexivity.
Qed.

End QuotePairFacts.

(** ** Indexing and ranges *)

Lemma getitem_nil {A} (i : Z) : getitem (@nil A) i = Raise IndexError.
Proof.
  unfold getitem; cbn.
  destruct (i <? 0)%Z eqn:E; rewrite ?Z.add_0_r.
  - replace (0 <=? i)%Z with false; [reflexivity|].
    symmetry; apply Z.leb_gt; apply Z.ltb_lt; exact E.
  - rewrite andb_comm. replace (i <? 0)%Z with false. reflexivity.
Qed.

Lemma getitem_nth {A} (l : list A) (i : Z) (d : A) :
  (0 <= i < len l)%Z -> getitem l i = Ok (nth (Z.to_nat i) l d).
Proof.
  unfold getitem, len; intros Hi.
  replace (i <? 0)%Z with false by (symmetry; apply Z.ltb_ge; lia).
  replace (0 <=? i)%Z with true by (symmetry; apply Z.leb_le; lia).
  replace (i <? Z.of_nat (List.length l))%Z with true
    by (symmetry; apply Z.ltb_lt; lia).
  cbn. rewrite (nth_error_nth' l d) by lia. reflexivity.
Qed.

Lemma getitem_last {A} (l : list A) (x : A) : getitem (l ++ [x]) (-1) = Ok x.
Proof.
  unfold getitem. rewrite length_app; cbn [List.length].
  replace (-1 <? 0)%Z with true by reflexivity.
  replace (-1 + Z.of_nat (List.length l + 1))%Z with (Z.of_nat (List.length l)) by lia.
  replace (0 <=? Z.of_nat (List.length l))%Z with true by (symmetry; apply Z.leb_le; lia).
  replace (Z.of_nat (List.length l) <? Z.of_nat (List.length l + 1))%Z with true
    by (symmetry; apply Z.ltb_lt; lia).
  cbn. rewrite Nat2Z.id, nth_error_app2, Nat.sub_diag by lia. reflexivity.
Qed.

Lemma getitem_middle {A} (l1 l2 : list A) (x : A) :
  getitem (l1 ++ x :: l2) (len l1) = Ok x.
Proof.
  rewrite (getitem_nth _ x).
  - unfold len. rewrite Nat2Z.id, app_nth2, Nat.sub_diag by lia. reflexivity.
  - unfold len. rewrite length_app; cbn [List.length]. lia.
Qed.

Lemma for_pure_app {A} (l1 l2 : list Z) (body : Z -> A -> result A) (a : A) :
  for_pure (l1 ++ l2) body a = rbind (for_pure l1 body a) (for_pure l2 body).
Proof.
  unfold for_pure. rewrite fold_left_app.
  destruct (fold_left _ l1 (Ok a)) as [x | e |]; cbn; [reflexivity | |].
  - induction l2; cbn; auto.
  - induction l2; cbn; auto.
Qed.

(** ** TimeCache *)

Section TimeCacheFacts.
Context {F : Type} `{FloatOps F}.

(** What a call of [add] can do to the archive: nothing, seed an empty
    archive with the floor entry, or append one entry to an archive
    that is not empty. *)
Lemma add_archive (tc : TimeCache.t F) (ts spread : pyval F) :
  let tc' := fst (TimeCache.add ts spread tc) in
  TimeCache.archive tc' = TimeCache.archive tc
  \/ (TimeCache.archive tc = [] /\ exists t, TimeCache.archive tc' = [(t, None)])
  \/ (TimeCache.archive tc <> []
      /\ exists e, TimeCache.archive tc' = TimeCache.archive tc ++ [e]).
Proof.
  destruct tc as [arch ls tmp].
  destruct ts as [ | | ts | ]; try (left; reflexivity).
  destruct spread as [ | | spread | ]; try (left; reflexivity).
  run_tc.
  destruct tmp as [|r tmp]; cbn.
  - destruct arch as [|a arch]; cbn.
    + right; left; split; [reflexivity | eexists; reflexivity].
    + destruct (getitem (a :: arch) (-1)) as [l | e |]; cbn;
        try (left; reflexivity).
      destruct (flt (of_int 1) (fsub ts (fst l))); cbn; [|left; reflexivity].
      destruct (TimeCache._get_spreads_and_time_weights _) as [st | e |]; cbn;
        try (left; reflexivity).
      destruct (TimeCache._weight_time _ _) as [twa | e |]; cbn;
        try (left; reflexivity).
      right; right; split; [discriminate|].
      eexists; reflexivity.
  - destruct arch as [|a arch].
    + rewrite getitem_nil; cbn. left; reflexivity.
    + destruct (getitem (a :: arch) (-1)) as [l | e |]; cbn;
        try (left; reflexivity).
      destruct (flt (of_int 1) (fsub ts (fst l))); cbn; [|left; reflexivity].
      destruct (TimeCache._get_spreads_and_time_weights _) as [st | e |]; cbn;
        try (left; reflexivity).
      destruct (TimeCache._weight_time _ _) as [twa | e |]; cbn;
        try (left; reflexivity).
      right; right; split; [discriminate|].
      destruct (getitem _ (-1)); cbn; eexists; reflexivity.
Qed.

(** The loops of [log] write to [stdout] and leave the cache alone. *)
Lemma fill_gap_self (fuel : nat) :
  forall (last this : F) (price : option F) (w : TimeCache.world F),
    TimeCache.self_ (fst (TimeCache.fill_gap fuel last this price w))
    = TimeCache.self_ w.
Proof.
  induction fuel as [|fuel IH]; intros last this price w; cbn;
    destruct (flt last this && is_not_none price); try reflexivity.
  unfold bind, lift, TimeCache.write, get, put.
  destruct (output_line last price) as [line | e |]; try reflexivity.
  cbn. rewrite IH. reflexivity.
Qed.

Lemma log_body_self (fuel : nat) (i : Z) (loc : F * option F)
    (w : TimeCache.world F) :
  TimeCache.self_ (fst (TimeCache.log_body fuel i loc w)) = TimeCache.self_ w.
Proof.
  unfold TimeCache.log_body, bind, lift, get, ret.
  destruct (i =? 0)%Z; [reflexivity|].
  destruct (getitem _ i) as [e | e |]; try reflexivity.
  destruct (getitem _ (i - 1)) as [p | e' |]; try reflexivity.
  pose proof (fill_gap_self fuel (fst loc) (fst e) (snd p) w) as Hs.
  destruct (TimeCache.fill_gap _ _ _ _ _) as [w' [l | e' |]]; exact Hs.
Qed.

Lemma for_each_self (fuel : nat) (l : list Z) :
  forall (loc : F * option F) (w : TimeCache.world F),
    TimeCache.self_ (fst (for_each l (TimeCache.log_body fuel) loc w))
    = TimeCache.self_ w.
Proof.
  induction l as [|i l IH]; intros loc w; cbn; [reflexivity|].
  unfold bind.
  pose proof (log_body_self fuel i loc w) as Hs.
  destruct (TimeCache.log_body fuel i loc w) as [w' [loc' | e |]]; cbn in Hs;
    try exact Hs.
  rewrite IH. exact Hs.
Qed.

(** A [log] that returns leaves an archive of one entry, the last one
    of the archive it was called on; a [log] that raises leaves the
    cache as it was. *)
Lemma log_truncates (fuel : nat) (w w1 : TimeCache.world F) :
  TimeCache.log fuel w = (w1, Ok tt) ->
  exists a, TimeCache.archive (TimeCache.self_ w1) = [a]
            /\ getitem (TimeCache.archive (TimeCache.self_ w)) (-1) = Ok a.
Proof.
  unfold TimeCache.log, TimeCache.write, bind, get, put, lift, raise.
  destruct (getitem _ 0) as [a0 | e |]; try discriminate.
  pose proof (for_each_self fuel
                (range 0 (len (TimeCache.archive (TimeCache.self_ w))))
                (fadd (fst a0) (of_int 1), None) w) as Hs.
  destruct (for_each _ _ _ _) as [w' [loc | e |]]; try discriminate.
  cbn in Hs.
  destruct (snd loc) as [this_ts|]; try discriminate.
  destruct (getitem _ _) as [ei | e |]; try discriminate.
  destruct (output_line _ _) as [line | e |]; try discriminate.
  cbn.
  destruct (getitem _ (-1)) as [lastr | e |] eqn:E; try discriminate.
  intros Heq; inversion Heq; subst; cbn.
  exists lastr. split; [reflexivity|].
  rewrite <- Hs. exact E.
Qed.

(** C5: after a [log] that returned, a second [log] with no [add] in
    between writes nothing: [stdout] and the cache are as the first
    call left them.  The second call does not return normally: the
    loop skips the single entry, [this_ts] is never bound, and the
    final [write] raises [UnboundLocalError] while its argument is
    evaluated. *)
Theorem log_twice_emits_nothing (fuel fuel' : nat) (w w1 : TimeCache.world F) :
  TimeCache.log fuel w = (w1, Ok tt) ->
  TimeCache.log fuel' w1 = (w1, Raise UnboundLocalError).
Proof.
  intros Hlog. destruct (log_truncates _ _ Hlog) as [a [Ha _]].
  destruct w1 as [[arch ls tmp] out]; cbn in Ha; subst arch.
  reflexivity.
Qed.

(** A cache that only [add] has touched keeps [None] as the average of
    its first archive entry. *)
Lemma add_first_average_none (tc : TimeCache.t F) (ts spread : pyval F) :
  first_average_none tc ->
  first_average_none (fst (TimeCache.add ts spread tc)).
Proof.
  intros Htc e rest Harch.
  destruct (add_archive tc ts spread) as [Heq | [[Hnil [t Heq]] | [Hne [x Heq]]]];
    cbn in Heq; rewrite Heq in Harch.
  - exact (Htc _ _ Harch).
  - inversion Harch; reflexivity.
  - destruct (TimeCache.archive tc) as [|e0 arch] eqn:E; [congruence|].
    cbn in Harch. inversion Harch; subst. exact (Htc _ _ E).
Qed.

(** C3, amended: as long as only [add] has been called, the average of
    the first archive entry is [None]. *)
Theorem first_average_none_before_log (tc : TimeCache.t F) :
  reachable false tc -> first_average_none tc.
Proof.
  induction 1 as [ | tc ts spread _ IH | tc fuel Hlog _ _ _ ].
  - intros e rest Harch; discriminate Harch.
  - apply add_first_average_none; exact IH.
  - discriminate Hlog.
Qed.

(** No promotion while [ts - last_archived_second > 1.0] is false: the
    record joins [tmp_cache], the archive is untouched, [add] returns 0. *)
Lemma add_no_promotion (tc : TimeCache.t F) (ts spread last : F)
    (avg : option F) (arch : list (F * option F)) :
  TimeCache.tmp_cache tc <> [] ->
  TimeCache.archive tc = arch ++ [(last, avg)] ->
  flt (of_int 1) (fsub ts last) = false ->
  TimeCache.add (PyFloat ts) (PyFloat spread) tc
  = (TimeCache.mk (TimeCache.archive tc) (TimeCache.last_spread tc)
       (TimeCache.tmp_cache tc ++ [(ts, spread)]),
     Ok (PyInt 0)).
Proof.
  intros Htmp Harch Hd.
  destruct tc as [arch0 ls tmp]; cbn in *; subst arch0.
  destruct tmp as [|r tmp]; [congruence|].
  run_tc. rewrite getitem_last; cbn. rewrite Hd. reflexivity.
Qed.

(** C8: a timestamp, price or spread that is not a float, or a side that
    is neither [":a"] nor [":b"], raises [InputError] and the object is
    left as it was. *)
Theorem add_invalid_input :
  (forall (q : QuotePair.t F) (ts side price : pyval F),
      isinstance_float ts = false
      \/ (py_eq_str side ":a" || py_eq_str side ":b") = false
      \/ isinstance_float price = false ->
      QuotePair.add ts side price q = (q, Raise InputError))
  /\ (forall (tc : TimeCache.t F) (ts spread : pyval F),
        isinstance_float ts = false \/ isinstance_float spread = false ->
        TimeCache.add ts spread tc = (tc, Raise InputError)).
Proof.
  split.
  - intros q ts side price Hbad. unfold QuotePair.add.
    destruct ts as [ | | ts | ]; try reflexivity.
    destruct (py_eq_str side ":a"), (py_eq_str side ":b"); cbn;
      try reflexivity;
      destruct price as [ | | price | ]; try reflexivity;
      cbn in Hbad; destruct Hbad as [Hb | [Hb | Hb]]; discriminate Hb.
  - intros tc ts spread Hbad. unfold TimeCache.add.
    destruct ts as [ | | ts | ]; try reflexivity.
    destruct spread as [ | | spread | ]; try reflexivity.
    cbn in Hbad; destruct Hbad as [Hb | Hb]; discriminate Hb.
Qed.

End TimeCacheFacts.

(** ** Fuel *)

Section Fuel.
Context {F : Type} `{FloatOps F}.

(** One more unit of fuel does not change a run that was not cut. *)
Lemma fill_gap_more_fuel (fuel : nat) :
  forall (last this : F) (price : option F) (w w' : TimeCache.world F)
         (r : result F),
    TimeCache.fill_gap fuel last this price w = (w', r) ->
    r <> OutOfFuel ->
    TimeCache.fill_gap (S fuel) last this price w = (w', r).
Proof.
  induction fuel as [|fuel IH]; intros last this price w w' r Hrun Hr.
  - cbn in Hrun |- *.
    destruct (flt last this && is_not_none price); [|exact Hrun].
    inversion Hrun; subst; congruence.
  - remember (S fuel) as n eqn:En.
    cbn [TimeCache.fill_gap]. subst n. cbn [TimeCache.fill_gap] in Hrun.
    destruct (flt last this && is_not_none price); [|exact Hrun].
    unfold bind in Hrun |- *.
    destruct (lift (output_line last price) w) as [w0 [line | e |]];
      try exact Hrun.
    destruct (TimeCache.write line w0) as [w1 [[] | e |]]; try exact Hrun.
    apply IH; assumption.
Qed.

Lemma log_body_more_fuel (fuel : nat) (i : Z) (loc : F * option F)
    (w w' : TimeCache.world F) (r : result (F * option F)) :
  TimeCache.log_body fuel i loc w = (w', r) ->
  r <> OutOfFuel ->
  TimeCache.log_body (S fuel) i loc w = (w', r).
Proof.
  unfold TimeCache.log_body, bind.
  destruct (i =? 0)%Z; [auto|].
  destruct (get w) as [w0 [x | e |]]; auto.
  destruct (lift (getitem _ i) w0) as [w1 [e | e |]]; auto.
  destruct (lift (getitem _ (i - 1)) w1) as [w2 [p | e' |]]; auto.
  destruct (TimeCache.fill_gap fuel _ _ _ w2) as [w3 r3] eqn:Efill.
  intros Hrun Hr.
  assert (Hr3 : r3 <> OutOfFuel).
  { intros ->. inversion Hrun; subst. congruence. }
  rewrite (fill_gap_more_fuel _ _ _ _ _ Efill Hr3). exact Hrun.
Qed.

Lemma for_each_more_fuel (fuel : nat) (l : list Z) :
  forall (loc : F * option F) (w w' : TimeCache.world F)
         (r : result (F * option F)),
    for_each l (TimeCache.log_body fuel) loc w = (w', r) ->
    r <> OutOfFuel ->
    for_each l (TimeCache.log_body (S fuel)) loc w = (w', r).
Proof.
  induction l as [|i l IH]; intros loc w w' r; cbn; [auto|].
  unfold bind.
  destruct (TimeCache.log_body fuel i loc w) as [w1 r1] eqn:Ebody.
  intros Hrun Hr.
  assert (Hr1 : r1 <> OutOfFuel).
  { intros ->. inversion Hrun; subst. congruence. }
  rewrite (log_body_more_fuel _ _ _ _ Ebody Hr1).
  destruct r1 as [loc1 | e |]; auto.
Qed.

Lemma log_more_fuel (fuel : nat) (w w' : TimeCache.world F) (r : result unit) :
  TimeCache.log fuel w = (w', r) ->
  r <> OutOfFuel ->
  TimeCache.log (S fuel) w = (w', r).
Proof.
  unfold TimeCache.log, bind.
  destruct (get w) as [w0 [x | e |]]; auto.
  destruct (lift (getitem _ 0) w0) as [w1 [a0 | e |]]; auto.
  destruct (for_each _ (TimeCache.log_body fuel) _ w1) as [w2 r2] eqn:Eloop.
  intros Hrun Hr.
  assert (Hr2 : r2 <> OutOfFuel).
  { intros ->. inversion Hrun; subst. congruence. }
  rewrite (for_each_more_fuel _ _ _ _ Eloop Hr2). exact Hrun.
Qed.

(** Enough fuel is enough: a [log] that was not cut gives the same
    result with any larger fuel. *)
Lemma log_enough_fuel (fuel fuel' : nat) (w w' : TimeCache.world F)
    (r : result unit) :
  TimeCache.log fuel w = (w', r) ->
  r <> OutOfFuel ->
  (fuel <= fuel')%nat ->
  TimeCache.log fuel' w = (w', r).
Proof.
  intros Hrun Hr Hle. induction Hle as [|m _ IH]; [exact Hrun|].
  apply log_more_fuel; assumption.
Qed.

End Fuel.

(** ** The sub-intervals of a window *)

Lemma range_nil (a : Z) : range a a = [].
Proof. unfold range. rewrite Z.sub_diag. reflexivity. Qed.

Lemma range_cons (a b : Z) : (a < b)%Z -> range a b = a :: range (a + 1) b.
Proof.
  intros Hab. unfold range.
  replace (Z.to_nat (b - a)) with (S (Z.to_nat (b - (a + 1)))) by lia.
  cbn [seq map]. f_equal; [lia|].
  rewrite <- seq_shift, map_map. apply map_ext; intros k; lia.
Qed.

Lemma for_pure_cons {A} (i : Z) (l : list Z) (body : Z -> A -> result A) (a : A) :
  for_pure (i :: l) body a = rbind (body i a) (for_pure l body).
Proof. exact (for_pure_app [i] l body a). Qed.

Lemma len_app {A} (l1 l2 : list A) : len (l1 ++ l2) = (len l1 + len l2)%Z.
Proof. unfold len. rewrite length_app. lia. Qed.

Lemma getitem_final {A} (l : list A) (d : A) :
  l <> [] -> getitem l (Z.max 1 (len l) - 1) = Ok (last l d).
Proof.
  intros Hne.
  destruct (exists_last Hne) as [l1 [x E]]; subst l.
  rewrite last_last, len_app.
  replace (Z.max 1 (len l1 + len [x]) - 1)%Z with (len l1)
    by (unfold len; cbn; lia).
  apply getitem_middle.
Qed.

Section Windows.
Context {F : Type} `{FloatOps F}.

Lemma main_loop_spec (rest : list (F * F)) :
  forall (pre : list (F * F)) (r0 : F * F) (sp0 tw0 : list F),
    for_pure (range (len pre + 1) (len (pre ++ r0 :: rest)))
      (fun i acc =>
         prev <~ getitem (pre ++ r0 :: rest) (i - 1) ;;
         cur <~ getitem (pre ++ r0 :: rest) i ;;
         Ok (fst acc ++ [snd prev], snd acc ++ [fsub (fst cur) (fst prev)]))%py
      (sp0, tw0)
    = Ok (sp0 ++ fst (consecutive r0 rest), tw0 ++ snd (consecutive r0 rest)).
Proof.
  induction rest as [|cur rest IH]; intros pre r0 sp0 tw0.
  - rewrite len_app. replace (len pre + len [r0])%Z with (len pre + 1)%Z
      by reflexivity.
    rewrite range_nil. cbn. rewrite !app_nil_r. reflexivity.
  - rewrite range_cons
      by (rewrite len_app; unfold len; cbn [List.length]; lia).
    rewrite for_pure_cons.
    replace (len pre + 1 - 1)%Z with (len pre) by lia.
    rewrite getitem_middle.
    replace (pre ++ r0 :: cur :: rest) with ((pre ++ [r0]) ++ cur :: rest)
      by (rewrite <- app_assoc; reflexivity).
    replace (len pre + 1)%Z with (len (pre ++ [r0]))
      by (rewrite len_app; reflexivity).
    cbn [rbind]. rewrite getitem_middle. cbn [rbind fst snd].
    rewrite IH. cbn [consecutive fst snd].
    rewrite <- !app_assoc. reflexivity.
Qed.

(** The lists [_get_spreads_and_time_weights] returns on a cache whose
    buffer and archive are not empty: the leading interval when
    [last_spread] is known, the consecutive pairs, the trailing
    interval. *)
Lemma spreads_and_time_weights_spec
    (arch : list (F * option F)) (a : F * option F) (ls : option F)
    (r0 : F * F) (rest : list (F * F)) :
  let lastr := last rest r0 in
  TimeCache._get_spreads_and_time_weights
    (TimeCache.mk (arch ++ [a]) ls (r0 :: rest))
  = Ok ((match ls with Some s => [s] | None => [] end)
        ++ fst (consecutive r0 rest) ++ [snd lastr],
        (match ls with Some _ => [fsub (fst r0) (fst a)] | None => [] end)
        ++ snd (consecutive r0 rest)
        ++ [fsub (fadd (fst a) (of_int float_multiplier)) (fst lastr)]).
Proof.
  intros lastr. unfold TimeCache._get_spreads_and_time_weights.
  cbn [TimeCache.last_spread TimeCache.tmp_cache TimeCache.archive].
  rewrite !getitem_last.
  assert (Hlast : getitem (r0 :: rest) (Z.max 1 (len (r0 :: rest)) - 1)
                  = Ok lastr).
  { rewrite (getitem_final r0) by discriminate.
    unfold lastr. destruct rest; reflexivity. }
  rewrite Hlast.
  pose proof (main_loop_spec rest [] r0) as Hloop.
  cbn [app len List.length] in Hloop. change (Z.of_nat 0 + 1)%Z with 1%Z in Hloop.
  destruct ls as [s|]; cbn [rbind getitem].
  - replace (getitem (r0 :: rest) 0) with (Ok r0) by reflexivity.
    cbn [rbind]. unfold len in Hloop |- *. rewrite Hloop.
    cbn [rbind fst snd]. rewrite <- !app_assoc. reflexivity.
  - unfold len in Hloop |- *. rewrite Hloop.
    cbn [rbind fst snd]. reflexivity.
Qed.

End Windows.

(** ** Binary64: a difference is zero only between equal floats

    [QuotePair.add] tells a new timestamp by the truth value of
    [ts - current_ts].  With gradual underflow the difference of two
    doubles is a zero only when they compare equal, so the test is
    [ts != current_ts]; this is proved from the specification of the
    primitive operations ([SpecFloat]). *)

Module Ieee.
#[local] Unset Implicit Arguments.
Open Scope Z_scope.

Lemma fexp64_eq (k : Z) : Binary64.fexp64 k = Z.max (k - 53) Binary64.emin64.
Proof. reflexivity. Qed.

Lemma emin64_eq : Binary64.emin64 = -1074.
Proof. reflexivity. Qed.

Lemma digits2_size (m : positive) : digits2_pos m = Pos.size m.
Proof. induction m; cbn; congruence. Qed.

Lemma digits2_lower (m : positive) : 2 ^ (Zpos (digits2_pos m) - 1) <= Zpos m.
Proof.
  rewrite digits2_size.
  pose proof (Pos.size_le m) as Hle.
  assert (H2 : 2 ^ Zpos (Pos.size m) <= 2 * Zpos m).
  { change (2 * Zpos m) with (Zpos m~0). rewrite <- Pos2Z.inj_pow. exact Hle. }
  replace (Zpos (Pos.size m)) with (Zpos (Pos.size m) - 1 + 1) in H2 by lia.
  rewrite Z.pow_add_r in H2 by lia. lia.
Qed.

Lemma shr_1_m (mrs : shr_record) :
  0 <= shr_m mrs -> shr_m (shr_1 mrs) = shr_m mrs / 2.
Proof.
  destruct mrs as [m r s]; cbn [shr_m]. intros Hm.
  destruct m as [|p|p]; [reflexivity| |lia].
  destruct p as [p|p|]; cbn [shr_1 shr_m].
  - rewrite Pos2Z.inj_xI. apply (Z.div_unique _ 2 _ 1); lia.
  - rewrite Pos2Z.inj_xO. apply (Z.div_unique _ 2 _ 0); lia.
  - reflexivity.
Qed.

Lemma pow2_xO (p : positive) : 2 ^ Zpos p~0 = 2 ^ Zpos p * 2 ^ Zpos p.
Proof.
  rewrite <- Z.pow_add_r by lia. f_equal. lia.
Qed.

Lemma pow2_xI (p : positive) : 2 ^ Zpos p~1 = 2 * (2 ^ Zpos p * 2 ^ Zpos p).
Proof.
  rewrite <- Z.pow_add_r by lia. rewrite <- Z.pow_succ_r by lia. f_equal. lia.
Qed.

Lemma iter_shr_1_m (p : positive) :
  forall mrs, 0 <= shr_m mrs ->
    shr_m (iter_pos shr_1 p mrs) = shr_m mrs / 2 ^ Zpos p.
Proof.
  induction p as [p IH|p IH|]; intros mrs Hm; cbn [iter_pos].
  - assert (H1 : 0 <= shr_m (shr_1 mrs))
      by (rewrite shr_1_m by lia; apply Z.div_pos; lia).
    assert (H2 : 0 <= shr_m (iter_pos shr_1 p (shr_1 mrs)))
      by (rewrite IH by lia; apply Z.div_pos; lia).
    rewrite IH, IH, shr_1_m by lia.
    rewrite !Z.div_div by lia. f_equal.
    rewrite pow2_xI. lia.
  - assert (H2 : 0 <= shr_m (iter_pos shr_1 p mrs))
      by (rewrite IH by lia; apply Z.div_pos; lia).
    rewrite IH, IH by lia.
    rewrite !Z.div_div by lia. f_equal.
    rewrite pow2_xO. lia.
  - rewrite shr_1_m by lia. reflexivity.
Qed.

Lemma shr_record_of_loc_m (m : Z) (l : location) :
  shr_m (shr_record_of_loc m l) = m.
Proof. destruct l as [|[ | | ]]; reflexivity. Qed.

(** Shifting a positive mantissa to its place leaves it positive, when its
    exponent is not below [emin]. *)
Lemma shr_fexp_pos (m : positive) (e : Z) (l : location) :
  Binary64.emin64 <= e ->
  0 < shr_m (fst (shr_fexp prec emax (Zpos m) e l))
  /\ Binary64.emin64 <= snd (shr_fexp prec emax (Zpos m) e l).
Proof.
  rewrite emin64_eq. intros He. unfold shr_fexp, shr.
  cbn [Zdigits2]. change (SpecFloat.fexp prec emax) with Binary64.fexp64.
  rewrite fexp64_eq, emin64_eq.
  destruct (Z.max (Zpos (digits2_pos m) + e - 53) (-1074) - e) as [|p|p] eqn:En;
    cbn [fst snd]; rewrite ?shr_record_of_loc_m; try (split; lia).
  rewrite iter_shr_1_m by (rewrite shr_record_of_loc_m; lia).
  rewrite shr_record_of_loc_m. split; [|lia].
  apply Z.div_str_pos. split; [lia|].
  apply Z.le_trans with (2 ^ (Zpos (digits2_pos m) - 1)); [|apply digits2_lower].
  apply Z.pow_le_mono_r; lia.
Qed.

Lemma round_nearest_even_pos (m : Z) (l : location) :
  0 < m -> 0 < round_nearest_even m l.
Proof.
  intros Hm. destruct l as [|[ | | ]]; cbn; try lia.
  destruct (Z.even m); lia.
Qed.

Lemma binary_round_aux_nonzero (s : bool) (m : positive) (e : Z) (l : location) :
  Binary64.emin64 <= e ->
  forall s', binary_round_aux prec emax s (Zpos m) e l <> S754_zero s'.
Proof.
  intros He s'. unfold binary_round_aux.
  destruct (@shr_fexp_pos m e l He) as [Hm1 He1].
  destruct (shr_fexp prec emax (Zpos m) e l) as [mrs1 e1]; cbn [fst snd] in *.
  pose proof (@round_nearest_even_pos (shr_m mrs1) (loc_of_shr_record mrs1) Hm1) as Hr.
  destruct (round_nearest_even (shr_m mrs1) (loc_of_shr_record mrs1)) as [|m2|m2];
    try lia.
  destruct (@shr_fexp_pos m2 e1 loc_Exact He1) as [Hm2 _].
  destruct (shr_fexp prec emax (Zpos m2) e1 loc_Exact) as [mrs2 e2];
    cbn [fst snd] in *.
  destruct (shr_m mrs2) as [|m3|m3]; try lia.
  destruct (e2 <=? emax - prec); discriminate.
Qed.


Lemma shl_align_fst (m : positive) (e e' : Z) :
  Zpos (fst (shl_align m e e')) = Zpos m * 2 ^ (e - snd (shl_align m e e'))
  /\ Zpos (digits2_pos (fst (shl_align m e e')))
     = Zpos (digits2_pos m) + (e - snd (shl_align m e e'))
  /\ snd (shl_align m e e') = Z.min e e'.
Proof.
  unfold shl_align.
  destruct (e' - e) as [|d|d] eqn:Ed; cbn [fst snd].
  - rewrite Z.sub_diag. cbn. lia.
  - rewrite Z.sub_diag. cbn. lia.
  - replace (e - e') with (Zpos d) by lia.
    assert (Hiter : Zpos (Pos.iter xO m d) = Zpos m * 2 ^ Zpos d
                    /\ Zpos (digits2_pos (Pos.iter xO m d))
                       = Zpos (digits2_pos m) + Zpos d).
    { clear Ed. induction d as [|d IH] using Pos.peano_ind.
      - cbn [Pos.iter digits2_pos]. rewrite Pos2Z.inj_xO, Pos2Z.inj_succ. lia.
      - rewrite Pos.iter_succ. cbn [digits2_pos].
        rewrite Pos2Z.inj_xO, !Pos2Z.inj_succ, Z.pow_succ_r by lia.
        destruct IH as [H1 H2]. rewrite H1, H2. lia. }
    destruct Hiter as [H1 H2]. lia.
Qed.

(** A rounded mantissa that is not zero gives a float that is not zero. *)
Lemma binary_round_nonzero (s : bool) (m : positive) (e : Z) :
  Binary64.emin64 <= e ->
  forall s', binary_round prec emax s m e <> S754_zero s'.
Proof.
  intros He s'. unfold binary_round.
  destruct (shl_align_fst m e (SpecFloat.fexp prec emax (Zpos (digits2_pos m) + e)))
    as [_ [_ Hsnd]].
  destruct (shl_align m e _) as [mz ez]; cbn [fst snd] in Hsnd.
  apply binary_round_aux_nonzero.
  subst ez. change (SpecFloat.fexp prec emax) with Binary64.fexp64.
  rewrite fexp64_eq. unfold Binary64.emin64 in *. lia.
Qed.


Lemma valid_finite (s : bool) (m : positive) (e : Z) :
  SpecFloat.valid_binary prec emax (S754_finite s m e) = true ->
  Binary64.fexp64 (Zpos (digits2_pos m) + e) = e.
Proof.
  cbn [SpecFloat.valid_binary]. unfold bounded, canonical_mantissa.
  intros Hv. apply andb_true_iff in Hv. destruct Hv as [Hc _].
  apply Z.eqb_eq in Hc. exact Hc.
Qed.

Lemma SFcompare_refl_finite (s : bool) (m : positive) (e : Z) :
  SFcompare (S754_finite s m e) (S754_finite s m e) = Some Eq.
Proof.
  cbn [SFcompare]. rewrite Z.compare_refl.
  assert (Hm : Pos.compare_cont Eq m m = Eq) by apply Pos.compare_cont_refl.
  rewrite Hm. destruct s; reflexivity.
Qed.

(** The difference of two floats is a zero only when they compare equal. *)
Lemma SFsub_zero (x y : spec_float) (s : bool) :
  SpecFloat.valid_binary prec emax x = true ->
  SpecFloat.valid_binary prec emax y = true ->
  SFsub prec emax x y = S754_zero s ->
  SFcompare x y = Some Eq.
Proof.
  intros Hx Hy.
  destruct x as [sx|sx| |sx mx ex], y as [sy|sy| |sy my ey];
    cbn [SFsub SFcompare]; try discriminate; try reflexivity.
  - destruct sx, sy; discriminate.
  - pose proof (valid_finite _ _ _ Hx) as Cx.
    pose proof (valid_finite _ _ _ Hy) as Cy.
    rewrite fexp64_eq in Cx, Cy. unfold Binary64.emin64 in Cx, Cy.
    destruct (shl_align_fst mx ex (Z.min ex ey)) as [Vx [Dx Ex]].
    destruct (shl_align_fst my ey (Z.min ex ey)) as [Vy [Dy Ey]].
    destruct (shl_align mx ex (Z.min ex ey)) as [mx' ex'].
    destruct (shl_align my ey (Z.min ex ey)) as [my' ey'].
    cbn [fst snd] in *.
    unfold binary_normalize.
    destruct (cond_Zopp sx (Zpos mx') - cond_Zopp sy (Zpos my')) as [|d|d] eqn:Ed.
    + intros _.
      assert (Hs : sx = sy /\ mx' = my').
      { destruct sx, sy; cbn [cond_Zopp] in Ed; try lia;
          (split; [reflexivity|]); assert (Zpos mx' = Zpos my') by lia; congruence. }
      destruct Hs as [<- <-].
      assert (Hex : ex = ey) by lia. subst ey.
      assert (Hm : Zpos mx = Zpos my).
      { assert (Hx' : ex - ex' = 0) by lia.
        assert (Hy' : ex - ey' = 0) by lia.
        rewrite Hx' in Vx. rewrite Hy' in Vy.
        rewrite Z.pow_0_r in Vx, Vy. lia. }
      inversion Hm; subst my. apply SFcompare_refl_finite.
    + intros Hz. exfalso. revert Hz.
      apply binary_round_nonzero. unfold Binary64.emin64 in *. lia.
    + intros Hz. exfalso. revert Hz.
      apply binary_round_nonzero. unfold Binary64.emin64 in *. lia.
Qed.

Lemma SFeqb_zero (x : spec_float) :
  SFeqb x (S754_zero false) = true -> exists s, x = S754_zero s.
Proof.
  destruct x as [s|s| |s m e]; cbn.
  - intros _. exists s. reflexivity.
  - destruct s; discriminate.
  - discriminate.
  - destruct s; discriminate.
Qed.

(** On binary64, [x - y] is a zero only when [x == y]. *)
Lemma sub_eqb_zero (x y : float) :
  (x - y =? 0)%float = true -> (x =? y)%float = true.
Proof.
  rewrite !FloatAxioms.eqb_spec, sub_spec.
  change (Prim2SF 0) with (S754_zero false).
  intros Hz. apply SFeqb_zero in Hz. destruct Hz as [s Hs].
  unfold SFeqb.
  rewrite (SFsub_zero (Prim2SF x) (Prim2SF y) s
             (Prim2SF_valid x) (Prim2SF_valid y) Hs).
  reflexivity.
Qed.

(** [1.0] has one representation: a float [== 1.0] is [1.0]. *)
Lemma eqb_one (d : float) : (d =? 1)%float = true -> d = 1%float.
Proof.
  intros Hd. apply Prim2SF_inj. rewrite FloatAxioms.eqb_spec in Hd.
  change (Prim2SF 1) with (S754_finite false 4503599627370496 (-52)) in *.
  unfold SFeqb in Hd.
  destruct (Prim2SF d) as [s|s| |s m e]; cbn [SFcompare] in Hd;
    try discriminate; try (destruct s; discriminate).
  destruct s; [discriminate|].
  destruct (e ?= -52) eqn:Ee; try discriminate.
  destruct (Pos.compare_cont Eq m 4503599627370496) eqn:Em; try discriminate.
  apply Z.compare_eq in Ee. apply Pos.compare_eq in Em. subst. reflexivity.
Qed.

(** [x < y] excludes [x == y]. *)
Lemma ltb_not_eqb (x y : float) :
  (x <? y)%float = true -> (x =? y)%float = false.
Proof.
  rewrite FloatAxioms.eqb_spec, ltb_spec. unfold SFltb, SFeqb.
  destruct (SFcompare (Prim2SF x) (Prim2SF y)) as [[ | | ]|]; congruence.
Qed.

End Ieee.

(** ** Binary64: sums, differences and comparisons that do not round *)

Module Rounding.
#[local] Unset Implicit Arguments.
Import Ieee.
Open Scope Z_scope.

Lemma digits2_upper (m : positive) : Zpos m < 2 ^ Zpos (digits2_pos m).
Proof.
  rewrite digits2_size. pose proof (Pos.size_gt m) as H.
  apply Pos2Z.pos_lt_pos in H. rewrite Pos2Z.inj_pow in H. exact H.
Qed.

Lemma digits2_unique (m : positive) (d : Z) :
  2 ^ (d - 1) <= Zpos m < 2 ^ d -> Zpos (digits2_pos m) = d.
Proof.
  intros [Hlo Hhi].
  pose proof (digits2_lower m) as Dlo. pose proof (digits2_upper m) as Dhi.
  assert (Hd : 0 < d).
  { destruct (Z_lt_le_dec 0 d) as [H|H]; [exact H|exfalso].
    assert (2 ^ d <= 1).
    { destruct (Z.eq_dec d 0) as [->|Hn]; [cbn; lia|].
      rewrite Z.pow_neg_r by lia. lia. }
    lia. }
  destruct (Z.lt_trichotomy (Zpos (digits2_pos m)) d) as [H|[H|H]]; [|exact H|].
  - exfalso.
    assert (2 ^ Zpos (digits2_pos m) <= 2 ^ (d - 1))
      by (apply Z.pow_le_mono_r; lia).
    lia.
  - exfalso.
    assert (2 ^ d <= 2 ^ (Zpos (digits2_pos m) - 1))
      by (apply Z.pow_le_mono_r; lia).
    lia.
Qed.

Lemma digits2_mul_pow2 (m m1 : positive) (n : Z) :
  0 <= n -> Zpos m = Zpos m1 * 2 ^ n ->
  Zpos (digits2_pos m) = Zpos (digits2_pos m1) + n.
Proof.
  intros Hn Hm. apply digits2_unique.
  pose proof (digits2_lower m1) as Dlo. pose proof (digits2_upper m1) as Dhi.
  assert (Hp : 0 < 2 ^ n) by (apply Z.pow_pos_nonneg; lia).
  rewrite Hm. split.
  - replace (Zpos (digits2_pos m1) + n - 1) with (Zpos (digits2_pos m1) - 1 + n) by lia.
    rewrite Z.pow_add_r by lia. apply Z.mul_le_mono_nonneg_r; lia.
  - rewrite Z.pow_add_r by lia. apply Z.mul_lt_mono_pos_r; lia.
Qed.

(** Shifting out zero bits loses nothing. *)
Lemma shr_1_exact (m : Z) :
  0 <= m -> (2 | m) ->
  shr_1 (Build_shr_record m false false) = Build_shr_record (m / 2) false false.
Proof.
  intros Hm [j Hj]. destruct m as [|p|p]; [reflexivity| |lia].
  destruct p as [p|p|]; cbn [shr_1 orb].
  - exfalso. rewrite Pos2Z.inj_xI in Hj. lia.
  - f_equal. rewrite Pos2Z.inj_xO, Z.mul_comm, Z.div_mul by lia. reflexivity.
  - exfalso. lia.
Qed.

Lemma iter_shr_1_exact (p : positive) :
  forall m, 0 <= m -> (2 ^ Zpos p | m) ->
    iter_pos shr_1 p (Build_shr_record m false false)
    = Build_shr_record (m / 2 ^ Zpos p) false false.
Proof.
  induction p as [p IH|p IH|]; intros m Hm Hdiv; cbn [iter_pos].
  - rewrite pow2_xI in Hdiv. destruct Hdiv as [j Hj].
    assert (Hp : 0 < 2 ^ Zpos p) by (apply Z.pow_pos_nonneg; lia).
    assert (Hj0 : 0 <= j) by nia.
    assert (H1 : m / 2 = j * 2 ^ Zpos p * 2 ^ Zpos p).
    { symmetry. apply Z.div_unique_exact; lia. }
    assert (H2 : m / 2 / 2 ^ Zpos p = j * 2 ^ Zpos p).
    { rewrite H1. apply Z.div_mul. lia. }
    assert (H3 : m / 2 / 2 ^ Zpos p / 2 ^ Zpos p = j).
    { rewrite H2. apply Z.div_mul. lia. }
    assert (H4 : m / 2 ^ Zpos p~1 = j).
    { rewrite pow2_xI. symmetry. apply Z.div_unique_exact; lia. }
    rewrite shr_1_exact by (try lia; exists (j * (2 ^ Zpos p * 2 ^ Zpos p)); lia).
    rewrite (IH (m / 2))
      by (rewrite H1; first [nia | exists (j * 2 ^ Zpos p); reflexivity]).
    rewrite IH by (rewrite H2; first [nia | exists j; reflexivity]).
    rewrite H3, H4. reflexivity.
  - rewrite pow2_xO in Hdiv. destruct Hdiv as [j Hj].
    assert (Hp : 0 < 2 ^ Zpos p) by (apply Z.pow_pos_nonneg; lia).
    assert (Hj0 : 0 <= j) by nia.
    assert (H2 : m / 2 ^ Zpos p = j * 2 ^ Zpos p).
    { symmetry. apply Z.div_unique_exact; lia. }
    assert (H3 : m / 2 ^ Zpos p / 2 ^ Zpos p = j).
    { rewrite H2. apply Z.div_mul. lia. }
    assert (H4 : m / 2 ^ Zpos p~0 = j).
    { rewrite pow2_xO. symmetry. apply Z.div_unique_exact; lia. }
    rewrite (IH m) by (try lia; exists (j * 2 ^ Zpos p); lia).
    rewrite IH by (rewrite H2; first [nia | exists j; reflexivity]).
    rewrite H3, H4. reflexivity.
  - change (2 ^ 1) with 2 in *. apply shr_1_exact; assumption.
Qed.

Lemma pow2_pos (k : Z) : 0 <= k -> 0 < 2 ^ k.
Proof. intros Hk. apply Z.pow_pos_nonneg; lia. Qed.

Lemma pow2_lt_inv (a b : Z) : 0 <= b -> 2 ^ a < 2 ^ b -> a < b.
Proof.
  intros Hb H. destruct (Z_lt_le_dec a b) as [Hlt|Hle]; [exact Hlt|exfalso].
  assert (2 ^ b <= 2 ^ a) by (apply Z.pow_le_mono_r; lia). lia.
Qed.

(** The magnitude of a representable value. *)
Lemma representable_digits (m : positive) (E : Z) :
  0 <= E -> representable (Zpos m * 2 ^ E) ->
  Zpos (digits2_pos m) + E <= 2098.
Proof.
  intros HE [N [k [HV [HN Hk]]]].
  pose proof (digits2_lower m) as Dlo.
  pose proof (pow2_pos E HE) as HpE. pose proof (pow2_pos k ltac:(lia)) as Hpk.
  assert (HNpos : 0 < N) by nia.
  assert (H1 : Zpos m * 2 ^ E < 2 ^ 53 * 2 ^ k)
    by (rewrite HV; apply Z.mul_lt_mono_pos_r; lia).
  assert (H2 : 2 ^ (Zpos (digits2_pos m) - 1) * 2 ^ E <= Zpos m * 2 ^ E)
    by (apply Z.mul_le_mono_nonneg_r; lia).
  rewrite <- !Z.pow_add_r in * by lia.
  assert (H3 : 2 ^ (Zpos (digits2_pos m) - 1 + E) < 2 ^ (53 + k)) by lia.
  apply pow2_lt_inv in H3; lia.
Qed.

(** A representable value whose mantissa has more than 53 bits ends in
    zero bits. *)
Lemma representable_divides (m : positive) (E n : Z) :
  0 <= E -> 0 < n -> n = Zpos (digits2_pos m) - 53 ->
  representable (Zpos m * 2 ^ E) ->
  (2 ^ n | Zpos m).
Proof.
  intros HE Hn Hdig [N [k [HV [HN Hk]]]].
  pose proof (digits2_lower m) as Dlo.
  pose proof (pow2_pos E HE) as HpE. pose proof (pow2_pos k ltac:(lia)) as Hpk.
  pose proof (pow2_pos n ltac:(lia)) as Hpn.
  assert (HNpos : 0 < N) by nia.
  destruct (Z_lt_le_dec k (E + n)) as [Hlt|Hge].
  - exfalso.
    assert (H1 : Zpos m * 2 ^ E < 2 ^ 53 * 2 ^ k)
      by (rewrite HV; apply Z.mul_lt_mono_pos_r; lia).
    assert (H2 : 2 ^ (Zpos (digits2_pos m) - 1) * 2 ^ E <= Zpos m * 2 ^ E)
      by (apply Z.mul_le_mono_nonneg_r; lia).
    rewrite <- !Z.pow_add_r in * by lia.
    assert (H3 : 2 ^ (Zpos (digits2_pos m) - 1 + E) < 2 ^ (53 + k)) by lia.
    apply pow2_lt_inv in H3; lia.
  - exists (N * 2 ^ (k - E - n)).
    assert (Hk2 : 2 ^ k = 2 ^ (k - E - n) * 2 ^ n * 2 ^ E).
    { rewrite <- !Z.pow_add_r by lia. f_equal. lia. }
    rewrite Hk2 in HV.
    apply (Z.mul_reg_r _ _ (2 ^ E)); [lia|]. rewrite HV. ring.
Qed.

(** Rounding a representable value returns it. *)
Lemma round_aux_exact (s : bool) (m : positive) (e : Z) :
  emin64 <= e <= 971 ->
  representable (Zpos m * 2 ^ (e - emin64)) ->
  exists m' e',
    binary_round_aux prec emax s (Zpos m) e loc_Exact = S754_finite s m' e'
    /\ Zpos m' * 2 ^ (e' - emin64) = Zpos m * 2 ^ (e - emin64)
    /\ emin64 <= e' <= 971
    /\ (e <= fexp64 (Zpos (digits2_pos m) + e) ->
        fexp64 (Zpos (digits2_pos m') + e') = e').
Proof.
  rewrite emin64_eq. intros He Hrep.
  pose proof (representable_digits m (e - -1074) ltac:(lia) Hrep) as HD.
  unfold binary_round_aux, shr_fexp, shr.
  cbn [Zdigits2]. change (SpecFloat.fexp prec emax) with fexp64.
  rewrite !fexp64_eq, emin64_eq.
  destruct (Z.max (Zpos (digits2_pos m) + e - 53) (-1074) - e) as [|p|p] eqn:En.
  - cbn [shr_record_of_loc loc_of_shr_record shr_m round_nearest_even Zdigits2].
    rewrite !fexp64_eq, emin64_eq, En. cbn [shr_m].
    replace (e <=? emax - prec) with true
      by (symmetry; apply Z.leb_le; change (emax - prec) with 971; lia).
    exists m, e. rewrite ?fexp64_eq, ?emin64_eq. repeat split; try lia.
  - assert (Hn : Zpos p = Zpos (digits2_pos m) - 53) by lia.
    destruct (representable_divides m (e - -1074) (Zpos p) ltac:(lia) ltac:(lia) Hn Hrep)
      as [m1 Hm1].
    pose proof (pow2_pos (Zpos p) ltac:(lia)) as Hpp.
    assert (Hm1pos : 0 < m1) by nia.
    destruct m1 as [|m1|m1]; try lia.
    cbn [shr_record_of_loc].
    rewrite iter_shr_1_exact by (try lia; exists (Zpos m1); exact Hm1).
    rewrite Hm1, Z.div_mul by lia.
    cbn [loc_of_shr_record shr_m round_nearest_even Zdigits2].
    rewrite !fexp64_eq, emin64_eq.
    rewrite (digits2_mul_pow2 m m1 (Zpos p) ltac:(lia) Hm1) in En, Hn, HD.
    replace (Z.max (Zpos (digits2_pos m1) + (e + Zpos p) - 53) (-1074) - (e + Zpos p))
      with 0 by lia.
    cbn [shr_m].
    replace (e + Zpos p <=? emax - prec) with true
      by (symmetry; apply Z.leb_le; change (emax - prec) with 971; lia).
    exists m1, (e + Zpos p). rewrite ?fexp64_eq, ?emin64_eq. repeat split; try lia.
    replace (e + Zpos p - -1074) with (e - -1074 + Zpos p) by lia.
    rewrite Z.pow_add_r by lia. lia.
  - cbn [shr_record_of_loc loc_of_shr_record shr_m round_nearest_even Zdigits2].
    rewrite !fexp64_eq, emin64_eq, En. cbn [shr_m].
    replace (e <=? emax - prec) with true
      by (symmetry; apply Z.leb_le; change (emax - prec) with 971; lia).
    exists m, e. rewrite ?fexp64_eq, ?emin64_eq. repeat split; try lia.
Qed.

Lemma round_exact (s : bool) (m : positive) (e : Z) :
  emin64 <= e ->
  representable (Zpos m * 2 ^ (e - emin64)) ->
  exists m' e',
    binary_round prec emax s m e = S754_finite s m' e'
    /\ Zpos m' * 2 ^ (e' - emin64) = Zpos m * 2 ^ (e - emin64)
    /\ emin64 <= e' <= 971
    /\ fexp64 (Zpos (digits2_pos m') + e') = e'.
Proof.
  rewrite emin64_eq. intros He Hrep.
  pose proof (representable_digits m (e - -1074) ltac:(lia) Hrep) as HD.
  unfold binary_round.
  destruct (shl_align_fst m e (SpecFloat.fexp prec emax (Zpos (digits2_pos m) + e)))
    as [Hv [Hd Hsnd]].
  change (SpecFloat.fexp prec emax) with fexp64 in *.
  rewrite fexp64_eq, emin64_eq in Hsnd.
  destruct (shl_align m e _) as [mz ez]; cbn [fst snd] in *.
  assert (Hval : Zpos mz * 2 ^ (ez - -1074) = Zpos m * 2 ^ (e - -1074)).
  { rewrite Hv, <- Z.mul_assoc, <- Z.pow_add_r by lia. do 2 f_equal. lia. }
  destruct (round_aux_exact s mz ez) as [m' [e' [Hr [Hv' [He' Hc]]]]].
  - rewrite emin64_eq. lia.
  - rewrite emin64_eq, Hval. exact Hrep.
  - exists m', e'. rewrite emin64_eq in *. rewrite Hr.
    split; [reflexivity|]. split; [lia|]. split; [lia|].
    apply Hc. rewrite fexp64_eq, emin64_eq, Hd. lia.
Qed.

Lemma representable_opp (V : Z) : representable V -> representable (- V).
Proof.
  intros [N [k [HV [HN Hk]]]]. exists (- N), k.
  rewrite Z.abs_opp. repeat split; try lia.
Qed.

Lemma representable_0 : representable 0.
Proof. exists 0, 0. cbn. lia. Qed.

Lemma valid_emin (s : bool) (m : positive) (e : Z) :
  SpecFloat.valid_binary prec emax (S754_finite s m e) = true ->
  emin64 <= e <= 971.
Proof.
  intros Hv. pose proof (valid_finite _ _ _ Hv) as Hc.
  rewrite fexp64_eq in Hc. rewrite emin64_eq in *.
  cbn [SpecFloat.valid_binary] in Hv. unfold bounded in Hv.
  apply andb_true_iff in Hv. destruct Hv as [_ Hb]. apply Z.leb_le in Hb.
  change (emax - prec) with 971 in Hb. lia.
Qed.

(** The aligned mantissas of an addition. *)
Lemma aligned_units (s : bool) (m : positive) (e ez : Z) :
  emin64 <= ez <= e ->
  cond_Zopp s (Zpos (fst (shl_align m e ez))) * 2 ^ (ez - emin64)
  = cond_Zopp s (Zpos m) * 2 ^ (e - emin64).
Proof.
  rewrite emin64_eq. intros He.
  destruct (shl_align_fst m e ez) as [Hv [_ Hsnd]].
  rewrite Hv, Hsnd. replace (Z.min e ez) with ez by lia.
  assert (Hp : 2 ^ (e - -1074) = 2 ^ (e - ez) * 2 ^ (ez - -1074)).
  { rewrite <- Z.pow_add_r by lia. f_equal. lia. }
  rewrite Hp. destruct s; cbn [cond_Zopp]; ring.
Qed.

Lemma normalize_exact (M ez : Z) :
  emin64 <= ez ->
  representable (M * 2 ^ (ez - emin64)) ->
  SFunits (binary_normalize prec emax M ez false) = Some (M * 2 ^ (ez - emin64)).
Proof.
  intros He Hrep. destruct M as [|q|q]; cbn [binary_normalize].
  - reflexivity.
  - destruct (round_exact false q ez He Hrep) as [m' [e' [Hr [Hv _]]]].
    rewrite Hr. cbn [SFunits cond_Zopp]. rewrite Hv. reflexivity.
  - assert (Hrep' : representable (Zpos q * 2 ^ (ez - emin64))).
    { apply representable_opp in Hrep.
      rewrite <- Z.mul_opp_l in Hrep. exact Hrep. }
    destruct (round_exact true q ez He Hrep') as [m' [e' [Hr [Hv _]]]].
    rewrite Hr. cbn [SFunits cond_Zopp].
    rewrite Z.mul_opp_l, Hv. rewrite <- Z.mul_opp_l. reflexivity.
Qed.

(** An addition whose exact result is representable is exact. *)
Lemma SFadd_exact (x y : spec_float) (X Y : Z) :
  SpecFloat.valid_binary prec emax x = true ->
  SpecFloat.valid_binary prec emax y = true ->
  SFunits x = Some X -> SFunits y = Some Y ->
  representable (X + Y) ->
  SFunits (SFadd prec emax x y) = Some (X + Y).
Proof.
  intros Hx Hy HX HY Hrep.
  destruct x as [sx|sx| |sx mx ex], y as [sy|sy| |sy my ey];
    cbn [SFunits] in HX, HY; try discriminate;
    inversion HX; inversion HY; subst X Y; clear HX HY.
  - destruct sx, sy; reflexivity.
  - cbn [SFadd SFunits]. f_equal; lia.
  - cbn [SFadd SFunits]. f_equal; lia.
  - pose proof (valid_emin _ _ _ Hx) as Ex. pose proof (valid_emin _ _ _ Hy) as Ey.
    cbn [SFadd].
    rewrite <- (aligned_units sx mx ex (Z.min ex ey)) in * by lia.
    rewrite <- (aligned_units sy my ey (Z.min ex ey)) in * by lia.
    rewrite <- Z.mul_add_distr_r in *.
    apply normalize_exact; [lia | exact Hrep].
Qed.

Lemma SFsub_exact (x y : spec_float) (X Y : Z) :
  SpecFloat.valid_binary prec emax x = true ->
  SpecFloat.valid_binary prec emax y = true ->
  SFunits x = Some X -> SFunits y = Some Y ->
  representable (X - Y) ->
  SFunits (SFsub prec emax x y) = Some (X - Y).
Proof.
  intros Hx Hy HX HY Hrep.
  destruct x as [sx|sx| |sx mx ex], y as [sy|sy| |sy my ey];
    cbn [SFunits] in HX, HY; try discriminate;
    inversion HX; inversion HY; subst X Y; clear HX HY.
  - destruct sx, sy; reflexivity.
  - cbn [SFsub SFunits]. f_equal; destruct sy; cbn [negb cond_Zopp]; lia.
  - cbn [SFsub SFunits]. f_equal; lia.
  - pose proof (valid_emin _ _ _ Hx) as Ex. pose proof (valid_emin _ _ _ Hy) as Ey.
    cbn [SFsub].
    rewrite <- (aligned_units sx mx ex (Z.min ex ey)) in * by lia.
    rewrite <- (aligned_units sy my ey (Z.min ex ey)) in * by lia.
    rewrite <- Z.mul_sub_distr_r in *.
    apply normalize_exact; [lia | exact Hrep].
Qed.

Lemma add_exact (x y : float) (X Y : Z) :
  units x = Some X -> units y = Some Y ->
  representable (X + Y) ->
  units (x + y)%float = Some (X + Y).
Proof.
  unfold units. rewrite add_spec.
  apply SFadd_exact; apply Prim2SF_valid.
Qed.

Lemma sub_exact (x y : float) (X Y : Z) :
  units x = Some X -> units y = Some Y ->
  representable (X - Y) ->
  units (x - y)%float = Some (X - Y).
Proof.
  unfold units. rewrite sub_spec.
  apply SFsub_exact; apply Prim2SF_valid.
Qed.

(** ** Comparison *)

Lemma valid_mantissa (s : bool) (m : positive) (e : Z) :
  SpecFloat.valid_binary prec emax (S754_finite s m e) = true ->
  Zpos m < 2 ^ 53 /\ (emin64 < e -> 2 ^ 52 <= Zpos m).
Proof.
  intros Hv. pose proof (valid_finite _ _ _ Hv) as Hc.
  rewrite fexp64_eq, emin64_eq in *.
  pose proof (digits2_lower m) as Dlo. pose proof (digits2_upper m) as Dhi.
  split.
  - assert (2 ^ Zpos (digits2_pos m) <= 2 ^ 53)
      by (apply Z.pow_le_mono_r; lia).
    lia.
  - intros He.
    assert (2 ^ 52 <= 2 ^ (Zpos (digits2_pos m) - 1))
      by (apply Z.pow_le_mono_r; lia).
    lia.
Qed.

Lemma compare_magnitudes (m1 m2 : positive) (e1 e2 : Z) (s1 s2 : bool) :
  SpecFloat.valid_binary prec emax (S754_finite s1 m1 e1) = true ->
  SpecFloat.valid_binary prec emax (S754_finite s2 m2 e2) = true ->
  match e1 ?= e2 with
  | Lt => Lt
  | Gt => Gt
  | Eq => Pos.compare_cont Eq m1 m2
  end
  = (Zpos m1 * 2 ^ (e1 - emin64) ?= Zpos m2 * 2 ^ (e2 - emin64)).
Proof.
  intros H1 H2.
  pose proof (valid_emin _ _ _ H1) as E1. pose proof (valid_emin _ _ _ H2) as E2.
  destruct (valid_mantissa _ _ _ H1) as [U1 L1].
  destruct (valid_mantissa _ _ _ H2) as [U2 L2].
  unfold emin64 in *.
  pose proof (pow2_pos (e1 - -1074) ltac:(lia)) as P1.
  pose proof (pow2_pos (e2 - -1074) ltac:(lia)) as P2.
  destruct (e1 ?= e2) eqn:Ce.
  - apply Z.compare_eq in Ce. subst e2.
    change (Pos.compare_cont Eq m1 m2) with (Zpos m1 ?= Zpos m2).
    destruct (Z.compare_spec (Zpos m1) (Zpos m2)); symmetry;
      [apply Z.compare_eq_iff | apply Z.compare_lt_iff | apply Z.compare_gt_iff];
      nia.
  - rewrite Z.compare_lt_iff in Ce. symmetry. apply Z.compare_lt_iff.
    specialize (L2 ltac:(lia)).
    assert (Hp : 2 ^ (e2 - -1074) = 2 ^ (e2 - e1 - 1) * (2 * 2 ^ (e1 - -1074))).
    { rewrite <- Z.pow_succ_r, <- Z.pow_add_r by lia. f_equal. lia. }
    pose proof (pow2_pos (e2 - e1 - 1) ltac:(lia)) as P3.
    rewrite Hp. nia.
  - rewrite Z.compare_gt_iff in Ce. symmetry. apply Z.compare_gt_iff.
    specialize (L1 ltac:(lia)).
    assert (Hp : 2 ^ (e1 - -1074) = 2 ^ (e1 - e2 - 1) * (2 * 2 ^ (e2 - -1074))).
    { rewrite <- Z.pow_succ_r, <- Z.pow_add_r by lia. f_equal. lia. }
    pose proof (pow2_pos (e1 - e2 - 1) ltac:(lia)) as P3.
    rewrite Hp. nia.
Qed.

(** Comparing two finite doubles compares their values. *)
Lemma SFcompare_units (x y : spec_float) (X Y : Z) :
  SpecFloat.valid_binary prec emax x = true ->
  SpecFloat.valid_binary prec emax y = true ->
  SFunits x = Some X -> SFunits y = Some Y ->
  SFcompare x y = Some (X ?= Y).
Proof.
  intros Hx Hy HX HY.
  destruct x as [sx|sx| |sx mx ex], y as [sy|sy| |sy my ey];
    cbn [SFunits] in HX, HY; try discriminate;
    inversion HX; inversion HY; subst X Y; clear HX HY.
  - reflexivity.
  - pose proof (valid_emin _ _ _ Hy) as Ey. rewrite emin64_eq in *.
    pose proof (pow2_pos (ey - -1074) ltac:(lia)) as P.
    cbn [SFcompare]. f_equal. symmetry.
    destruct sy; cbn [cond_Zopp];
      [apply Z.compare_gt_iff | apply Z.compare_lt_iff]; nia.
  - pose proof (valid_emin _ _ _ Hx) as Ex. rewrite emin64_eq in *.
    pose proof (pow2_pos (ex - -1074) ltac:(lia)) as P.
    cbn [SFcompare]. f_equal. symmetry.
    destruct sx; cbn [cond_Zopp];
      [apply Z.compare_lt_iff | apply Z.compare_gt_iff]; nia.
  - pose proof (valid_emin _ _ _ Hx) as Ex. pose proof (valid_emin _ _ _ Hy) as Ey.
    pose proof (compare_magnitudes mx my ex ey sx sy Hx Hy) as Hc.
    rewrite emin64_eq in *.
    pose proof (pow2_pos (ex - -1074) ltac:(lia)) as Px.
    pose proof (pow2_pos (ey - -1074) ltac:(lia)) as Py.
    cbn [SFcompare]. f_equal.
    destruct sx, sy; unfold cond_Zopp.
    + rewrite !Z.mul_opp_l, Z.compare_opp.
      rewrite (Z.compare_antisym (Z.pos mx * 2 ^ (ex - -1074))
                 (Z.pos my * 2 ^ (ey - -1074))), <- Hc.
      destruct (ex ?= ey); reflexivity.
    + symmetry. apply Z.compare_lt_iff. nia.
    + symmetry. apply Z.compare_gt_iff. nia.
    + exact Hc.
Qed.

Lemma leb_units (x y : float) (X Y : Z) :
  units x = Some X -> units y = Some Y ->
  (x <=? y)%float = (X <=? Y).
Proof.
  unfold units. intros HX HY. rewrite leb_spec. unfold SFleb.
  rewrite (SFcompare_units _ _ X Y (Prim2SF_valid x) (Prim2SF_valid y) HX HY).
  unfold Z.leb. destruct (X ?= Y); reflexivity.
Qed.

Lemma ltb_units (x y : float) (X Y : Z) :
  units x = Some X -> units y = Some Y ->
  (x <? y)%float = (X <? Y).
Proof.
  unfold units. intros HX HY. rewrite ltb_spec. unfold SFltb.
  rewrite (SFcompare_units _ _ X Y (Prim2SF_valid x) (Prim2SF_valid y) HX HY).
  unfold Z.ltb. destruct (X ?= Y); reflexivity.
Qed.

Lemma eqb_units (x y : float) (X Y : Z) :
  units x = Some X -> units y = Some Y ->
  (x =? y)%float = (X =? Y).
Proof.
  unfold units. intros HX HY. rewrite eqb_spec. unfold SFeqb.
  rewrite (SFcompare_units _ _ X Y (Prim2SF_valid x) (Prim2SF_valid y) HX HY).
  destruct (Z.compare_spec X Y) as [E|L|G];
    destruct (Z.eqb_spec X Y); try reflexivity; lia.
Qed.

(** A double between two finite doubles is finite. *)
Lemma finite_between (lo x hi : float) (L H : Z) :
  units lo = Some L -> units hi = Some H ->
  (lo <=? x)%float = true -> (x <=? hi)%float = true ->
  exists X, units x = Some X /\ L <= X <= H.
Proof.
  intros HL HH Hlo Hhi.
  destruct (units x) as [X|] eqn:HX.
  - exists X. split; [reflexivity|].
    rewrite (leb_units lo x L X HL HX) in Hlo.
    rewrite (leb_units x hi X H HX HH) in Hhi.
    apply Z.leb_le in Hlo, Hhi. lia.
  - exfalso. unfold units in *. rewrite leb_spec in Hlo, Hhi.
    unfold SFleb in *.
    destruct (Prim2SF x) as [s|s| |s m e]; cbn [SFunits] in HX;
      try discriminate HX;
      destruct (Prim2SF lo) as [sl|sl| |sl ml el]; cbn [SFunits] in HL;
      try discriminate HL;
      destruct (Prim2SF hi) as [sh|sh| |sh mh eh]; cbn [SFunits] in HH;
      try discriminate HH;
      cbn [SFcompare] in Hlo, Hhi; try discriminate;
      destruct s; discriminate.
Qed.

(** Doubles of magnitude at least [2^p] units are multiples of
    [2^(p-52)] units. *)
Lemma units_quantum (x : float) (X p : Z) :
  units x = Some X -> 52 <= p -> 2 ^ p <= Z.abs X ->
  (2 ^ (p - 52) | X).
Proof.
  unfold units. intros HX Hp Hmag. pose proof (Prim2SF_valid x) as Hv.
  destruct (Prim2SF x) as [s|s| |s m e]; cbn [SFunits] in HX; try discriminate;
    inversion HX; subst X; clear HX.
  - exists 0. lia.
  - pose proof (valid_emin _ _ _ Hv) as He.
    destruct (valid_mantissa _ _ _ Hv) as [Hm _].
    rewrite emin64_eq in *.
    pose proof (pow2_pos (e - -1074) ltac:(lia)) as P.
    assert (Habs : Z.abs (cond_Zopp s (Zpos m) * 2 ^ (e - -1074))
                   = Zpos m * 2 ^ (e - -1074))
      by (destruct s; cbn [cond_Zopp]; lia).
    rewrite Habs in Hmag.
    assert (Hlt : 2 ^ p < 2 ^ (53 + (e - -1074))).
    { rewrite Z.pow_add_r by lia. nia. }
    apply pow2_lt_inv in Hlt; [|lia].
    exists (cond_Zopp s (Zpos m) * 2 ^ (e - -1074 - (p - 52))).
    rewrite <- Z.mul_assoc, <- Z.pow_add_r by lia. do 2 f_equal. lia.
Qed.

(** Two doubles with the same value, not zero, are the same double. *)
Lemma units_inj (x y : float) (V : Z) :
  units x = Some V -> units y = Some V -> V <> 0 -> x = y.
Proof.
  unfold units. intros HX HY HV. apply Prim2SF_inj.
  pose proof (SFcompare_units _ _ V V (Prim2SF_valid x) (Prim2SF_valid y) HX HY)
    as Hc.
  rewrite Z.compare_refl in Hc.
  destruct (Prim2SF x) as [sx|sx| |sx mx ex]; cbn [SFunits] in HX;
    try discriminate; [inversion HX; congruence|].
  destruct (Prim2SF y) as [sy|sy| |sy my ey]; cbn [SFunits] in HY;
    try discriminate; [inversion HY; congruence|].
  cbn [SFcompare] in Hc.
  destruct sx, sy; try discriminate Hc;
    destruct (ex ?= ey) eqn:Ce; try discriminate Hc;
    apply Z.compare_eq in Ce; subst ey;
    destruct (Pos.compare_cont Eq mx my) eqn:Cm; try discriminate Hc;
    apply Pos.compare_eq in Cm; subst my; reflexivity.
Qed.

End Rounding.

Module Whole.
#[local] Unset Implicit Arguments.
Import Ieee Rounding.
Open Scope Z_scope.

Lemma div_eucl_1 (a : Z) : Z.div_eucl a 1 = (a, 0).
Proof.
  pose proof (Z.div_1_r a) as Hq. pose proof (Z.mod_1_r a) as Hr.
  unfold Z.div, Z.modulo in Hq, Hr.
  destruct (Z.div_eucl a 1) as [q r]. cbn [fst snd] in Hq, Hr. congruence.
Qed.

(** The quotient [float(n)] is computed from: [n / 1], scaled to 54 bits. *)
Lemma div_core_one (m : positive) :
  Zpos m < 2 ^ 53 ->
  SFdiv_core_binary prec emax (Zpos m) 0 1 0
  = (Zpos m * 2 ^ (54 - Zpos (digits2_pos m)), Zpos (digits2_pos m) - 54,
     loc_Exact).
Proof.
  intros Hm.
  pose proof (digits2_lower m) as Dlo.
  assert (Hd : Zpos (digits2_pos m) <= 53).
  { destruct (Z_lt_le_dec 53 (Zpos (digits2_pos m))) as [Hgt|Hle]; [|lia].
    exfalso.
    assert (2 ^ 53 <= 2 ^ (Zpos (digits2_pos m) - 1))
      by (apply Z.pow_le_mono_r; lia).
    lia. }
  unfold SFdiv_core_binary.
  change (Zdigits2 (Zpos m)) with (Zpos (digits2_pos m)).
  change (Zdigits2 1) with 1.
  change (SpecFloat.fexp prec emax) with fexp64.
  rewrite fexp64_eq, emin64_eq.
  replace (Z.min (Z.max (Zpos (digits2_pos m) + 0 - (1 + 0) - 53) (-1074)) (0 - 0))
    with (Zpos (digits2_pos m) - 54) by lia.
  replace (0 - 0 - (Zpos (digits2_pos m) - 54)) with (54 - Zpos (digits2_pos m))
    by lia.
  destruct (54 - Zpos (digits2_pos m)) as [|p|p] eqn:Es; [lia| |lia].
  rewrite Z.shiftl_mul_pow2 by lia.
  rewrite div_eucl_1. reflexivity.
Qed.

Lemma finite_valid (s : bool) (m : positive) (e : Z) :
  fexp64 (Zpos (digits2_pos m) + e) = e -> e <= 971 ->
  SpecFloat.valid_binary prec emax (S754_finite s m e) = true.
Proof.
  intros Hc He. cbn [SpecFloat.valid_binary]. unfold bounded, canonical_mantissa.
  apply andb_true_iff. split.
  - apply Z.eqb_eq. exact Hc.
  - apply Z.leb_le. exact He.
Qed.

Lemma pow2_split (a b : Z) : 0 <= a -> 0 <= b -> 2 ^ (a + b) = 2 ^ a * 2 ^ b.
Proof. intros Ha Hb. apply Z.pow_add_r; assumption. Qed.

(** [float(z)] is exact for an integer of less than 54 bits. *)
Lemma of_int_units (z : Z) :
  Z.abs z < 2 ^ 53 ->
  units (b64_of_int z) = Some (z * 2 ^ 1074).
Proof.
  intros Hz. unfold units, b64_of_int, Q2B.
  destruct (Z.abs z) as [|m|m] eqn:Ez; [| |lia].
  - rewrite Prim2SF_SF2Prim by reflexivity.
    replace z with 0 by lia. reflexivity.
  - rewrite (div_core_one m Hz).
    pose proof (digits2_lower m) as Dlo.
    pose proof (digits2_upper m) as Dhi.
    assert (Hd : 1 <= Zpos (digits2_pos m) <= 53).
    { split; [lia|].
      destruct (Z_lt_le_dec 53 (Zpos (digits2_pos m))) as [Hgt|Hle]; [|lia].
      exfalso.
      assert (2 ^ 53 <= 2 ^ (Zpos (digits2_pos m) - 1))
        by (apply Z.pow_le_mono_r; lia).
      lia. }
    set (d := Zpos (digits2_pos m)) in *.
    pose proof (pow2_pos (54 - d) ltac:(lia)) as Hp.
    destruct (Zpos m * 2 ^ (54 - d)) as [|M|M] eqn:EM; [nia| |nia].
    assert (Hval : Zpos M * 2 ^ (d - 54 - emin64) = Zpos m * 2 ^ 1074).
    { rewrite <- EM, emin64_eq, <- Z.mul_assoc, <- Z.pow_add_r by lia.
      f_equal. f_equal. lia. }
    assert (HdM : Zpos (digits2_pos M) = 54).
    { apply digits2_unique. rewrite <- EM. split.
      - replace (54 - 1) with ((d - 1) + (54 - d)) by lia.
        rewrite Z.pow_add_r by lia.
        apply Z.mul_le_mono_nonneg_r; lia.
      - replace 54 with (d + (54 - d)) at 2 by lia.
        rewrite Z.pow_add_r by lia.
        apply Z.mul_lt_mono_pos_r; lia. }
    destruct (round_aux_exact (z <? 0) M (d - 54)) as [m' [e' [Hr [Hv [He Hc]]]]].
    + rewrite emin64_eq. lia.
    + rewrite Hval. exists (Zpos m), 1074. repeat split; lia.
    + rewrite Hr.
      rewrite HdM, fexp64_eq, emin64_eq in Hc.
      specialize (Hc ltac:(lia)).
      rewrite Prim2SF_SF2Prim.
      * cbn [SFunits]. f_equal.
        destruct (Z.ltb_spec z 0); unfold cond_Zopp;
          rewrite ?Z.mul_opp_l, Hv, Hval; lia.
      * apply finite_valid; [exact Hc|lia].
Qed.

End Whole.

Module WindowSums.
#[local] Unset Implicit Arguments.
Import Ieee Rounding Whole.
Open Scope Z_scope.

Lemma last_cons {A} (l : list A) :
  forall (x d : A), last (x :: l) d = last l x.
Proof.
  induction l as [|y l IH]; intros x d; [reflexivity|].
  change (last (x :: y :: l) d) with (last (y :: l) d).
  rewrite (IH y d), (IH y x). reflexivity.
Qed.

Section Second.
(** The second [[A, A + U]] in units, [A] at least one second; [q] is the
    spacing of the doubles from one second on. *)
Variables A U q : Z.
Hypothesis q_pos : 0 < q.
Hypothesis U_eq : U = 2 ^ 52 * q.
Hypothesis q_eq : q = 2 ^ 1022.
Hypothesis A_lo : U <= A.
Hypothesis A_q : (q | A).

Lemma small_multiple_representable (V : Z) :
  (q | V) -> Z.abs V <= U -> representable V.
Proof.
  intros [N HN] Hb. exists N, 1022. rewrite <- q_eq. split; [exact HN|].
  split; [|lia]. subst V U. nia.
Qed.

Lemma U_q : (q | U).
Proof. exists (2 ^ 52). exact U_eq. Qed.

Lemma in_second_sub (t1 t2 : float) (T1 T2 : Z) :
  in_second A U q t1 T1 -> in_second A U q t2 T2 ->
  units (t1 - t2)%float = Some (T1 - T2).
Proof.
  intros [H1 [B1 D1]] [H2 [B2 D2]].
  apply sub_exact; [exact H1|exact H2|].
  apply small_multiple_representable; [apply Z.divide_sub_r; assumption|lia].
Qed.

(** Adding up the durations between consecutive records, from an
    accumulator that holds the time from [B] to the first record. *)
Lemma fold_consecutive (rest : list (float * float)) :
  forall (r0 : float * float) (acc : float) (T0 B : Z),
    in_second A U q (fst r0) T0 ->
    Forall (fun r => exists T, in_second A U q (fst r) T) rest ->
    A <= B <= A + U -> (q | B) ->
    units acc = Some (T0 - B) ->
    exists Tl,
      in_second A U q (fst (last rest r0)) Tl
      /\ units (fold_left PrimFloat.add (snd (consecutive r0 rest)) acc)
         = Some (Tl - B).
Proof.
  induction rest as [|cur rest IH]; intros r0 acc T0 B H0 Hall HB DB Hacc.
  - exists T0. split; [exact H0|exact Hacc].
  - inversion Hall as [|c l [Tc Hc] Hrest]; subst c l.
    cbn [consecutive snd fold_left]. rewrite last_cons.
    apply (IH cur _ Tc B Hc Hrest HB DB).
    change (@fadd float b64_ops) with PrimFloat.add.
    change (@fsub float b64_ops) with PrimFloat.sub.
    pose proof (in_second_sub _ _ _ _ Hc H0) as Hd.
    replace (Tc - B) with ((T0 - B) + (Tc - T0)) by ring.
    apply add_exact; [exact Hacc|exact Hd|].
    replace ((T0 - B) + (Tc - T0)) with (Tc - B) by ring.
    destruct Hc as [_ [Bc Dc]].
    apply small_multiple_representable; [apply Z.divide_sub_r; assumption|lia].
Qed.

End Second.
End WindowSums.

(** ** The claims on binary64 *)

Module Binary64Facts.
Import Cases.
Open Scope float_scope.

(** The cache [test_weight_time] writes by hand is the one [add] builds. *)
Lemma cold_window_eq : cold_window = weighting_cache.
Proof. vm_compute. reflexivity. Qed.


(** C2: the feeding loop of [test_add_and_log] ends without an
    exception and leaves the archive the test expects; [log] then
    returns (with a fuel of 2 or more for its inner loop) having
    written one record per second from 801 to 804, the gap second 802
    repeating 0.15, and keeps the last entry as the new archive. *)
Theorem scenario_add_and_log :
  snd Scenario.fed = Ok tt
  /\ TimeCache.archive fed_cache
     = [(800, None); (801, Some 0.15); (803, Some 0.15); (804, Some 0.135)]
  /\ forall fuel : nat,
       (2 <= fuel)%nat ->
       snd (run_log fuel fed_cache) = Ok tt
       /\ TimeCache.stdout (fst (run_log fuel fed_cache))
          = [line "801000000,0.15000000"; line "802000000,0.15000000";
             line "803000000,0.15000000"; line "804000000,0.13500000"]
       /\ TimeCache.archive (TimeCache.self_ (fst (run_log fuel fed_cache)))
          = [(804, Some 0.135)].
Proof.
  split; [vm_compute; reflexivity|].
  split; [vm_compute; reflexivity|].
  intros fuel Hfuel.
  assert (Hrun : run_log 2 fed_cache = (fst (run_log 2 fed_cache), Ok tt))
    by (vm_compute; reflexivity).
  unfold run_log in Hrun |- *.
  rewrite (log_enough_fuel _ Hrun ltac:(discriminate) Hfuel).
  cbn [fst snd]. split; [reflexivity|]. split; vm_compute; reflexivity.
Qed.

(** The scenario with a fuel of 10. *)
Lemma scenario_add_and_log_fuel_10 :
  snd (run_log 10 fed_cache) = Ok tt
  /\ TimeCache.stdout (fst (run_log 10 fed_cache))
     = [line "801000000,0.15000000"; line "802000000,0.15000000";
        line "803000000,0.15000000"; line "804000000,0.13500000"]
  /\ TimeCache.archive (TimeCache.self_ (fst (run_log 10 fed_cache)))
     = [(804, Some 0.135)].
Proof.
  apply scenario_add_and_log. lia.
Defined.

(** [add(800.2, 0.10)], [add(801.5, 0.10)], [log()] from a new cache. *)
Lemma logged_reachable : reachable true logged.
Proof.
  unfold logged. apply reach_log; [reflexivity| |vm_compute; discriminate].
  unfold promoted. apply reach_add. apply reach_add. apply reach_init.
Qed.

(** C3 fails once [log] has run after a promotion: the entry it keeps
    is the last one, with its computed average. *)
Lemma first_average_after_log :
  ~ (forall tc : TimeCache.t float, reachable true tc -> first_average_none tc).
Proof.
  intros Hall.
  assert (Harch : TimeCache.archive logged = [(801, Some 0.1)])
    by (vm_compute; reflexivity).
  specialize (Hall logged logged_reachable _ _ Harch). discriminate Hall.
Qed.

(** The invariant on the cache two calls of [add] build. *)
Lemma first_average_none_cold_window :
  TimeCache.archive cold_window <> [] /\ first_average_none cold_window.
Proof.
  split; [vm_compute; discriminate|].
  apply first_average_none_before_log.
  unfold cold_window. apply reach_add. apply reach_add. apply reach_init.
Defined.

(** C4 fails on a price of [0.0]: the pair (bid 0.0, ask 1.60) at one
    timestamp is complete after the second record, yet [add] returns
    [None] instead of the spread, because it tests the truth value of
    the prices. *)
Theorem zero_bid_returns_no_spread :
  let q1 := QuotePair.mk (Some 800.2) None (Some 0) in
  let q2 := QuotePair.mk (Some 800.2) (Some 1.60) (Some 0) in
  QuotePair.add (PyFloat 800.2) (PyStr ":b") (PyFloat 0) QuotePair.__init__
  = (q1, Ok None)
  /\ QuotePair.add (PyFloat 800.2) (PyStr ":a") (PyFloat 1.60) q1
     = (q2, Ok None)
  /\ QuotePair.add (PyFloat 800.2) (PyStr ":b") (PyFloat 1.50) q2
     = (q2, Raise QuoteError).
Proof. repeat split; vm_compute; reflexivity. Qed.

(** The cold-start window is built by two calls of [add]. *)
Lemma cold_window_reachable : reachable true cold_window.
Proof.
  unfold cold_window. apply reach_add. apply reach_add. apply reach_init.
Qed.

(** C6 fails on the cold-start window: the leading interval is left
    out, and the durations of the window of [test_weight_time] sum to
    0.8 second. *)
Lemma cold_window_is_short :
  ~ (forall (tc tc' : TimeCache.t float) (ts spread : float),
        reachable true tc ->
        TimeCache.add (PyFloat ts) (PyFloat spread) tc = (tc', Ok (PyInt 1)) ->
        closes_one_second tc).
Proof.
  intros Hall.
  assert (Hadd : TimeCache.add (PyFloat 1469404801.5) (PyFloat 0.000010) cold_window
                 = (fst (TimeCache.add (PyFloat 1469404801.5) (PyFloat 0.000010)
                           cold_window), Ok (PyInt 1)))
    by (vm_compute; reflexivity).
  destruct (Hall _ _ _ _ cold_window_reachable Hadd) as [sp [tw [Hget Htol]]].
  vm_compute in Hget. inversion Hget; subst sp tw.
  vm_compute in Htol. discriminate Htol.
Qed.

(** C9: a record exactly one second after the last archived second
    ([ts - last_archived_second == 1.0]) does not promote: it joins
    [tmp_cache], the archive is untouched and [add] returns 0; a call
    that promotes has [ts - last_archived_second > 1.0]. *)
Theorem add_at_whole_second_boundary
    (tc : TimeCache.t float) (ts spread last : float) (avg : option float)
    (arch : list (float * option float)) :
  TimeCache.tmp_cache tc <> [] ->
  TimeCache.archive tc = arch ++ [(last, avg)] ->
  ((ts - last =? 1) = true ->
   TimeCache.add (PyFloat ts) (PyFloat spread) tc
   = (TimeCache.mk (TimeCache.archive tc) (TimeCache.last_spread tc)
        (TimeCache.tmp_cache tc ++ [(ts, spread)]),
      Ok (PyInt 0)))
  /\ (forall tc', TimeCache.add (PyFloat ts) (PyFloat spread) tc = (tc', Ok (PyInt 1)) ->
                  (1 <? ts - last) = true).
Proof.
  intros Htmp Harch.
  assert (Hone : Binary64.b64_of_int 1 = 1) by (vm_compute; reflexivity).
  split.
  - intros Hd. apply Ieee.eqb_one in Hd.
    apply (@add_no_promotion float Binary64.b64_ops tc ts spread last avg arch Htmp Harch).
    change (PrimFloat.ltb (Binary64.b64_of_int 1) (ts - last) = false).
    rewrite Hd, Hone. reflexivity.
  - intros tc' Hadd. rewrite <- Hone.
    destruct (Binary64.b64_of_int 1 <? ts - last) eqn:Hlt; [reflexivity|].
    rewrite (@add_no_promotion float Binary64.b64_ops tc ts spread last avg arch Htmp Harch Hlt)
      in Hadd.
    discriminate Hadd.
Qed.


(** Run as a stream through [compute_twa], which logs at each promotion,
    the scenario writes the same four records and ends without an
    exception. *)
Lemma scenario_streamed :
  snd (Scenario.streamed 1) = Ok tt
  /\ TimeCache.stdout (snd (fst (Scenario.streamed 1)))
     = [line "801000000,0.15000000"; line "802000000,0.15000000";
        line "803000000,0.15000000"; line "804000000,0.13500000"].
Proof. split; vm_compute; reflexivity. Qed.

(** The two windows of [test_add_and_log] that are not the cold-start
    one close one second, up to the tolerance, in binary64. *)
Lemma scenario_windows_close_one_second :
  closes_one_second (snd (fst (feed (firstn 6 Scenario.data)
                                 (QuotePair.__init__, TimeCache.__init__))))
  /\ closes_one_second (snd (fst (feed (firstn 8 Scenario.data)
                                    (QuotePair.__init__, TimeCache.__init__)))).
Proof.
  split; eexists _, _; (split; [vm_compute; reflexivity|]); vm_compute; reflexivity.
Qed.

(** On binary64 the test [if new_time] is [ts != current_ts]. *)
Lemma different_timestamp_is_new_time (ts cur : float) :
  (ts =? cur) = false -> nonzero (fsub ts cur) = true.
Proof.
  intros Hne. cbn [nonzero fsub b64_ops].
  destruct (ts - cur =? 0) eqn:E; [|reflexivity].
  apply Ieee.sub_eqb_zero in E. congruence.
Qed.

(** C7: with exactly one of bid and ask set, a record whose timestamp
    differs from [current_ts] ([ts != current_ts]) is refused with
    [QuoteError], and the object, its bid and ask included, is left as
    it was. *)
Theorem add_new_timestamp_unpaired
    (q : QuotePair.t float) (cur ts price : float) (side : string) :
  QuotePair.current_ts q = Some cur ->
  is_not_none (QuotePair.ask q) <> is_not_none (QuotePair.bid q) ->
  side = ":a"%string \/ side = ":b"%string ->
  (ts =? cur) = false ->
  QuotePair.add (PyFloat ts) (PyStr side) (PyFloat price) q = (q, Raise QuoteError).
Proof.
  intros Hts Hone Hside Hne.
  apply (@add_refuses_new_time float Binary64.b64_ops q cur ts price side
           Hts Hone Hside).
  apply different_timestamp_is_new_time. exact Hne.
Qed.

(** C10: on a complete pair, a record whose timestamp differs from
    [current_ts], earlier ones included, is accepted as a new instant:
    both prices are cleared, the price of the record is stored on its
    side, [current_ts] becomes [ts] and no spread is returned. *)
Theorem add_new_timestamp_complete
    (cur a b ts price : float) (side : string) :
  side = ":a"%string \/ side = ":b"%string ->
  (ts =? cur) = false \/ (ts <? cur) = true ->
  QuotePair.add (PyFloat ts) (PyStr side) (PyFloat price)
    (QuotePair.mk (Some cur) (Some a) (Some b))
  = (QuotePair.mk (Some ts)
       (if String.eqb side ":a" then Some price else None)
       (if String.eqb side ":b" then Some price else None),
     Ok None).
Proof.
  intros Hside Hne.
  apply (@add_starts_new_time float Binary64.b64_ops cur a b ts price side Hside).
  apply different_timestamp_is_new_time.
  destruct Hne as [Hne | Hlt]; [exact Hne | apply Ieee.ltb_not_eqb; exact Hlt].
Qed.

(** The case of [test_add]: a bid at one timestamp, then an ask one
    millisecond later. *)
Lemma add_new_timestamp_unpaired_test_add :
  let q1 := QuotePair.mk (Some 1469404799.897461) None (Some 42) in
  QuotePair.add (PyFloat 1469404799.898461) (PyStr ":a") (PyFloat 43) q1
  = (q1, Raise QuoteError).
Proof.
  apply (@add_new_timestamp_unpaired
           (QuotePair.mk (Some 1469404799.897461) None (Some 42))
           1469404799.897461 1469404799.898461 43 ":a").
  - reflexivity.
  - cbn. discriminate.
  - left. reflexivity.
  - reflexivity.
Defined.

(** A complete pair at 801.5, then a bid with the earlier timestamp 800.2. *)
Lemma add_new_timestamp_complete_earlier :
  QuotePair.add (PyFloat 800.2) (PyStr ":b") (PyFloat 1.50)
    (QuotePair.mk (Some 801.5) (Some 1.90) (Some 1.80))
  = (QuotePair.mk (Some 800.2) None (Some 1.50), Ok None).
Proof.
  apply (@add_new_timestamp_complete 801.5 1.90 1.80 800.2 1.50 ":b").
  - right. reflexivity.
  - right. reflexivity.
Defined.

(** A timestamp given as a string ([test_add]) and a spread given as an
    [int]. *)
Lemma add_invalid_input_test_add :
  QuotePair.add (PyStr "1469404799897461") (PyStr ":b") (PyFloat 42)
    QuotePair.__init__
  = (QuotePair.__init__, Raise InputError)
  /\ TimeCache.add (PyFloat 800.2) (PyInt 10) TimeCache.__init__
     = (TimeCache.__init__, Raise InputError).
Proof.
  split.
  - apply (proj1 add_invalid_input). left. reflexivity.
  - apply (proj2 add_invalid_input). right. reflexivity.
Defined.

(** Archive at 800, a record at exactly 801. *)
Lemma add_at_whole_second_boundary_801 :
  TimeCache.add (PyFloat 801) (PyFloat 0.2)
    (TimeCache.mk [(800, None)] None [(800.2, 0.1)])
  = (TimeCache.mk [(800, None)] None [(800.2, 0.1); (801, 0.2)], Ok (PyInt 0)).
Proof.
  apply (proj1 (@add_at_whole_second_boundary
                  (TimeCache.mk [(800, None)] None [(800.2, 0.1)])
                  801 0.2 800 None [] ltac:(discriminate) eq_refl)).
  vm_compute. reflexivity.
Defined.

(** [log] twice on the cache of [test_add_and_log]. *)
Lemma log_twice_emits_nothing_scenario :
  TimeCache.log 2 (fst (run_log 2 fed_cache))
  = (fst (run_log 2 fed_cache), Raise UnboundLocalError).
Proof.
  apply (@log_twice_emits_nothing float _ 2 2 (TimeCache.mkw fed_cache [])).
  vm_compute. reflexivity.
Defined.

End Binary64Facts.

(** ** The windows on binary64 *)

Module Binary64Windows.
#[local] Unset Implicit Arguments.
Import Cases.
Import Ieee Rounding Whole WindowSums.
Open Scope float_scope.

(** C1 fails in the arithmetic of the program: at the second of
    [test_weight_time], with the spreads 1.0 and 2.0, the durations are
    0.39999985694885254 and 0.40000009536743164 and the average is
    1.50000015, not 1.5, which is off by more than the tolerance of the
    eight decimals. *)
Lemma weighting_example_inexact :
  ~ (forall T s1 s2 twa : float,
        window_average (example_cache T s1 s2) = Ok twa ->
        within_tolerance twa ((s1 * 0.4 + s2 * 0.4) / 0.8) = true).
Proof.
  intros Hall.
  assert (Havg : window_average (example_cache 1469404800 1 2) = Ok 1.50000015)
    by (vm_compute; reflexivity).
  specialize (Hall _ _ _ _ Havg). vm_compute in Hall. discriminate Hall.
Qed.

(** The durations of the window above. *)
Lemma weighting_example_durations :
  TimeCache._get_spreads_and_time_weights (example_cache 1469404800 1 2)
  = Ok ([1; 2], [0.39999985694885254; 0.40000009536743164])
  /\ round8 ((1 * 0.4 + 2 * 0.4) / 0.8) = 1.5.
Proof. split; vm_compute; reflexivity. Qed.

(** C1, amended: on a cold-start window of two records the leading
    interval is left out; the durations are the measured ones,
    [t2 - t1] and [(T + 1.0) - t2], and the average is the weighted sum
    over their sum, rounded to eight decimals (and
    [ZeroDivisionError] when the durations sum to zero).  On the data
    of [test_weight_time] it is 0.000015. *)
Theorem cold_window_average (T t1 t2 s1 s2 : float) :
  let tc := TimeCache.mk [(T, None)] None [(t1, s1); (t2, s2)] in
  TimeCache._get_spreads_and_time_weights tc
  = Ok ([s1; s2], [t2 - t1; T + 1 - t2])
  /\ window_average tc
     = (q <~ truediv (0 + s1 * (t2 - t1) + s2 * (T + 1 - t2))
                     (0 + (t2 - t1) + (T + 1 - t2)) ;;
        Ok (round8 q))%py
  /\ window_average weighting_cache = Ok 0.000015.
Proof.
  assert (H1 : @of_int float b64_ops 1 = 1) by (vm_compute; reflexivity).
  assert (H0 : @of_int float b64_ops 0 = 0) by (vm_compute; reflexivity).
  cbn zeta. split; [|split].
  - unfold TimeCache._get_spreads_and_time_weights, for_pure, float_multiplier.
    cbn [TimeCache.last_spread TimeCache.tmp_cache TimeCache.archive].
    change (len [(t1, s1); (t2, s2)]) with 2%Z.
    change (range 1 2) with [1%Z].
    cbn [fold_left rbind getitem fst snd app Z.sub Z.max].
    rewrite H1. reflexivity.
  - unfold window_average, TimeCache._get_spreads_and_time_weights,
      TimeCache._weight_time, for_pure, float_multiplier.
    cbn [TimeCache.last_spread TimeCache.tmp_cache TimeCache.archive].
    change (len [(t1, s1); (t2, s2)]) with 2%Z.
    change (range 1 2) with [1%Z].
    cbn [fold_left rbind getitem fst snd app Z.sub Z.max].
    change (len [s1; s2]) with 2%Z.
    change (range 0 2) with [0%Z; 1%Z].
    cbn [fold_left rbind getitem fst snd app Z.sub Z.max].
    rewrite H1, H0. reflexivity.
  - vm_compute. reflexivity.
Qed.

Lemma pow2_1074 : (2 ^ 1074 = 2 ^ 52 * 2 ^ 1022)%Z.
Proof. rewrite <- Z.pow_add_r by lia. reflexivity. Qed.

(** The timestamps of a window within the second [k], in units. *)
Lemma window_in_second_units (k : Z) (t : float) :
  (1 <= k < 2 ^ 53 - 1)%Z ->
  (of_int k <=? t) = true -> (t <=? of_int k + 1) = true ->
  exists T, in_second (k * 2 ^ 1074) (2 ^ 1074) (2 ^ 1022) t T.
Proof.
  intros Hk Hlo Hhi.
  pose proof (pow2_pos 1074 ltac:(lia)) as HU.
  assert (Ha : units (of_int k) = Some (k * 2 ^ 1074)%Z)
    by (apply of_int_units; lia).
  assert (H1 : units 1 = Some (2 ^ 1074)%Z).
  { change 1 with (b64_of_int 1). rewrite of_int_units by (cbn; lia).
    f_equal; lia. }
  assert (Ha1 : units (of_int k + 1) = Some (k * 2 ^ 1074 + 2 ^ 1074)%Z).
  { apply add_exact; [exact Ha|exact H1|].
    exists (k + 1)%Z, 1074%Z. split; [ring|lia]. }
  destruct (finite_between _ t _ _ _ Ha Ha1 Hlo Hhi) as [T [HT HB]].
  exists T. split; [exact HT|]. split; [exact HB|].
  change 1022%Z with (1074 - 52)%Z.
  apply (units_quantum t T 1074 HT); [lia|]. nia.
Qed.

(** The end of the second [k], in units. *)
Lemma window_end_units (k : Z) :
  (1 <= k < 2 ^ 53 - 1)%Z ->
  units (of_int k + 1) = Some (k * 2 ^ 1074 + 2 ^ 1074)%Z.
Proof.
  intros Hk. apply add_exact.
  - apply of_int_units; lia.
  - change 1 with (b64_of_int 1). rewrite of_int_units by (cbn; lia).
    f_equal; lia.
  - exists (k + 1)%Z, 1074%Z. split; [ring|lia].
Qed.

(** The sum of the durations of a window within the second [k], in
    units: one second when [last_spread] is known, else the time from
    the first record to the end of the second.  No rounding occurs. *)
Lemma window_sum_units
    (k : Z) (arch : list (float * option float)) (avg ls : option float)
    (r0 : float * float) (rest : list (float * float)) :
  (1 <= k < 2 ^ 53 - 1)%Z ->
  Forall (fun r : float * float =>
            (of_int k <=? fst r) = true /\ (fst r <=? of_int k + 1) = true)
         (r0 :: rest) ->
  exists T0,
    units (fst r0) = Some T0
    /\ units (of_int k + 1 - fst r0) = Some (k * 2 ^ 1074 + 2 ^ 1074 - T0)%Z
    /\ (k * 2 ^ 1074 <= T0 <= k * 2 ^ 1074 + 2 ^ 1074)%Z
    /\ units
         (sum_weights
            ((match ls with Some _ => [fsub (fst r0) (of_int k)] | None => [] end)
             ++ snd (consecutive r0 rest)
             ++ [fsub (fadd (of_int k) (of_int float_multiplier))
                   (fst (last rest r0))]))
       = Some (match ls with
               | Some _ => 2 ^ 1074
               | None => k * 2 ^ 1074 + 2 ^ 1074 - T0
               end)%Z.
Proof.
  intros Hk Hall.
  set (A := (k * 2 ^ 1074)%Z). set (U := (2 ^ 1074)%Z). set (q := (2 ^ 1022)%Z).
  pose proof (pow2_pos 1022 ltac:(lia)) as Hq. fold q in Hq.
  pose proof pow2_1074 as HU. fold U q in HU.
  assert (HAU : (U <= A)%Z) by (unfold A; fold U; nia).
  assert (HAq : (q | A)%Z) by (exists (k * 2 ^ 52)%Z; unfold A; fold U; lia).
  assert (Hin : Forall (fun r : float * float =>
                          exists T, in_second A U q (fst r) T) (r0 :: rest)).
  { eapply Forall_impl; [|exact Hall]. intros r [Hlo Hhi].
    exact (window_in_second_units k (fst r) Hk Hlo Hhi). }
  inversion Hin as [|c l [T0 H0] Hrest]; subst c l.
  assert (Ha : units (of_int k) = Some A) by (apply of_int_units; lia).
  assert (H1 : units (of_int float_multiplier) = Some U).
  { unfold float_multiplier. change (@of_int float b64_ops 1) with (b64_of_int 1).
    rewrite of_int_units by (cbn; lia). f_equal; unfold U; lia. }
  assert (Ha1 : units (of_int k + of_int float_multiplier) = Some (A + U)%Z).
  { apply add_exact; [exact Ha|exact H1|].
    exists (k + 1)%Z, 1074%Z. unfold A, U. split; [ring|lia]. }
  assert (Hz : units (of_int 0) = Some 0%Z).
  { change (@of_int float b64_ops 0) with (b64_of_int 0).
    rewrite of_int_units by (cbn; lia). reflexivity. }
  assert (Hsmall : forall V, (q | V)%Z -> (Z.abs V <= U)%Z -> representable V)
    by (intros V; apply (small_multiple_representable A U q HU eq_refl HAU)).
  assert (HUq : (q | U)%Z) by (exists (2 ^ 52)%Z; exact HU).
  assert (Htrail : forall Tl, in_second A U q (fst (last rest r0)) Tl ->
            units (of_int k + of_int float_multiplier - fst (last rest r0))
            = Some (A + U - Tl)%Z).
  { intros Tl [HTl [BTl DTl]]. apply sub_exact; [exact Ha1|exact HTl|].
    apply Hsmall; [|lia].
    apply Z.divide_sub_r; [apply Z.divide_add_r; assumption|exact DTl]. }
  pose proof H0 as [HT0 [B0 D0]].
  assert (Hr0 : representable (A + U - T0)).
  { apply Hsmall; [|lia].
    apply Z.divide_sub_r; [apply Z.divide_add_r; assumption|exact D0]. }
  exists T0. split; [exact HT0|]. split.
  { apply sub_exact; [|exact HT0|exact Hr0].
    change 1 with (b64_of_int 1). exact Ha1. }
  split; [exact B0|].
  unfold sum_weights.
  change (@fadd float b64_ops) with PrimFloat.add.
  change (@fsub float b64_ops) with PrimFloat.sub.
  destruct ls as [s|].
  - cbn [app fold_left]. rewrite fold_left_app. cbn [fold_left].
    assert (Hlead : units (of_int 0 + (fst r0 - of_int k)) = Some (T0 - A)%Z).
    { replace (T0 - A)%Z with (0 + (T0 - A))%Z by ring.
      assert (Hr : representable (T0 - A))
        by (apply Hsmall; [apply Z.divide_sub_r; assumption|lia]).
      apply add_exact; [exact Hz| |exact Hr].
      apply sub_exact; [exact HT0|exact Ha|exact Hr]. }
    destruct (fold_consecutive A U q HU eq_refl HAU rest r0 _ T0 A H0 Hrest
                ltac:(lia) HAq Hlead)
      as [Tl [Hl Hsum]].
    pose proof (Htrail Tl Hl) as Ht.
    replace U with ((Tl - A) + (A + U - Tl))%Z by ring.
    apply add_exact; [exact Hsum|exact Ht|].
    replace ((Tl - A) + (A + U - Tl))%Z with U by ring.
    apply Hsmall; [exact HUq|lia].
  - cbn [app]. rewrite fold_left_app. cbn [fold_left].
    assert (Hacc : units (of_int 0) = Some (T0 - T0)%Z)
      by (rewrite Z.sub_diag; exact Hz).
    destruct (fold_consecutive A U q HU eq_refl HAU rest r0 _ T0 T0
                H0 Hrest B0 D0 Hacc)
      as [Tl [Hl Hsum]].
    pose proof (Htrail Tl Hl) as Ht.
    replace (A + U - T0)%Z with ((Tl - T0) + (A + U - Tl))%Z by ring.
    apply add_exact; [exact Hsum|exact Ht|].
    replace ((Tl - T0) + (A + U - Tl))%Z with (A + U - T0)%Z by ring.
    exact Hr0.
Qed.

Lemma units_one : units 1 = Some (2 ^ 1074)%Z.
Proof.
  change 1 with (b64_of_int 1). rewrite of_int_units by (cbn; lia).
  f_equal; lia.
Qed.

(** C6, in binary64 and within bounds: when the last archived second is
    a whole number [k] of seconds, [1 <= k < 2^53 - 1], and the
    buffered timestamps lie between [k] and [k + 1], the durations of
    the window that [add] promotes sum to exactly [1.0] when
    [last_spread] is known; on the cold-start window the leading
    interval is left out and they sum to the time from the first record
    to the end of the second.  No rounding occurs in these sums. *)
Theorem bounded_window_durations_sum
    (tc tc' : TimeCache.t float) (ts spread : float) (k : Z) :
  (1 <= k < 2 ^ 53 - 1)%Z ->
  window_in_second k tc ->
  TimeCache.tmp_cache tc <> [] ->
  TimeCache.add (PyFloat ts) (PyFloat spread) tc = (tc', Ok (PyInt 1)) ->
  exists spreads time_weights,
    TimeCache._get_spreads_and_time_weights tc = Ok (spreads, time_weights)
    /\ (TimeCache.last_spread tc <> None -> sum_weights time_weights = 1)
    /\ (TimeCache.last_spread tc = None ->
        forall r0 rest,
          TimeCache.tmp_cache tc = r0 :: rest ->
          (sum_weights time_weights =? of_int k + 1 - fst r0) = true).
Proof.
  intros Hk [[arch [avg Harch]] Hall] Htmp _.
  destruct tc as [arch0 ls tmp];
    cbn [TimeCache.archive TimeCache.tmp_cache TimeCache.last_spread] in *.
  subst arch0. destruct tmp as [|r0 rest]; [congruence|]. clear Htmp.
  pose proof (spreads_and_time_weights_spec arch (of_int k, avg) ls r0 rest)
    as Hspec.
  cbn zeta in Hspec. rewrite Hspec. clear Hspec.
  eexists _, _. split; [reflexivity|].
  destruct (window_sum_units k arch avg ls r0 rest Hk Hall)
    as [T0 [HT0 [Hend [B0 Hsum]]]].
  cbn [fst snd] in Hsum |- *.
  pose proof (pow2_pos 1074 ltac:(lia)) as HU.
  split.
  - intros Hls. destruct ls as [s|]; [|congruence].
    apply (units_inj _ _ (2 ^ 1074)); [exact Hsum|exact units_one|lia].
  - intros -> r0' rest' Etmp. inversion Etmp; subst r0' rest'.
    rewrite (eqb_units _ _ _ _ Hsum Hend). apply Z.eqb_refl.
Qed.

(** The second window of [test_add_and_log], closed by the record at 803.3. *)
Lemma bounded_window_durations_sum_second_window :
  exists spreads time_weights,
    TimeCache._get_spreads_and_time_weights second_window
    = Ok (spreads, time_weights)
    /\ sum_weights time_weights = 1.
Proof.
  destruct (@bounded_window_durations_sum
              second_window
              (fst (TimeCache.add (PyFloat 803.3) (PyFloat 0.15) second_window))
              803.3 0.15 801)
    as [sp [tw [Hget [Hsum _]]]].
  - lia.
  - split.
    + exists [(800, None)], (Some 0.15). vm_compute. reflexivity.
    + repeat constructor; vm_compute; reflexivity.
  - discriminate.
  - vm_compute. reflexivity.
  - exists sp, tw. split; [exact Hget|]. apply Hsum. discriminate.
Defined.

(** Beyond [2^53] the bounds are needed: after records at
    9007199254740990 and 9007199254740994 the window of the second
    9007199254740994 has the durations 0.0 and 2.0, because
    [9007199254740994 + 1.0] is 9007199254740996 in binary64. *)
Lemma large_timestamps_window :
  let tc := fst (TimeCache.add (PyFloat 9007199254740994) (PyFloat 0.1)
                   (fst (TimeCache.add (PyFloat 9007199254740990) (PyFloat 0.1)
                           TimeCache.__init__))) in
  reachable true tc
  /\ snd (TimeCache.add (PyFloat 9007199254740998) (PyFloat 0.1) tc)
     = Ok (PyInt 1)
  /\ TimeCache._get_spreads_and_time_weights tc = Ok ([0.1; 0.1], [0; 2]).
Proof.
  cbn zeta. split; [|split].
  - apply reach_add. apply reach_add. apply reach_init.
  - vm_compute. reflexivity.
  - vm_compute. reflexivity.
Qed.

End Binary64Windows.

(** * Further properties of the code *)

(** ** QuotePair *)

Section QuotePairMore.
Context {F : Type} `{FloatOps F}.

Lemma side_not_both (side : pyval F) :
  py_eq_str side ":a" = true -> py_eq_str side ":b" = false.
Proof.
  destruct side as [ | | |s]; cbn; try discriminate.
  intros Ha. apply String.eqb_eq in Ha. subst s. reflexivity.
Qed.

(** X1: a call of [QuotePair.add] that raises, raises [InputError] or
    [QuoteError] and leaves the bid and the ask as they were; the whole
    object is unchanged when [current_ts] was set. *)
Theorem add_raise_keeps_prices
    (q q' : QuotePair.t F) (ts side price : pyval F) (e : exn) :
  QuotePair.add ts side price q = (q', Raise e) ->
  (e = InputError \/ e = QuoteError)
  /\ QuotePair.ask q' = QuotePair.ask q
  /\ QuotePair.bid q' = QuotePair.bid q
  /\ (QuotePair.current_ts q <> None -> q' = q).
Proof.
  assert (Hsame : forall q0 e0,
             (q0, Raise e0) = (q', @Raise (option F) e) ->
             e0 = InputError \/ e0 = QuoteError ->
             QuotePair.ask q0 = QuotePair.ask q ->
             QuotePair.bid q0 = QuotePair.bid q ->
             (QuotePair.current_ts q <> None -> q0 = q) ->
             (e = InputError \/ e = QuoteError)
             /\ QuotePair.ask q' = QuotePair.ask q
             /\ QuotePair.bid q' = QuotePair.bid q
             /\ (QuotePair.current_ts q <> None -> q' = q)).
  { intros q0 e0 E He Ha Hb Hc. inversion E; subst. auto. }
  destruct q as [c a b].
  unfold QuotePair.add.
  destruct ts as [ | |ts| ];
    try (intros E; apply (Hsame _ _ E); cbn; auto; fail).
  destruct (negb (py_eq_str side ":a") && negb (py_eq_str side ":b")) eqn:Hside.
  { intros E; apply (Hsame _ _ E); cbn; auto. }
  destruct price as [ | |price| ];
    try (intros E; apply (Hsame _ _ E); cbn; auto; fail).
  run_qp.
  pose proof (side_not_both side) as Hboth.
  destruct c as [cur|], a as [x|], b as [y|];
    destruct (py_eq_str side ":a"), (py_eq_str side ":b");
    try discriminate Hside; try (specialize (Hboth eq_refl); discriminate Hboth);
    cbn;
    repeat match goal with
           | |- context [nonzero ?v] => destruct (nonzero v); cbn
           end;
    intros E; try discriminate E;
    apply (Hsame _ _ E); cbn; auto; intros Hc; congruence.
Qed.

(** X2: a call of [QuotePair.add] that returns was given a float
    timestamp, a float price and one of the two side tokens; after it
    [current_ts] is the timestamp and the side of the record holds its
    price; a spread that is returned is [ask - bid] of the prices the
    object then holds. *)
Theorem add_return_effect
    (q q' : QuotePair.t F) (ts side price : pyval F) (r : option F) :
  QuotePair.add ts side price q = (q', Ok r) ->
  exists t p,
    ts = PyFloat t /\ price = PyFloat p
    /\ QuotePair.current_ts q' = Some t
    /\ ((py_eq_str side ":a" = true /\ QuotePair.ask q' = Some p)
        \/ (py_eq_str side ":b" = true /\ QuotePair.bid q' = Some p))
    /\ (forall s, r = Some s ->
                  exists a b, QuotePair.ask q' = Some a /\ QuotePair.bid q' = Some b
                              /\ s = fsub a b).
Proof.
  destruct q as [c a b].
  unfold QuotePair.add.
  destruct ts as [ | |ts| ]; try discriminate.
  destruct (negb (py_eq_str side ":a") && negb (py_eq_str side ":b")) eqn:Hside;
    [discriminate|].
  destruct price as [ | |price| ]; try discriminate.
  intros E. exists ts, price. split; [reflexivity|]. split; [reflexivity|].
  revert E. run_qp.
  pose proof (side_not_both side) as Hboth.
  destruct c as [cur|], a as [x|], b as [y|];
    destruct (py_eq_str side ":a"), (py_eq_str side ":b");
    try discriminate Hside; try (specialize (Hboth eq_refl); discriminate Hboth);
    cbn;
    repeat match goal with
           | |- context [nonzero ?v] => destruct (nonzero v); cbn
           end;
    intros E; try discriminate E; inversion E; subst; cbn;
    (split; [reflexivity|]); (split; [auto|]);
    intros s Hs; try discriminate Hs; inversion Hs; subst;
    eexists _, _; repeat split.
Qed.

(** X3: at the timestamp the object holds ([ts - current_ts] is false),
    a record for a side that is already set is refused with [QuoteError]
    and the object is left as it was. *)
Theorem add_duplicate_side
    (q : QuotePair.t F) (cur ts price : F) (side : string) :
  QuotePair.current_ts q = Some cur ->
  nonzero (fsub ts cur) = false ->
  (side = ":a"%string /\ QuotePair.ask q <> None)
  \/ (side = ":b"%string /\ QuotePair.bid q <> None) ->
  QuotePair.add (PyFloat ts) (PyStr side) (PyFloat price) q = (q, Raise QuoteError).
Proof.
  intros Hts Hsame Hset.
  destruct q as [c a b]; cbn in *; subst c.
  destruct Hset as [[-> Ha] | [-> Hb]]; run_qp; rewrite Hsame; cbn.
  - destruct a as [x|]; [|congruence]. destruct b as [y|]; cbn;
      repeat match goal with
             | |- context [nonzero ?v] => destruct (nonzero v); cbn
             end; reflexivity.
  - destruct b as [y|]; [|congruence]. destruct a as [x|]; cbn;
      repeat match goal with
             | |- context [nonzero ?v] => destruct (nonzero v); cbn
             end; reflexivity.
Qed.

(** The state of a [QuotePair]: new, or holding a timestamp and at least
    one price. *)
Lemma add_keeps_shape (q : QuotePair.t F) (ts side price : pyval F) :
  (q = QuotePair.__init__
   \/ (QuotePair.current_ts q <> None
       /\ (QuotePair.ask q <> None \/ QuotePair.bid q <> None))) ->
  let q' := fst (QuotePair.add ts side price q) in
  q' = QuotePair.__init__
  \/ (QuotePair.current_ts q' <> None
      /\ (QuotePair.ask q' <> None \/ QuotePair.bid q' <> None)).
Proof.
  intros Hq. destruct q as [c a b]. unfold QuotePair.add.
  destruct ts as [ | |ts| ]; try exact Hq.
  destruct (negb (py_eq_str side ":a") && negb (py_eq_str side ":b")) eqn:Hside;
    [exact Hq|].
  destruct price as [ | |price| ]; try exact Hq.
  run_qp.
  destruct c as [cur|], a as [x|], b as [y|];
    destruct (py_eq_str side ":a"), (py_eq_str side ":b");
    try discriminate Hside;
    cbn;
    repeat match goal with
           | |- context [nonzero ?v] => destruct (nonzero v); cbn
           end;
    first [ right; split; [discriminate|];
            first [left; discriminate | right; discriminate]
          | exact Hq ].
Qed.

(** A call of [add] that raises on an object that holds a timestamp
    leaves the object as it was. *)
Lemma add_raise_unchanged
    (q q' : QuotePair.t F) (ts side price : pyval F) (e : exn) :
  QuotePair.current_ts q <> None ->
  QuotePair.add ts side price q = (q', Raise e) ->
  q' = q.
Proof.
  intros Hc. destruct q as [c a b]. cbn in Hc.
  destruct c as [cur|]; [clear Hc | congruence].
  unfold QuotePair.add.
  destruct ts as [ | |ts| ]; try (intros E; inversion E; reflexivity).
  destruct (negb (py_eq_str side ":a") && negb (py_eq_str side ":b")) eqn:Hside;
    [intros E; inversion E; reflexivity|].
  destruct price as [ | |price| ]; try (intros E; inversion E; reflexivity).
  run_qp.
  pose proof (side_not_both side) as Hboth.
  destruct a as [x|], b as [y|];
    destruct (py_eq_str side ":a"), (py_eq_str side ":b");
    try discriminate Hside; try (specialize (Hboth eq_refl); discriminate Hboth);
    cbn;
    repeat match goal with
           | |- context [nonzero ?v] => destruct (nonzero v); cbn
           end;
    intros E; try discriminate E; inversion E; reflexivity.
Qed.

(** With floats and a side token, [add] returns or raises [QuoteError]. *)
Lemma add_valid_side (q : QuotePair.t F) (ts price : F) (side : string) :
  side = ":a"%string \/ side = ":b"%string ->
  exists q',
    QuotePair.add (PyFloat ts) (PyStr side) (PyFloat price) q
    = (q', Raise QuoteError)
    \/ exists r,
         QuotePair.add (PyFloat ts) (PyStr side) (PyFloat price) q = (q', Ok r).
Proof.
  intros Hside. destruct q as [c a b].
  destruct Hside; subst side; run_qp;
    destruct c as [cur|], a as [x|], b as [y|]; cbn;
    repeat match goal with
           | |- context [nonzero ?v] => destruct (nonzero v); cbn
           end;
    eexists; first [left; reflexivity | right; eexists; reflexivity].
Qed.

(** X4: a [QuotePair] that calls of [add] produced from a new one is
    either still new (nothing set) or holds a timestamp and at least one
    price: the case "timestamp set, no price" that [add] tests with
    [is None] never arises. *)
Theorem pair_reachable_shape (q : QuotePair.t F) :
  pair_reachable q ->
  q = QuotePair.__init__
  \/ (QuotePair.current_ts q <> None
      /\ (QuotePair.ask q <> None \/ QuotePair.bid q <> None)).
Proof.
  induction 1 as [|q ts side price _ IH].
  - left. reflexivity.
  - apply add_keeps_shape. exact IH.
Qed.

End QuotePairMore.

(** ** TimeCache: what [add] and [log] do to the cache *)

Section TimeCacheMore.
Context {F : Type} `{FloatOps F}.

Lemma getitem_last_nonempty {A} (l : list A) (d : A) :
  l <> [] -> getitem l (-1) = Ok (last l d).
Proof.
  intros Hne. destruct (exists_last Hne) as [l1 [x E]]; subst l.
  rewrite getitem_last, last_last. reflexivity.
Qed.

(** [add] on a new cache. *)
Lemma add_cold (ls : option F) (ts spread : F) :
  TimeCache.add (PyFloat ts) (PyFloat spread) (TimeCache.mk [] ls [])
  = (TimeCache.mk [(floor ts, None)] ls [(ts, spread)], Ok PyNone).
Proof. reflexivity. Qed.

(** [add] on a cache whose buffer is not empty: the test
    [ts - last_archived_second > 1.0] decides between closing the window
    and buffering the record. *)
Lemma add_warm
    (tc : TimeCache.t F) (ts spread sec : F) (avg : option F)
    (arch : list (F * option F)) :
  TimeCache.tmp_cache tc <> [] ->
  TimeCache.archive tc = arch ++ [(sec, avg)] ->
  TimeCache.add (PyFloat ts) (PyFloat spread) tc
  = if flt (of_int 1) (fsub ts sec) then
      match window_average tc with
      | Ok twa =>
          (TimeCache.mk (TimeCache.archive tc ++ [(floor ts, Some twa)])
             (Some (snd (List.last (TimeCache.tmp_cache tc) (ts, spread))))
             [(ts, spread)],
           Ok (PyInt 1))
      | Raise e => (tc, Raise e)
      | OutOfFuel => (tc, OutOfFuel)
      end
    else
      (TimeCache.mk (TimeCache.archive tc) (TimeCache.last_spread tc)
         (TimeCache.tmp_cache tc ++ [(ts, spread)]),
       Ok (PyInt 0)).
Proof.
  intros Htmp Harch.
  destruct tc as [arch0 ls tmp]; cbn in *; subst arch0.
  destruct tmp as [|r tmp]; [congruence|].
  unfold window_average.
  run_tc. rewrite getitem_last; cbn.
  destruct (flt (of_int 1) (fsub ts sec)); cbn; [|reflexivity].
  destruct (TimeCache._get_spreads_and_time_weights _) as [st|e|]; cbn;
    try reflexivity.
  destruct (TimeCache._weight_time _ _) as [twa|e|]; cbn; try reflexivity.
  rewrite (@getitem_last_nonempty _ (r :: tmp) (ts, spread)) by discriminate.
  reflexivity.
Qed.

(** X5: on a cache whose archive and buffer are empty together, the
    value [add] returns tells what it did.  [None]: the cache was new,
    the archive is seeded with the floor of the timestamp and the record
    is buffered.  [1]: the window was closed, its average archived under
    the floor of the timestamp, and the buffer restarted with the
    record.  [0]: the record was buffered and nothing else changed. *)
Theorem add_return_value
    (tc tc' : TimeCache.t F) (ts spread v : pyval F) :
  (TimeCache.archive tc = [] <-> TimeCache.tmp_cache tc = []) ->
  TimeCache.add ts spread tc = (tc', Ok v) ->
  exists t s,
    ts = PyFloat t /\ spread = PyFloat s
    /\ match v with
       | PyNone =>
           TimeCache.archive tc = [] /\ TimeCache.tmp_cache tc = []
           /\ tc' = TimeCache.mk [(floor t, None)] (TimeCache.last_spread tc)
                      [(t, s)]
       | PyInt z =>
           TimeCache.tmp_cache tc <> []
           /\ ((z = 1%Z
                /\ exists twa,
                     window_average tc = Ok twa
                     /\ tc' = TimeCache.mk
                                (TimeCache.archive tc ++ [(floor t, Some twa)])
                                (Some (snd (List.last (TimeCache.tmp_cache tc) (t, s))))
                                [(t, s)])
               \/ (z = 0%Z
                   /\ tc' = TimeCache.mk (TimeCache.archive tc)
                              (TimeCache.last_spread tc)
                              (TimeCache.tmp_cache tc ++ [(t, s)])))
       | _ => False
       end.
Proof.
  intros Hiff.
  destruct ts as [ | |t| ]; try discriminate.
  destruct spread as [ | |s| ]; try discriminate.
  intros Hadd. exists t, s. split; [reflexivity|]. split; [reflexivity|].
  destruct tc as [arch ls tmp]; cbn [TimeCache.archive TimeCache.tmp_cache
                                      TimeCache.last_spread] in *.
  destruct tmp as [|r tmp].
  - assert (arch = []) by (apply Hiff; reflexivity). subst arch.
    cbn in Hadd. inversion Hadd; subst. auto.
  - destruct arch as [|a0 arch].
    { destruct Hiff as [Hiff _]. specialize (Hiff eq_refl). discriminate Hiff. }
    assert (Hne : a0 :: arch <> []) by discriminate.
    destruct (exists_last Hne) as [arch1 [[sec avg] Earch]].
    rewrite (@add_warm (TimeCache.mk (a0 :: arch) ls (r :: tmp))
               t s sec avg arch1 ltac:(discriminate) Earch) in Hadd.
    cbn [TimeCache.archive TimeCache.tmp_cache TimeCache.last_spread] in Hadd.
    destruct (flt (of_int 1) (fsub t sec)).
    + destruct (window_average _) as [twa|e|] eqn:Ew; try discriminate Hadd.
      inversion Hadd; subst. split; [discriminate|]. left.
      split; [reflexivity|]. exists twa. split; reflexivity.
    + inversion Hadd; subst. split; [discriminate|]. right.
      split; reflexivity.
Qed.

(** X6: on a cache that is not cold, a record more than one second after
    the last archived second closes the window: the archive gains
    [(floor ts, average)], [last_spread] becomes the spread of the last
    buffered record, the buffer restarts with the new record and [add]
    returns 1.  When the average cannot be computed the exception leaves
    [add] and the cache is as it was. *)
Theorem add_promotes
    (tc : TimeCache.t F) (ts spread sec : F) (avg : option F)
    (arch : list (F * option F)) :
  TimeCache.tmp_cache tc <> [] ->
  TimeCache.archive tc = arch ++ [(sec, avg)] ->
  flt (of_int 1) (fsub ts sec) = true ->
  TimeCache.add (PyFloat ts) (PyFloat spread) tc
  = match window_average tc with
    | Ok twa =>
        (TimeCache.mk (TimeCache.archive tc ++ [(floor ts, Some twa)])
           (Some (snd (List.last (TimeCache.tmp_cache tc) (ts, spread))))
           [(ts, spread)],
         Ok (PyInt 1))
    | Raise e => (tc, Raise e)
    | OutOfFuel => (tc, OutOfFuel)
    end.
Proof.
  intros Htmp Harch Hd.
  rewrite (@add_warm tc ts spread sec avg arch Htmp Harch), Hd. reflexivity.
Qed.

(** X7: [log] needs two archive entries.  On an empty archive it raises
    [IndexError]; on an archive of one entry (a cache that has buffered
    records but closed no window) the loop binds nothing and the final
    [write] raises [UnboundLocalError].  In both cases nothing is
    written and the cache is untouched. *)
Theorem log_short_archive
    (fuel : nat) (a : F * option F) (ls : option F) (tmp : list (F * F))
    (out : list string) :
  TimeCache.log fuel (TimeCache.mkw (TimeCache.mk [] ls tmp) out)
  = (TimeCache.mkw (TimeCache.mk [] ls tmp) out, Raise IndexError)
  /\ TimeCache.log fuel (TimeCache.mkw (TimeCache.mk [a] ls tmp) out)
     = (TimeCache.mkw (TimeCache.mk [a] ls tmp) out, Raise UnboundLocalError).
Proof. split; reflexivity. Qed.

(** X8: the first [log] after a cold start fills no gap: on the archive
    [(A, None); (B, avg)] it writes the one record of [B], however many
    seconds lie between [A] and [B], and keeps [(B, avg)]. *)
Theorem log_cold_gap_not_filled
    (fuel : nat) (A B y : F) (ls : option F) (tmp : list (F * F))
    (out : list string) (l : string) :
  output_line B (Some y) = Ok l ->
  TimeCache.log fuel
    (TimeCache.mkw (TimeCache.mk [(A, None); (B, Some y)] ls tmp) out)
  = (TimeCache.mkw (TimeCache.mk [(B, Some y)] ls tmp) (out ++ [l]), Ok tt).
Proof.
  intros Hl.
  assert (Hfill : forall w : TimeCache.world F,
             TimeCache.fill_gap fuel (fadd A (of_int 1)) B None w
             = (w, Ok (fadd A (of_int 1)))).
  { intros w. destruct fuel; cbn; rewrite andb_false_r; reflexivity. }
  cbv -[fadd of_int output_line TimeCache.fill_gap app].
  rewrite Hfill. rewrite Hl. reflexivity.
Qed.

(** [log] on an archive of two entries: the gap loop, then the record of
    the second entry. *)
Lemma log_two_entries
    (fuel : nat) (A B : F) (px py : option F) (ls : option F)
    (tmp : list (F * F)) (out : list string)
    (w1 : TimeCache.world F) (reached : F) (l : string) :
  TimeCache.fill_gap fuel (fadd A (of_int 1)) B px
    (TimeCache.mkw (TimeCache.mk [(A, px); (B, py)] ls tmp) out)
  = (w1, Ok reached) ->
  output_line B py = Ok l ->
  TimeCache.log fuel
    (TimeCache.mkw (TimeCache.mk [(A, px); (B, py)] ls tmp) out)
  = (TimeCache.mkw (TimeCache.mk [(B, py)] ls tmp) (TimeCache.stdout w1 ++ [l]),
     Ok tt).
Proof.
  intros Hfill Hl.
  pose proof (fill_gap_self fuel (fadd A (of_int 1)) B px
                (TimeCache.mkw (TimeCache.mk [(A, px); (B, py)] ls tmp) out))
    as Hs.
  rewrite Hfill in Hs. destruct w1 as [s1 o1]. cbn in Hs. subst s1.
  cbv -[fadd of_int output_line TimeCache.fill_gap app].
  rewrite Hfill. rewrite Hl. reflexivity.
Qed.

Lemma fill_gap_stdout (fuel : nat) :
  forall (last this : F) (price : option F) (w : TimeCache.world F),
  exists out,
    TimeCache.stdout (fst (TimeCache.fill_gap fuel last this price w))
    = TimeCache.stdout w ++ out.
Proof.
  induction fuel as [|fuel IH]; intros last this price w; cbn;
    destruct (flt last this && is_not_none price);
    try (exists []; rewrite app_nil_r; reflexivity).
  unfold bind, lift, TimeCache.write, get, put.
  destruct (output_line last price) as [line | e |];
    try (exists []; rewrite app_nil_r; reflexivity).
  cbn. destruct (IH (fadd last (of_int 1)) this price
                   (TimeCache.mkw (TimeCache.self_ w) (TimeCache.stdout w ++ [line])))
    as [out Hout].
  rewrite Hout. cbn. exists (line :: out). rewrite <- app_assoc. reflexivity.
Qed.

Lemma log_body_stdout (fuel : nat) (i : Z) (loc : F * option F)
    (w : TimeCache.world F) :
  exists out,
    TimeCache.stdout (fst (TimeCache.log_body fuel i loc w))
    = TimeCache.stdout w ++ out.
Proof.
  unfold TimeCache.log_body, bind, lift, get, ret.
  destruct (i =? 0)%Z; [exists []; rewrite app_nil_r; reflexivity|].
  destruct (getitem _ i) as [e | e |];
    try (exists []; rewrite app_nil_r; reflexivity).
  destruct (getitem _ (i - 1)) as [p | e' |];
    try (exists []; rewrite app_nil_r; reflexivity).
  destruct (fill_gap_stdout fuel (fst loc) (fst e) (snd p) w) as [out Hout].
  exists out.
  destruct (TimeCache.fill_gap _ _ _ _ _) as [w' [l | e' |]]; exact Hout.
Qed.

Lemma for_each_stdout (fuel : nat) (l : list Z) :
  forall (loc : F * option F) (w : TimeCache.world F),
  exists out,
    TimeCache.stdout (fst (for_each l (TimeCache.log_body fuel) loc w))
    = TimeCache.stdout w ++ out.
Proof.
  induction l as [|i l IH]; intros loc w; cbn.
  - exists []. rewrite app_nil_r. reflexivity.
  - unfold bind.
    destruct (log_body_stdout fuel i loc w) as [out1 H1].
    destruct (TimeCache.log_body fuel i loc w) as [w' [loc' | e |]]; cbn in H1;
      try (exists out1; exact H1).
    destruct (IH loc' w') as [out2 H2].
    exists (out1 ++ out2). rewrite H2, H1, app_assoc. reflexivity.
Qed.

(** What [log] does to [stdout] and to the cache. *)
Lemma log_outcome (fuel : nat) (w : TimeCache.world F) :
  (exists out,
      TimeCache.stdout (fst (TimeCache.log fuel w)) = TimeCache.stdout w ++ out)
  /\ match snd (TimeCache.log fuel w) with
     | Ok _ =>
         exists a,
           getitem (TimeCache.archive (TimeCache.self_ w)) (-1) = Ok a
           /\ TimeCache.self_ (fst (TimeCache.log fuel w))
              = TimeCache.mk [a] (TimeCache.last_spread (TimeCache.self_ w))
                  (TimeCache.tmp_cache (TimeCache.self_ w))
     | _ => TimeCache.self_ (fst (TimeCache.log fuel w)) = TimeCache.self_ w
     end.
Proof.
  unfold TimeCache.log, TimeCache.write, bind, get, put, lift, raise.
  destruct (getitem _ 0) as [a0 | e |].
  2,3: cbn; split; [exists []; rewrite app_nil_r; reflexivity | reflexivity].
  pose proof (for_each_self fuel
                (range 0 (len (TimeCache.archive (TimeCache.self_ w))))
                (fadd (fst a0) (of_int 1), None) w) as Hs.
  destruct (for_each_stdout fuel
              (range 0 (len (TimeCache.archive (TimeCache.self_ w))))
              (fadd (fst a0) (of_int 1), None) w) as [out0 Ho].
  destruct (for_each _ _ _ _) as [w' [loc | e |]]; cbn in Hs, Ho.
  2,3: cbn; split; [exists out0; exact Ho | exact Hs].
  destruct (snd loc) as [this_ts|].
  2: cbn; split; [exists out0; exact Ho | exact Hs].
  destruct (getitem _ _) as [ei | e |].
  2,3: cbn; split; [exists out0; exact Ho | exact Hs].
  destruct (output_line _ _) as [line | e |].
  2,3: cbn; split; [exists out0; exact Ho | exact Hs].
  cbn.
  destruct (getitem _ (-1)) as [lastr | e |] eqn:El.
  2,3: cbn; split;
       [exists (out0 ++ [line]); rewrite Ho, app_assoc; reflexivity | exact Hs].
  cbn. split.
  - exists (out0 ++ [line]). rewrite Ho, app_assoc. reflexivity.
  - exists lastr. rewrite <- Hs. split; [exact El | reflexivity].
Qed.

(** X9: [log] only appends to [stdout] and never touches [tmp_cache] or
    [last_spread]; when it returns, the archive is cut down to its last
    entry, and when it raises the cache is exactly as it was. *)
Theorem log_effect (fuel : nat) (w w1 : TimeCache.world F) (r : result unit) :
  TimeCache.log fuel w = (w1, r) ->
  (exists out, TimeCache.stdout w1 = TimeCache.stdout w ++ out)
  /\ match r with
     | Ok _ =>
         exists a,
           getitem (TimeCache.archive (TimeCache.self_ w)) (-1) = Ok a
           /\ TimeCache.self_ w1
              = TimeCache.mk [a] (TimeCache.last_spread (TimeCache.self_ w))
                  (TimeCache.tmp_cache (TimeCache.self_ w))
     | _ => TimeCache.self_ w1 = TimeCache.self_ w
     end.
Proof.
  intros E. pose proof (log_outcome fuel w) as Hlog.
  rewrite E in Hlog. exact Hlog.
Qed.

Lemma weight_loop_spec (sp_rest : list F) :
  forall (tw_rest sp_pre tw_pre : list F) (acc : F * F),
    List.length sp_rest = List.length tw_rest ->
    List.length sp_pre = List.length tw_pre ->
    for_pure (range (len sp_pre) (len (sp_pre ++ sp_rest)))
      (fun i acc =>
         s <~ getitem (sp_pre ++ sp_rest) i ;;
         w <~ getitem (tw_pre ++ tw_rest) i ;;
         Ok (fadd (fst acc) (fmul s w), fadd (snd acc) w))%py
      acc
    = Ok (weighted_sums sp_rest tw_rest acc).
Proof.
  induction sp_rest as [|s sp_rest IH]; intros tw_rest sp_pre tw_pre acc Hr Hp.
  - rewrite app_nil_r, range_nil. reflexivity.
  - destruct tw_rest as [|w tw_rest]; [discriminate Hr|].
    rewrite range_cons
      by (rewrite len_app; unfold len; cbn [List.length]; lia).
    rewrite for_pure_cons.
    rewrite getitem_middle. cbn [rbind].
    replace (len sp_pre) with (len tw_pre) at 1 by (unfold len; lia).
    rewrite getitem_middle. cbn [rbind fst snd].
    replace (sp_pre ++ s :: sp_rest) with ((sp_pre ++ [s]) ++ sp_rest)
      by (rewrite <- app_assoc; reflexivity).
    replace (tw_pre ++ w :: tw_rest) with ((tw_pre ++ [w]) ++ tw_rest)
      by (rewrite <- app_assoc; reflexivity).
    replace (len sp_pre + 1)%Z with (len (sp_pre ++ [s]))
      by (rewrite len_app; reflexivity).
    rewrite IH.
    + reflexivity.
    + cbn in Hr. lia.
    + rewrite !length_app. cbn. lia.
Qed.

(** [_weight_time] on lists of one length: the quotient of the two
    accumulated sums, rounded; a zero sum of durations is a
    [ZeroDivisionError]. *)
Lemma weight_time_spec (spreads time_weights : list F) :
  List.length spreads = List.length time_weights ->
  TimeCache._weight_time spreads time_weights
  = (q <~ truediv (fst (weighted_sums spreads time_weights (of_int 0, of_int 0)))
            (snd (weighted_sums spreads time_weights (of_int 0, of_int 0))) ;;
     Ok (round8 q))%py.
Proof.
  intros Hlen. unfold TimeCache._weight_time.
  pose proof (weight_loop_spec spreads time_weights [] [] (of_int 0, of_int 0)
                Hlen eq_refl) as Hloop.
  cbn [app] in Hloop. change (len (@nil F)) with 0%Z in Hloop.
  rewrite Hloop. reflexivity.
Qed.

Lemma consecutive_length (rest : list (F * F)) :
  forall r0 : F * F,
    List.length (fst (consecutive r0 rest)) = List.length rest
    /\ List.length (snd (consecutive r0 rest)) = List.length rest.
Proof.
  induction rest as [|cur rest IH]; intros r0; cbn; [auto|].
  destruct (IH cur) as [H1 H2]. rewrite H1, H2. auto.
Qed.

(** [_get_spreads_and_time_weights] on a buffer that is not empty. *)
Lemma spreads_and_time_weights_empty_archive
    (ls : option F) (r0 : F * F) (rest : list (F * F)) :
  TimeCache._get_spreads_and_time_weights (TimeCache.mk [] ls (r0 :: rest))
  = Raise IndexError.
Proof.
  unfold TimeCache._get_spreads_and_time_weights.
  cbn [TimeCache.last_spread TimeCache.tmp_cache TimeCache.archive].
  rewrite !getitem_nil.
  replace (getitem (r0 :: rest) 0) with (Ok r0) by reflexivity.
  destruct ls as [s|]; cbn [rbind]; [reflexivity|].
  pose proof (main_loop_spec rest [] r0 [] []) as Hloop.
  rewrite (getitem_final r0) by discriminate.
  unfold len in Hloop |- *. cbn [app] in Hloop.
  change (Z.of_nat (List.length (@nil (F * F))) + 1)%Z with 1%Z in Hloop.
  rewrite Hloop. reflexivity.
Qed.

(** X14: [_get_spreads_and_time_weights] fails only on an empty archive
    or an empty buffer, with [IndexError]; otherwise it returns two
    lists of one length: one entry per buffered record, and one more
    when [last_spread] is known. *)
Theorem spreads_and_time_weights_outcome (tc : TimeCache.t F) :
  match TimeCache._get_spreads_and_time_weights tc with
  | Ok (spreads, time_weights) =>
      TimeCache.archive tc <> [] /\ TimeCache.tmp_cache tc <> []
      /\ List.length spreads = List.length time_weights
      /\ List.length spreads
         = (List.length (TimeCache.tmp_cache tc)
            + if is_not_none (TimeCache.last_spread tc) then 1 else 0)%nat
  | Raise e =>
      e = IndexError
      /\ (TimeCache.archive tc = [] \/ TimeCache.tmp_cache tc = [])
  | OutOfFuel => False
  end.
Proof.
  destruct tc as [arch ls tmp].
  destruct tmp as [|r0 rest].
  - destruct ls; cbn; auto.
  - destruct arch as [|a0 arch].
    + rewrite spreads_and_time_weights_empty_archive. cbn. auto.
    + assert (Hne : a0 :: arch <> []) by discriminate.
      destruct (exists_last Hne) as [arch1 [a Earch]]. rewrite Earch.
      pose proof (spreads_and_time_weights_spec arch1 a ls r0 rest) as Hspec.
      cbn zeta in Hspec. rewrite Hspec.
      cbn [TimeCache.archive TimeCache.tmp_cache TimeCache.last_spread].
      destruct (consecutive_length rest r0) as [H1 H2].
      split; [destruct arch1; discriminate|]. split; [discriminate|].
      destruct ls; cbn [is_not_none]; rewrite !length_app, H1, ?H2;
        cbn [List.length]; split; lia.
Qed.

End TimeCacheMore.

(** ** TimeCache: invariants of the reachable caches *)

Section TimeCacheInvariants.
Context {F : Type} `{FloatOps F}.

Lemma getitem_last_inv {A} (l : list A) (a : A) :
  getitem l (-1) = Ok a -> exists l1, l = l1 ++ [a].
Proof.
  destruct l as [|x l]; [rewrite getitem_nil; discriminate|].
  assert (Hne : x :: l <> []) by discriminate.
  destruct (exists_last Hne) as [l1 [y E]]. rewrite E, getitem_last.
  intros Heq; inversion Heq; subst. exists l1. reflexivity.
Qed.

(** The cases of [add] on a cache whose archive and buffer are empty
    together. *)
Lemma add_cases (tc : TimeCache.t F) (ts spread : F) :
  (TimeCache.archive tc = [] <-> TimeCache.tmp_cache tc = []) ->
  let tc' := fst (TimeCache.add (PyFloat ts) (PyFloat spread) tc) in
  (TimeCache.archive tc = [] /\ TimeCache.tmp_cache tc = []
   /\ tc' = TimeCache.mk [(floor ts, None)] (TimeCache.last_spread tc)
              [(ts, spread)])
  \/ (TimeCache.archive tc <> [] /\ TimeCache.tmp_cache tc <> []
      /\ (tc' = tc
          \/ (exists twa s,
                 tc' = TimeCache.mk (TimeCache.archive tc ++ [(floor ts, Some twa)])
                         (Some s) [(ts, spread)])
          \/ (exists sec avg arch,
                 TimeCache.archive tc = arch ++ [(sec, avg)]
                 /\ flt (of_int 1) (fsub ts sec) = false
                 /\ tc' = TimeCache.mk (TimeCache.archive tc)
                            (TimeCache.last_spread tc)
                            (TimeCache.tmp_cache tc ++ [(ts, spread)])))).
Proof.
  intros Hiff.
  destruct tc as [arch ls tmp];
    cbn [TimeCache.archive TimeCache.tmp_cache TimeCache.last_spread] in *.
  destruct tmp as [|r tmp].
  - assert (arch = []) by (apply Hiff; reflexivity). subst arch.
    left. cbn. auto.
  - destruct arch as [|a0 arch].
    { destruct Hiff as [Hiff _]. specialize (Hiff eq_refl). discriminate Hiff. }
    assert (Hne : a0 :: arch <> []) by discriminate.
    destruct (exists_last Hne) as [arch1 [[sec avg] Earch]].
    right. split; [discriminate|]. split; [discriminate|].
    rewrite (@add_warm _ _ (TimeCache.mk (a0 :: arch) ls (r :: tmp))
               ts spread sec avg arch1 ltac:(discriminate) Earch).
    cbn [TimeCache.archive TimeCache.tmp_cache TimeCache.last_spread].
    destruct (flt (of_int 1) (fsub ts sec)) eqn:Hd.
    + destruct (window_average _) as [twa|e|]; cbn [fst]; [|left; reflexivity..].
      right; left. eexists _, _. reflexivity.
    + cbn [fst]. right; right. exists sec, avg, arch1. auto.
Qed.

(** The value [add] returns is true exactly when the archive grew by a
    closed window; otherwise an archive of at most one entry keeps at
    most one. *)
Lemma add_return_cases (tc : TimeCache.t F) (ts spread : F) :
  (TimeCache.archive tc = [] <-> TimeCache.tmp_cache tc = []) ->
  (List.length (TimeCache.archive tc) <= 1)%nat ->
  let res := TimeCache.add (PyFloat ts) (PyFloat spread) tc in
  (List.length (TimeCache.archive (fst res)) <= 2)%nat
  /\ match snd res with
     | Ok v => truth v = false ->
               (List.length (TimeCache.archive (fst res)) <= 1)%nat
     | _ => True
     end.
Proof.
  intros Hiff Hlen.
  destruct tc as [arch ls tmp];
    cbn [TimeCache.archive TimeCache.tmp_cache TimeCache.last_spread] in *.
  destruct tmp as [|r tmp].
  - assert (arch = []) by (apply Hiff; reflexivity). subst arch.
    cbn. split; [lia | intros _; lia].
  - destruct arch as [|a0 arch].
    { destruct Hiff as [Hiff _]. specialize (Hiff eq_refl). discriminate Hiff. }
    assert (Hne : a0 :: arch <> []) by discriminate.
    destruct (exists_last Hne) as [arch1 [[sec avg] Earch]].
    rewrite (@add_warm _ _ (TimeCache.mk (a0 :: arch) ls (r :: tmp))
               ts spread sec avg arch1 ltac:(discriminate) Earch).
    cbn [TimeCache.archive TimeCache.tmp_cache TimeCache.last_spread].
    destruct (flt (of_int 1) (fsub ts sec)).
    + destruct (window_average _) as [twa|e|]; cbn [fst snd TimeCache.archive].
      * rewrite length_app. cbn [List.length truth] in Hlen |- *.
        split; [lia | discriminate].
      * split; [cbn [List.length] in Hlen |- *; lia | exact I].
      * split; [cbn [List.length] in Hlen |- *; lia | exact I].
    + cbn [fst snd TimeCache.archive].
      split; [cbn [List.length] in Hlen |- *; lia | intros _; exact Hlen].
Qed.

Lemma add_well_formed (tc : TimeCache.t F) (ts spread : pyval F) :
  well_formed tc -> well_formed (fst (TimeCache.add ts spread tc)).
Proof.
  intros Hwf.
  destruct ts as [ | |ts| ]; try exact Hwf.
  destruct spread as [ | |spread| ]; try exact Hwf.
  destruct Hwf as [Hiff Htl].
  destruct (add_cases tc ts spread Hiff)
    as [[_ [_ ->]] | [Ha [Ht [-> | [[twa [s ->]] | [sec [avg [arch [_ [_ ->]]]]]]]]]].
  - split; cbn; [split; discriminate | constructor].
  - split; assumption.
  - split; cbn; [split; [|discriminate] |].
    + intros E. apply app_eq_nil in E. destruct E as [_ E]. discriminate E.
    + destruct (TimeCache.archive tc) as [|a0 arch0]; [congruence|].
      cbn in Htl |- *. apply Forall_app. split; [exact Htl|].
      constructor; [cbn; discriminate | constructor].
  - split; cbn; [|exact Htl]. split; [intros E; congruence|].
    intros E. apply app_eq_nil in E. destruct E as [_ E]. discriminate E.
Qed.

Lemma log_well_formed (fuel : nat) (w : TimeCache.world F) :
  well_formed (TimeCache.self_ w) ->
  well_formed (TimeCache.self_ (fst (TimeCache.log fuel w))).
Proof.
  intros Hwf.
  destruct (log_outcome fuel w) as [_ Hself].
  destruct (snd (TimeCache.log fuel w)) as [[]|e|];
    try (rewrite Hself; exact Hwf).
  destruct Hself as [a [Ha ->]].
  destruct (getitem_last_inv _ Ha) as [l1 El].
  destruct Hwf as [Hiff _].
  split; cbn; [|constructor].
  split; [discriminate|].
  intros Htmp. apply Hiff in Htmp. rewrite El in Htmp.
  destruct l1; discriminate Htmp.
Qed.

(** X10: whatever calls of [add] and [log] a cache has seen, its archive
    and its buffer are empty together (only before the first record),
    and every archive entry but the first carries an average. *)
Theorem reachable_well_formed (with_log : bool) (tc : TimeCache.t F) :
  reachable with_log tc -> well_formed tc.
Proof.
  induction 1 as [ | tc ts spread _ IH | tc fuel _ _ IH _ ].
  - split; cbn; [split; reflexivity | constructor].
  - apply add_well_formed. exact IH.
  - unfold run_log. apply (log_well_formed fuel (TimeCache.mkw tc [])). exact IH.
Qed.

Lemma add_cold_window_seeded (tc : TimeCache.t F) (ts spread : pyval F) :
  well_formed tc -> cold_window_seeded tc ->
  cold_window_seeded (fst (TimeCache.add ts spread tc)).
Proof.
  intros Hwf Hc.
  destruct ts as [ | |ts| ]; try exact Hc.
  destruct spread as [ | |spread| ]; try exact Hc.
  destruct Hwf as [Hiff _].
  destruct (add_cases tc ts spread Hiff)
    as [[_ [_ ->]] | [Ha [Ht [-> | [[twa [s ->]] | [sec [avg [arch [_ [_ ->]]]]]]]]]].
  - intros _ r0 rest E. cbn in E |- *. inversion E; subst. reflexivity.
  - exact Hc.
  - intros E. discriminate E.
  - intros Hls r0 rest E. cbn in Hls, E |- *.
    destruct (TimeCache.tmp_cache tc) as [|r tmp] eqn:Etmp; [congruence|].
    cbn in E. inversion E; subst. exact (Hc Hls r0 tmp Etmp).
Qed.

Lemma log_cold_window_seeded (fuel : nat) (w : TimeCache.world F) :
  cold_window_seeded (TimeCache.self_ w) ->
  cold_window_seeded (TimeCache.self_ (fst (TimeCache.log fuel w))).
Proof.
  intros Hc.
  destruct (log_outcome fuel w) as [_ Hself].
  destruct (snd (TimeCache.log fuel w)) as [[]|e|];
    try (rewrite Hself; exact Hc).
  destruct Hself as [a [Ha ->]].
  intros Hls r0 rest E. cbn in Hls, E |- *.
  rewrite (Hc Hls r0 rest E) in Ha.
  change [(floor (fst r0), @None F)] with ([] ++ [(floor (fst r0), @None F)]) in Ha.
  rewrite getitem_last in Ha. inversion Ha; subst. reflexivity.
Qed.

Lemma reachable_shape (with_log : bool) (tc : TimeCache.t F) :
  reachable with_log tc -> well_formed tc /\ cold_window_seeded tc.
Proof.
  induction 1 as [ | tc ts spread _ [IHw IHc] | tc fuel _ _ [IHw IHc] _ ].
  - split; [split; cbn; [split; reflexivity | constructor]|].
    intros _ r0 rest E. discriminate E.
  - split; [apply add_well_formed | apply add_cold_window_seeded]; assumption.
  - unfold run_log. split.
    + apply (log_well_formed fuel (TimeCache.mkw tc [])). exact IHw.
    + apply (log_cold_window_seeded fuel (TimeCache.mkw tc [])). exact IHc.
Qed.

(** X15: until the first window is closed ([last_spread] is [None]),
    the archive of a cache that holds records is the single entry seeded
    by the first record: the floor of the first buffered timestamp, with
    no average. *)
Theorem reachable_cold_window_seeded (with_log : bool) (tc : TimeCache.t F) :
  reachable with_log tc -> cold_window_seeded tc.
Proof.
  intros Hr. exact (proj2 (reachable_shape Hr)).
Qed.

Section WithFloor.
(** What [math.floor] guarantees: a number is less than one above its
    floor. *)
Hypothesis floor_within_second :
  forall ts : F, flt (of_int 1) (fsub ts (floor ts)) = false.

Lemma add_buffer_within_second (tc : TimeCache.t F) (ts spread : pyval F) :
  well_formed tc -> buffer_within_second tc ->
  buffer_within_second (fst (TimeCache.add ts spread tc)).
Proof.
  intros Hwf Hb.
  destruct ts as [ | |ts| ]; try exact Hb.
  destruct spread as [ | |spread| ]; try exact Hb.
  destruct Hwf as [Hiff _].
  destruct (add_cases tc ts spread Hiff)
    as [[_ [_ ->]] | [Ha [Ht [-> | [[twa [s ->]] | [sec [avg [arch [Ea [Hd ->]]]]]]]]]].
  - intros arch sec avg Earch; cbn in *.
    change [(floor ts, @None F)] with ([] ++ [(floor ts, @None F)]) in Earch.
    apply app_inj_tail in Earch. destruct Earch as [_ Ee]. inversion Ee; subst.
    constructor; [apply floor_within_second | constructor].
  - exact Hb.
  - intros arch' sec' avg' E'.
    cbn [TimeCache.archive TimeCache.tmp_cache] in *.
    apply app_inj_tail in E'. destruct E' as [_ Ee]. inversion Ee; subst.
    constructor; [apply floor_within_second | constructor].
  - intros arch' sec' avg' E'.
    cbn [TimeCache.archive TimeCache.tmp_cache] in *.
    pose proof (Hb arch' sec' avg' E') as Hold.
    rewrite Ea in E'. apply app_inj_tail in E'. destruct E' as [_ Ee].
    inversion Ee; subst.
    apply Forall_app. split; [exact Hold|].
    constructor; [exact Hd | constructor].
Qed.

Lemma log_buffer_within_second (fuel : nat) (w : TimeCache.world F) :
  buffer_within_second (TimeCache.self_ w) ->
  buffer_within_second (TimeCache.self_ (fst (TimeCache.log fuel w))).
Proof.
  intros Hb.
  destruct (log_outcome fuel w) as [_ Hself].
  destruct (snd (TimeCache.log fuel w)) as [[]|e|];
    try (rewrite Hself; exact Hb).
  destruct Hself as [a [Ha ->]].
  destruct (getitem_last_inv _ Ha) as [l1 El].
  intros arch sec avg Earch; cbn in *.
  change [a] with ([] ++ [a]) in Earch.
  apply app_inj_tail in Earch. destruct Earch as [_ ->].
  exact (Hb l1 sec avg El).
Qed.

Lemma reachable_buffer_within_second (with_log : bool) (tc : TimeCache.t F) :
  reachable with_log tc -> well_formed tc /\ buffer_within_second tc.
Proof.
  induction 1 as [ | tc ts spread _ [IHw IHb] | tc fuel _ _ [IHw IHb] _ ].
  - split; [split; cbn; [split; reflexivity | constructor]|].
    intros arch sec avg Earch. cbn. constructor.
  - split; [apply add_well_formed | apply add_buffer_within_second]; assumption.
  - unfold run_log. split.
    + apply (log_well_formed fuel (TimeCache.mkw tc [])). exact IHw.
    + apply (log_buffer_within_second fuel (TimeCache.mkw tc [])). exact IHb.
Qed.

End WithFloor.
End TimeCacheInvariants.

(** ** The driver [compute_twa] *)

Section Driver.
Context {F : Type} `{FloatOps F}.

(** One iteration of the loop of [compute_twa], case by case. *)
Lemma compute_twa_one_cases
    (fuel : nat) (ts : F) (side : string) (price : F)
    (q : QuotePair.t F) (w : TimeCache.world F) :
  compute_twa_one fuel (ts, side, price) (q, w)
  = match microsec_to_sec ts with
    | Ok t =>
        let t' := fmul t (of_int float_multiplier) in
        let p' := fmul price (of_int float_multiplier) in
        match QuotePair.add (PyFloat t') (PyStr side) (PyFloat p') q with
        | (q1, Ok (Some spread)) =>
            match TimeCache.add (PyFloat t') (PyFloat spread) (TimeCache.self_ w) with
            | (c, Ok v) =>
                if truth v then
                  let (w2, r) := TimeCache.log fuel (TimeCache.mkw c (TimeCache.stdout w)) in
                  ((q1, w2), r)
                else ((q1, TimeCache.mkw c (TimeCache.stdout w)), Ok tt)
            | (c, Raise e) => ((q1, TimeCache.mkw c (TimeCache.stdout w)), Raise e)
            | (c, OutOfFuel) => ((q1, TimeCache.mkw c (TimeCache.stdout w)), OutOfFuel)
            end
        | (q1, Ok None) => ((q1, w), Ok tt)
        | (q1, Raise QuoteError) => ((q1, w), Ok tt)
        | (q1, Raise e) => ((q1, w), Raise e)
        | (q1, OutOfFuel) => ((q1, w), OutOfFuel)
        end
    | Raise e => ((q, w), Raise e)
    | OutOfFuel => ((q, w), OutOfFuel)
    end.
Proof.
  unfold compute_twa_one, try_add, on_pair, on_cache, on_world, bind, lift, ret.
  destruct (microsec_to_sec ts) as [t|e|]; try reflexivity.
  cbn [fst snd].
  destruct (QuotePair.add _ _ _ q) as [q1 [[spread|]|e|]]; try reflexivity.
  - cbn [fst snd TimeCache.self_ TimeCache.stdout].
    destruct (TimeCache.add _ _ _) as [c [v|e|]]; try reflexivity.
    destruct (truth v); reflexivity.
  - destruct e; reflexivity.
Qed.

(** One iteration only appends to [stdout]. *)
Lemma compute_twa_one_stdout
    (fuel : nat) (rec : F * string * F)
    (s : QuotePair.t F * TimeCache.world F) :
  exists out,
    TimeCache.stdout (snd (fst (compute_twa_one fuel rec s)))
    = TimeCache.stdout (snd s) ++ out.
Proof.
  destruct rec as [[ts side] price]. destruct s as [q w].
  rewrite compute_twa_one_cases. cbn [snd].
  assert (Hnil : forall x : QuotePair.t F * TimeCache.world F,
             TimeCache.stdout (snd x) = TimeCache.stdout w ->
             exists out, TimeCache.stdout (snd x) = TimeCache.stdout w ++ out).
  { intros x ->. exists []. rewrite app_nil_r. reflexivity. }
  destruct (microsec_to_sec ts) as [t|e|]; try (apply Hnil; reflexivity).
  cbv zeta.
  destruct (QuotePair.add _ _ _ q) as [q1 [[spread|]|e|]];
    try (apply Hnil; reflexivity).
  - destruct (TimeCache.add _ _ _) as [c [v|e|]]; try (apply Hnil; reflexivity).
    destruct (truth v); [|apply Hnil; reflexivity].
    destruct (log_outcome fuel (TimeCache.mkw c (TimeCache.stdout w)))
      as [[out Hout] _].
    destruct (TimeCache.log fuel _) as [w2 r]. cbn in Hout |- *.
    exists out. exact Hout.
  - destruct e; apply Hnil; reflexivity.
Qed.

(** What one iteration keeps: the shape of the cache, and an archive of
    at most one entry whenever the iteration ends normally. *)
Lemma compute_twa_one_archive
    (fuel : nat) (rec : F * string * F)
    (q : QuotePair.t F) (w : TimeCache.world F) :
  well_formed (TimeCache.self_ w) ->
  (List.length (TimeCache.archive (TimeCache.self_ w)) <= 1)%nat ->
  let res := compute_twa_one fuel rec (q, w) in
  let tc' := TimeCache.self_ (snd (fst res)) in
  well_formed tc'
  /\ (List.length (TimeCache.archive tc') <= 2)%nat
  /\ (snd res = Ok tt -> (List.length (TimeCache.archive tc') <= 1)%nat).
Proof.
  intros Hwf Hlen.
  destruct rec as [[ts side] price].
  rewrite compute_twa_one_cases.
  assert (Hsame : forall (x : QuotePair.t F * TimeCache.world F) (r : result unit),
             TimeCache.self_ (snd x) = TimeCache.self_ w ->
             let res := (x, r) in
             let tc' := TimeCache.self_ (snd (fst res)) in
             well_formed tc'
             /\ (List.length (TimeCache.archive tc') <= 2)%nat
             /\ (snd res = Ok tt -> (List.length (TimeCache.archive tc') <= 1)%nat)).
  { intros x r E. cbn. rewrite E. repeat split; [apply Hwf.. | lia | intros _; lia]. }
  destruct (microsec_to_sec ts) as [t|e|]; try (apply Hsame; reflexivity).
  cbv zeta.
  destruct (QuotePair.add _ _ _ q) as [q1 [[spread|]|e|]];
    try (apply Hsame; reflexivity).
  2: destruct e; apply Hsame; reflexivity.
  set (t' := fmul t (of_int float_multiplier)).
  pose proof (@add_well_formed _ _ (TimeCache.self_ w) (PyFloat t') (PyFloat spread)
                Hwf) as Hwf1.
  pose proof (@add_return_cases _ _ (TimeCache.self_ w) t' spread (proj1 Hwf) Hlen)
    as Hcases.
  destruct (TimeCache.add _ _ _) as [c [v|e|]]; cbn [fst snd] in Hwf1, Hcases.
  - destruct Hcases as [Hgrow Hkeep].
    destruct (truth v) eqn:Ev.
    + pose proof (@log_well_formed _ _ fuel (TimeCache.mkw c (TimeCache.stdout w))
                    Hwf1) as Hwf2.
      destruct (log_outcome fuel (TimeCache.mkw c (TimeCache.stdout w)))
        as [_ Hself].
      destruct (TimeCache.log fuel _) as [w2 r]. cbn [fst snd] in Hwf2, Hself |- *.
      split; [exact Hwf2|].
      destruct r as [[]|e|].
      * destruct Hself as [a [_ ->]]. cbn. split; [lia | intros _; lia].
      * rewrite Hself. cbn. split; [exact Hgrow | discriminate].
      * rewrite Hself. cbn. split; [exact Hgrow | discriminate].
    + cbn. split; [exact Hwf1|]. specialize (Hkeep eq_refl).
      split; [lia | intros _; exact Hkeep].
  - cbn. split; [exact Hwf1|]. split; [exact (proj1 Hcases) | discriminate].
  - cbn. split; [exact Hwf1|]. split; [exact (proj1 Hcases) | discriminate].
Qed.

Lemma compute_twa_stdout (fuel : nat) (records : list (F * string * F)) :
  forall s : QuotePair.t F * TimeCache.world F,
  exists out,
    TimeCache.stdout (snd (fst (compute_twa fuel records s)))
    = TimeCache.stdout (snd s) ++ out.
Proof.
  induction records as [|rec records IH]; intros s; cbn [compute_twa].
  - exists []. rewrite app_nil_r. reflexivity.
  - unfold bind.
    destruct (compute_twa_one_stdout fuel rec s) as [out1 H1].
    destruct (compute_twa_one fuel rec s) as [s1 [[]|e|]]; cbn [fst snd] in H1 |- *;
      try (exists out1; exact H1).
    destruct (IH s1) as [out2 H2].
    exists (out1 ++ out2). rewrite H2, H1, app_assoc. reflexivity.
Qed.

(** X20: whatever the records and however the run ends, [compute_twa]
    only appends to [stdout]: nothing that was written is changed or
    taken back, also when an exception ends the run. *)
Theorem compute_twa_stdout_grows
    (fuel : nat) (records : list (F * string * F))
    (q : QuotePair.t F) (tc : TimeCache.t F) (out : list string) :
  exists written,
    TimeCache.stdout
      (snd (fst (compute_twa fuel records (q, TimeCache.mkw tc out))))
    = out ++ written.
Proof.
  exact (compute_twa_stdout fuel records (q, TimeCache.mkw tc out)).
Qed.

Lemma compute_twa_archive (fuel : nat) (records : list (F * string * F)) :
  forall (q : QuotePair.t F) (w : TimeCache.world F),
    well_formed (TimeCache.self_ w) ->
    (List.length (TimeCache.archive (TimeCache.self_ w)) <= 1)%nat ->
    let res := compute_twa fuel records (q, w) in
    let tc' := TimeCache.self_ (snd (fst res)) in
    well_formed tc'
    /\ (List.length (TimeCache.archive tc') <= 2)%nat
    /\ (snd res = Ok tt -> (List.length (TimeCache.archive tc') <= 1)%nat).
Proof.
  induction records as [|rec records IH]; intros q w Hwf Hlen; cbn [compute_twa].
  - cbn. repeat split; [apply Hwf.. | lia | intros _; exact Hlen].
  - unfold bind.
    pose proof (@compute_twa_one_archive fuel rec q w Hwf Hlen) as Hone.
    cbv zeta in Hone.
    destruct (compute_twa_one fuel rec (q, w)) as [[q1 w1] [[]|e|]];
      cbn [fst snd] in Hone |- *.
    + destruct Hone as [Hwf1 [_ Hlen1]]. apply IH; [exact Hwf1 | exact (Hlen1 eq_refl)].
    + destruct Hone as [Hwf1 [Hle _]]. split; [exact Hwf1|].
      split; [exact Hle | discriminate].
    + destruct Hone as [Hwf1 [Hle _]]. split; [exact Hwf1|].
      split; [exact Hle | discriminate].
Qed.

(** X21: the archive of the cache [compute_twa] works on stays bounded,
    however long the stream: started on a new [TimeCache], the run
    leaves at most one archive entry when it ends normally, and at most
    two when an exception ends it. *)
Theorem compute_twa_archive_bounded
    (fuel : nat) (records : list (F * string * F))
    (q : QuotePair.t F) (out : list string) :
  let res := compute_twa fuel records (q, TimeCache.mkw TimeCache.__init__ out) in
  let tc' := TimeCache.self_ (snd (fst res)) in
  (List.length (TimeCache.archive tc') <= 2)%nat
  /\ (snd res = Ok tt -> (List.length (TimeCache.archive tc') <= 1)%nat).
Proof.
  assert (Hwf : well_formed (@TimeCache.__init__ F)).
  { split; cbn; [split; reflexivity | constructor]. }
  pose proof (@compute_twa_archive fuel records q
                (TimeCache.mkw TimeCache.__init__ out) Hwf
                ltac:(cbn; lia)) as Hrun.
  cbv zeta in Hrun |- *. exact (proj2 Hrun).
Qed.

(** One iteration keeps the seed of a cold window. *)
Lemma compute_twa_one_seeded
    (fuel : nat) (rec : F * string * F)
    (q : QuotePair.t F) (w : TimeCache.world F) :
  well_formed (TimeCache.self_ w) ->
  cold_window_seeded (TimeCache.self_ w) ->
  cold_window_seeded
    (TimeCache.self_ (snd (fst (compute_twa_one fuel rec (q, w))))).
Proof.
  intros Hwf Hc.
  destruct rec as [[ts side] price].
  rewrite compute_twa_one_cases.
  destruct (microsec_to_sec ts) as [t|e|]; try exact Hc.
  cbv zeta.
  destruct (QuotePair.add _ _ _ q) as [q1 [[spread|]|e|]]; try exact Hc.
  2: destruct e; exact Hc.
  set (t' := fmul t (of_int float_multiplier)).
  pose proof (@add_cold_window_seeded _ _ (TimeCache.self_ w) (PyFloat t')
                (PyFloat spread) Hwf Hc) as Hc1.
  destruct (TimeCache.add _ _ _) as [c [v|e|]]; cbn [fst snd] in Hc1 |- *;
    try exact Hc1.
  destruct (truth v); [|exact Hc1].
  pose proof (@log_cold_window_seeded _ _ fuel
                (TimeCache.mkw c (TimeCache.stdout w)) Hc1) as Hc2.
  destruct (TimeCache.log fuel _) as [w2 r]. exact Hc2.
Qed.

(** A record the [QuotePair] refuses with [QuoteError] is skipped. *)
Lemma compute_twa_refused
    (fuel : nat) (ts t price : F) (side : string)
    (rest : list (F * string * F))
    (q q' : QuotePair.t F) (w : TimeCache.world F) :
  microsec_to_sec ts = Ok t ->
  QuotePair.current_ts q <> None ->
  QuotePair.add (PyFloat (fmul t (of_int float_multiplier))) (PyStr side)
    (PyFloat (fmul price (of_int float_multiplier))) q
  = (q', Raise QuoteError) ->
  compute_twa fuel ((ts, side, price) :: rest) (q, w)
  = compute_twa fuel rest (q, w).
Proof.
  intros Hms Hc Hadd. cbn [compute_twa]. unfold bind.
  rewrite compute_twa_one_cases, Hms. cbv zeta. rewrite Hadd.
  rewrite (@add_raise_unchanged _ _ q q' _ _ _ _ Hc Hadd). reflexivity.
Qed.

(** A side token that is neither [":a"] nor [":b"] ends the run. *)
Lemma compute_twa_bad_side
    (fuel : nat) (ts t price : F) (side : string)
    (rest : list (F * string * F))
    (s : QuotePair.t F * TimeCache.world F) :
  microsec_to_sec ts = Ok t ->
  side <> ":a"%string -> side <> ":b"%string ->
  compute_twa fuel ((ts, side, price) :: rest) s = (s, Raise InputError).
Proof.
  intros Hms Ha Hb. destruct s as [q w]. cbn [compute_twa]. unfold bind.
  rewrite compute_twa_one_cases, Hms. cbv zeta.
  unfold QuotePair.add. cbn [py_eq_str].
  apply String.eqb_neq in Ha, Hb. rewrite Ha, Hb. reflexivity.
Qed.

End Driver.



(** ** Binary64: the driver on records it does not accept *)

Module Binary64More.

Lemma microsec_to_sec_defined (ts : float) :
  microsec_to_sec ts = Ok (fdiv ts (of_int 1000000)).
Proof.
  unfold microsec_to_sec, truediv.
  replace (nonzero (of_int 1000000 : float)) with true
    by (vm_compute; reflexivity).
  reflexivity.
Qed.

(** X22: [compute_twa] drops a record its [QuotePair] refuses with
    [QuoteError] (a duplicate side, a new timestamp before the pair is
    complete): when the pair holds a timestamp, the run goes on with
    both objects and [stdout] as they were, as if the record were not
    in the stream. *)
Theorem compute_twa_skips_refused
    (fuel : nat) (ts price : float) (side : string)
    (rest : list (float * string * float))
    (q q' : QuotePair.t float) (w : TimeCache.world float) :
  QuotePair.current_ts q <> None ->
  QuotePair.add
    (PyFloat (fmul (fdiv ts (of_int 1000000)) (of_int float_multiplier)))
    (PyStr side)
    (PyFloat (fmul price (of_int float_multiplier))) q
  = (q', Raise QuoteError) ->
  compute_twa fuel ((ts, side, price) :: rest) (q, w)
  = compute_twa fuel rest (q, w).
Proof.
  intros Hc Hadd.
  exact (@compute_twa_refused float Binary64.b64_ops fuel ts _ price side rest
           q q' w (microsec_to_sec_defined ts) Hc Hadd).
Qed.

(** X23: only [QuoteError] is caught: a record whose side token is
    neither [":a"] nor [":b"] ends [compute_twa] with [InputError]; the
    records after it are not read, and both objects and [stdout] are as
    they were before the record. *)
Theorem compute_twa_stops_at_bad_side
    (fuel : nat) (ts price : float) (side : string)
    (rest : list (float * string * float))
    (s : QuotePair.t float * TimeCache.world float) :
  side <> ":a"%string -> side <> ":b"%string ->
  compute_twa fuel ((ts, side, price) :: rest) s = (s, Raise InputError).
Proof.
  intros Ha Hb.
  exact (@compute_twa_bad_side float Binary64.b64_ops fuel ts _ price side rest
           s (microsec_to_sec_defined ts) Ha Hb).
Qed.

End Binary64More.

(** ** Binary64: whole seconds and the gap filling of [log] *)

Module WholeSeconds.
#[local] Unset Implicit Arguments.
Import Ieee Rounding Whole.
Open Scope Z_scope.

(** The exponent of a double of magnitude between [1] and [2^53]. *)
Lemma moderate_exponent (s : bool) (m : positive) (e : Z) :
  SpecFloat.valid_binary prec emax (S754_finite s m e) = true ->
  2 ^ 1074 <= Zpos m * 2 ^ (e - emin64) < 2 ^ 1127 ->
  -52 <= e <= 52.
Proof.
  intros Hv [Hlo Hhi].
  pose proof (valid_emin _ _ _ Hv) as He.
  destruct (valid_mantissa _ _ _ Hv) as [Hm _].
  rewrite emin64_eq in *.
  pose proof (pow2_pos (e - -1074) ltac:(lia)) as Hp.
  split.
  - assert (H1 : 2 ^ 1074 < 2 ^ 53 * 2 ^ (e - -1074)) by nia.
    rewrite <- Z.pow_add_r in H1 by lia.
    apply pow2_lt_inv in H1; lia.
  - assert (H1 : 2 ^ (e - -1074) < 2 ^ 1127) by nia.
    apply pow2_lt_inv in H1; lia.
Qed.

Lemma abs_units (s : bool) (m : positive) (E : Z) :
  Z.abs (cond_Zopp s (Zpos m) * 2 ^ E) = Zpos m * 2 ^ E.
Proof.
  pose proof (Z.pow_nonneg 2 E ltac:(lia)) as Hp.
  destruct s; unfold cond_Zopp; [rewrite Z.mul_opp_l, Z.abs_opp|];
    apply Z.abs_eq; nia.
Qed.

Lemma representable_abs (V : Z) : representable (Z.abs V) -> representable V.
Proof.
  intros H. destruct (Z.abs_spec V) as [[_ E]|[_ E]]; rewrite E in H.
  - exact H.
  - apply representable_opp in H. rewrite Z.opp_involutive in H. exact H.
Qed.

(** A product of two doubles of moderate size is exact when its value
    is representable. *)
Lemma SFmul_exact (x y : spec_float) (X Y V : Z) :
  SpecFloat.valid_binary prec emax x = true ->
  SpecFloat.valid_binary prec emax y = true ->
  SFunits x = Some X -> SFunits y = Some Y ->
  X = 0 \/ 2 ^ 1074 <= Z.abs X < 2 ^ 1127 ->
  2 ^ 1074 <= Z.abs Y < 2 ^ 1127 ->
  X * Y = V * 2 ^ 1074 ->
  representable V ->
  SFunits (SFmul prec emax x y) = Some V.
Proof.
  intros Hx Hy HX HY BX BY HV Hrep.
  pose proof (pow2_pos 1074 ltac:(lia)) as HU.
  destruct x as [sx|sx| |sx mx ex], y as [sy|sy| |sy my ey];
    cbn [SFunits] in HX, HY; try discriminate;
    inversion HX; inversion HY; subst X Y; clear HX HY.
  - exfalso. cbn in BY. lia.
  - cbn [SFmul SFunits]. f_equal. nia.
  - exfalso. cbn in BY. lia.
  - rewrite abs_units in BX, BY.
    pose proof (valid_emin _ _ _ Hx) as Ex. pose proof (valid_emin _ _ _ Hy) as Ey.
    assert (BX' : 2 ^ 1074 <= Zpos mx * 2 ^ (ex - emin64) < 2 ^ 1127).
    { destruct BX as [BX|BX]; [|exact BX]. exfalso.
      rewrite emin64_eq in *.
      pose proof (pow2_pos (ex - -1074) ltac:(lia)) as Hp.
      destruct sx; unfold cond_Zopp in BX; nia. }
    pose proof (moderate_exponent _ _ _ Hx BX') as Mx.
    pose proof (moderate_exponent _ _ _ Hy BY) as My.
    rewrite emin64_eq in *.
    assert (Hval : Zpos (mx * my) * 2 ^ (ex + ey - -1074) = Z.abs V).
    { apply (Z.mul_reg_r _ _ (2 ^ 1074)); [lia|].
      assert (HaV : Z.abs V * 2 ^ 1074 = Z.abs (V * 2 ^ 1074))
        by (rewrite Z.abs_mul, (Z.abs_eq (2 ^ 1074)) by lia; reflexivity).
      rewrite HaV, <- HV, Z.abs_mul, !abs_units.
      rewrite Pos2Z.inj_mul.
      replace (ex + ey - -1074) with ((ex - -1074) + (ey - -1074) - 1074) by lia.
      assert (Hs : 2 ^ (ex - -1074 + (ey - -1074) - 1074) * 2 ^ 1074
                   = 2 ^ (ex - -1074) * 2 ^ (ey - -1074)).
      { rewrite <- !Z.pow_add_r by lia. f_equal. lia. }
      rewrite <- !Z.mul_assoc, Hs. ring. }
    cbn [SFmul].
    destruct (round_aux_exact (xorb sx sy) (mx * my) (ex + ey))
      as [m' [e' [Hr [Hv' _]]]].
    + rewrite emin64_eq. lia.
    + rewrite emin64_eq, Hval.
      destruct (Z.abs_spec V) as [[_ E]|[_ E]]; rewrite E;
        [exact Hrep|apply representable_opp; exact Hrep].
    + rewrite Hr. cbn [SFunits]. f_equal.
      rewrite emin64_eq in Hv'.
      pose proof (pow2_pos (ex - -1074) ltac:(lia)) as Hpx.
      pose proof (pow2_pos (ey - -1074) ltac:(lia)) as Hpy.
      assert (Hsign : cond_Zopp (xorb sx sy) (Z.abs V) = V).
      { set (Px := Zpos mx * 2 ^ (ex - -1074)) in *.
        set (Py := Zpos my * 2 ^ (ey - -1074)) in *.
        assert (HPx : 0 < Px) by (unfold Px; nia).
        assert (HPy : 0 < Py) by (unfold Py; nia).
        assert (HPP : 0 < Px * Py) by nia.
        clearbody Px Py.
        destruct sx, sy; unfold cond_Zopp in *; cbn [xorb];
          rewrite ?Z.mul_opp_l, ?Z.mul_opp_r, ?Z.mul_opp_opp in HV; lia. }
      rewrite <- Hsign, <- Hval, <- Hv', emin64_eq.
      destruct (xorb sx sy); unfold cond_Zopp; ring.
Qed.

Lemma mul_exact (x y : float) (X Y V : Z) :
  units x = Some X -> units y = Some Y ->
  X = 0 \/ 2 ^ 1074 <= Z.abs X < 2 ^ 1127 ->
  2 ^ 1074 <= Z.abs Y < 2 ^ 1127 ->
  X * Y = V * 2 ^ 1074 ->
  representable V ->
  units (x * y)%float = Some V.
Proof.
  unfold units. rewrite mul_spec.
  apply SFmul_exact; apply Prim2SF_valid.
Qed.

(** [int(x)] of a double that holds a whole number. *)
Lemma to_int_units (x : float) (z : Z) :
  units x = Some (z * 2 ^ 1074) -> b64_to_int x = Ok z.
Proof.
  unfold units, b64_to_int, B2Q. intros HX.
  pose proof (Prim2SF_valid x) as Hv.
  pose proof (pow2_pos 1074 ltac:(lia)) as HU.
  destruct (Prim2SF x) as [s|s| |s m e]; cbn [SFunits] in HX; try discriminate;
    inversion HX as [HZ]; clear HX.
  - assert (z = 0) by nia. subst z. destruct s; reflexivity.
  - pose proof (valid_emin _ _ _ Hv) as He. rewrite emin64_eq in *.
    assert (Habs : Zpos m * 2 ^ (e - -1074) = Z.abs z * 2 ^ 1074).
    { rewrite <- (abs_units s m), HZ, Z.abs_mul. f_equal; lia. }
    assert (Hsgn : (if s then - Z.abs z else Z.abs z) = z).
    { pose proof (pow2_pos (e - -1074) ltac:(lia)) as Hp.
      destruct s; unfold cond_Zopp in HZ; nia. }
    destruct e as [|p|p].
    + change (0 - -1074) with 1074 in Habs.
      assert (Hm : Zpos m = Z.abs z) by nia.
      f_equal. rewrite <- Hsgn, <- Hm.
      change (2 ^ 0) with 1. rewrite Z.mul_1_r, Z.div_1_r. reflexivity.
    + assert (Hm : Zpos m * 2 ^ Zpos p = Z.abs z).
      { apply (Z.mul_reg_r _ _ (2 ^ 1074)); [lia|]. rewrite <- Habs.
        rewrite <- Z.mul_assoc, <- Z.pow_add_r by lia. eq_exp. }
      f_equal. rewrite <- Hsgn, <- Hm, Z.div_1_r. reflexivity.
    + assert (Hm : Zpos m = Z.abs z * 2 ^ Zpos p).
      { apply (Z.mul_reg_r _ _ (2 ^ (Zneg p - -1074))); [|].
        - pose proof (pow2_pos (Zneg p - -1074) ltac:(lia)). lia.
        - rewrite Habs, <- Z.mul_assoc, <- Z.pow_add_r by lia.
          eq_exp. }
      f_equal. rewrite <- Hsgn.
      rewrite Pos2Z.inj_pow, Hm.
      pose proof (pow2_pos (Zpos p) ltac:(lia)) as Hp.
      rewrite Z.div_mul by lia. reflexivity.
Qed.

Lemma of_int_succ (k : Z) :
  0 <= k < 2 ^ 53 - 1 ->
  (b64_of_int k + b64_of_int 1)%float = b64_of_int (k + 1).
Proof.
  intros Hk. pose proof (pow2_pos 1074 ltac:(lia)) as HU.
  apply (units_inj _ _ ((k + 1) * 2 ^ 1074)).
  - replace ((k + 1) * 2 ^ 1074) with (k * 2 ^ 1074 + 1 * 2 ^ 1074) by ring.
    apply add_exact; try (apply of_int_units; lia).
    exists (k + 1), 1074. split; [ring|lia].
  - apply of_int_units; lia.
  - nia.
Qed.

Lemma flt_of_int (a b : Z) :
  Z.abs a < 2 ^ 53 -> Z.abs b < 2 ^ 53 ->
  (b64_of_int a <? b64_of_int b)%float = (a <? b).
Proof.
  intros Ha Hb. pose proof (pow2_pos 1074 ltac:(lia)) as HU.
  rewrite (ltb_units _ _ _ _ (of_int_units a Ha) (of_int_units b Hb)).
  destruct (Z.ltb_spec a b); [apply Z.ltb_lt|apply Z.ltb_ge]; nia.
Qed.

Lemma to_int_microsec (k : Z) :
  0 <= k -> k * 1000000 < 2 ^ 53 ->
  to_int (sec_to_microsec (b64_of_int k)) = Ok (k * 1000000).
Proof.
  intros Hk Hb. pose proof (pow2_pos 1074 ltac:(lia)) as HU.
  unfold sec_to_microsec. cbn [to_int fmul of_int b64_ops].
  apply to_int_units.
  apply (mul_exact _ _ (k * 2 ^ 1074) (1000000 * 2 ^ 1074)).
  - apply of_int_units; lia.
  - apply of_int_units; lia.
  - destruct (Z.eq_dec k 0) as [->|Hnz]; [left; reflexivity|right].
    rewrite Z.abs_mul, (Z.abs_eq k), (Z.abs_eq (2 ^ 1074)) by lia.
    change (2 ^ 1127) with (2 ^ 53 * 2 ^ 1074). nia.
  - rewrite Z.abs_mul, (Z.abs_eq 1000000), (Z.abs_eq (2 ^ 1074)) by lia.
    change (2 ^ 1127) with (2 ^ 53 * 2 ^ 1074). nia.
  - ring.
  - exists (k * 1000000), 1074. split; [ring|lia].
Qed.

Lemma output_line_whole_second (k : Z) (x : float) :
  0 <= k -> k * 1000000 < 2 ^ 53 ->
  output_line (b64_of_int k) (Some x) = Ok (record_line x k).
Proof.
  intros Hk Hb. unfold output_line. rewrite to_int_microsec by assumption.
  reflexivity.
Qed.

(** The inner loop of [log] between two whole seconds. *)
Lemma fill_gap_whole_seconds (n : nat) :
  forall (fuel : nat) (k b : Z) (x : float) (w : TimeCache.world float),
    0 <= k < 2 ^ 53 -> 0 <= b -> b * 1000000 < 2 ^ 53 ->
    Z.to_nat (b - k) = n ->
    (n <= fuel)%nat ->
    TimeCache.fill_gap fuel (b64_of_int k) (b64_of_int b) (Some x) w
    = (TimeCache.mkw (TimeCache.self_ w)
         (TimeCache.stdout w ++ map (record_line x) (range k b)),
       Ok (b64_of_int (Z.max k b))).
Proof.
  induction n as [|n IH]; intros fuel k b x w Hk Hb0 Hb Hn Hfuel.
  - assert (Hkb : b <= k) by lia.
    assert (Hlt : flt (b64_of_int k) (b64_of_int b) = false)
      by (cbn [flt b64_ops]; rewrite flt_of_int by lia;
          apply Z.ltb_ge; exact Hkb).
    unfold range. replace (Z.to_nat (b - k)) with 0%nat by lia. cbn [seq map].
    rewrite app_nil_r, Z.max_l by lia.
    destruct fuel; cbn [TimeCache.fill_gap]; rewrite Hlt; cbn [andb];
      destruct w; reflexivity.
  - assert (Hkb : k < b) by lia.
    assert (Hlt : flt (b64_of_int k) (b64_of_int b) = true)
      by (cbn [flt b64_ops]; rewrite flt_of_int by lia;
          apply Z.ltb_lt; exact Hkb).
    destruct fuel as [|fuel]; [lia|].
    cbn [TimeCache.fill_gap]. rewrite Hlt. cbn [andb is_not_none].
    unfold bind, lift, TimeCache.write, get, put.
    rewrite output_line_whole_second by lia.
    change (@fadd float b64_ops) with PrimFloat.add.
    change (@of_int float b64_ops) with b64_of_int.
    rewrite of_int_succ by lia.
    unfold bind. cbv beta iota.
    rewrite (IH fuel (k + 1) b x) by lia.
    cbn [TimeCache.self_ TimeCache.stdout].
    rewrite (range_cons Hkb). cbn [map].
    rewrite <- app_assoc. cbn [app].
    replace (Z.max (k + 1) b) with (Z.max k b) by lia. reflexivity.
Qed.

(** X12: in binary64, [log] on the two-entry archive [(a, x); (b, y)]
    of whole seconds whose microseconds are exact in a double
    ([b * 1000000 < 2^53]) writes one record for each second from [a+1]
    to [b-1], repeating the earlier average [x], then the record of [b]
    with its own average [y], and keeps [(b, y)]. *)
Theorem log_fills_gap
    (fuel : nat) (a b : Z) (x y : float) (ls : option float)
    (tmp : list (float * float)) (out : list string) :
  0 <= a < 2 ^ 53 - 1 ->
  0 <= b -> b * 1000000 < 2 ^ 53 ->
  (Z.to_nat (b - (a + 1)) <= fuel)%nat ->
  TimeCache.log fuel
    (TimeCache.mkw
       (TimeCache.mk [(of_int a, Some x); (of_int b, Some y)] ls tmp) out)
  = (TimeCache.mkw (TimeCache.mk [(of_int b, Some y)] ls tmp)
       (out ++ map (record_line x) (range (a + 1) b) ++ [record_line y b]),
     Ok tt).
Proof.
  intros Ha Hb0 Hb Hfuel.
  change (@of_int float b64_ops) with b64_of_int.
  pose proof (fill_gap_whole_seconds _ fuel (a + 1) b x
                (TimeCache.mkw
                   (TimeCache.mk [(b64_of_int a, Some x); (b64_of_int b, Some y)]
                      ls tmp)
                   out)
                ltac:(lia) Hb0 Hb eq_refl Hfuel) as Hfill.
  rewrite <- of_int_succ in Hfill by lia.
  rewrite (@log_two_entries _ _ _ _ _ _ _ _ _ _ _ _ _ Hfill
             (output_line_whole_second b y Hb0 Hb)).
  cbn [TimeCache.stdout]. rewrite <- app_assoc. reflexivity.
Qed.

End WholeSeconds.

(** ** Binary64: closing a window within bounds *)

Module BoundedWindows.
#[local] Unset Implicit Arguments.
Import Cases.
Import Ieee Rounding Whole WindowSums Binary64Windows.
Open Scope float_scope.

(** [time_sum] is the sum of the durations. *)
Lemma weighted_sums_snd {F : Type} `{FloatOps F} (spreads time_weights : list F) :
  forall acc : F * F,
    List.length spreads = List.length time_weights ->
    snd (weighted_sums spreads time_weights acc)
    = fold_left fadd time_weights (snd acc).
Proof.
  revert time_weights.
  induction spreads as [|s spreads IH]; intros time_weights acc Hlen.
  - destruct time_weights; [reflexivity|discriminate Hlen].
  - destruct time_weights as [|w time_weights]; [discriminate Hlen|].
    cbn [weighted_sums fold_left]. rewrite IH by (cbn in Hlen; lia).
    reflexivity.
Qed.

(** Within the same bounds [add] does not fail on a window it has to
    close: the durations do not sum to zero (on the cold-start window,
    as long as the first record is before the end of the second), so
    the division of [_weight_time] is defined. *)
Lemma bounded_window_average
    (tc : TimeCache.t float) (k : Z) :
  (1 <= k < 2 ^ 53 - 1)%Z ->
  window_in_second k tc ->
  TimeCache.tmp_cache tc <> [] ->
  (TimeCache.last_spread tc = None ->
   forall r0 rest, TimeCache.tmp_cache tc = r0 :: rest ->
                   (fst r0 <? of_int k + 1) = true) ->
  exists spreads time_weights,
    TimeCache._get_spreads_and_time_weights tc = Ok (spreads, time_weights)
    /\ window_average tc
       = Ok (round8 (fst (weighted_sums spreads time_weights (of_int 0, of_int 0))
                     / sum_weights time_weights)).
Proof.
  intros Hk [[arch [avg Harch]] Hall] Htmp Hcold.
  destruct tc as [arch0 ls tmp];
    cbn [TimeCache.archive TimeCache.tmp_cache TimeCache.last_spread] in *.
  subst arch0. destruct tmp as [|r0 rest]; [congruence|]. clear Htmp.
  unfold window_average.
  pose proof (spreads_and_time_weights_spec arch (of_int k, avg) ls r0 rest)
    as Hspec.
  cbn zeta in Hspec. rewrite Hspec. clear Hspec.
  eexists _, _. split; [reflexivity|].
  cbn [rbind fst snd].
  destruct (consecutive_length rest r0) as [L1 L2].
  rewrite weight_time_spec
    by (destruct ls; rewrite !length_app, L1, L2; reflexivity).
  rewrite weighted_sums_snd
    by (destruct ls; rewrite !length_app, L1, L2; reflexivity).
  cbn [snd]. fold (sum_weights
    ((match ls with Some _ => [fsub (fst r0) (of_int k)] | None => [] end)
     ++ snd (consecutive r0 rest)
     ++ [fsub (fadd (of_int k) (of_int float_multiplier)) (fst (last rest r0))])).
  destruct (window_sum_units k arch avg ls r0 rest Hk Hall)
    as [T0 [HT0 [Hend [B0 Hsum]]]].
  cbn [fst snd] in Hsum.
  unfold truediv.
  assert (Hnz : nonzero
                  (sum_weights
                     ((match ls with
                       | Some _ => [fsub (fst r0) (of_int k)]
                       | None => []
                       end)
                      ++ snd (consecutive r0 rest)
                      ++ [fsub (fadd (of_int k) (of_int float_multiplier))
                            (fst (last rest r0))])) = true).
  { cbn [nonzero b64_ops]. apply negb_true_iff.
    assert (Hz : units 0 = Some 0%Z) by reflexivity.
    rewrite (eqb_units _ _ _ _ Hsum Hz). apply Z.eqb_neq.
    pose proof (pow2_pos 1074 ltac:(lia)) as HU.
    destruct ls as [s|]; [lia|].
    specialize (Hcold eq_refl r0 rest eq_refl).
    rewrite (ltb_units _ _ _ _ HT0
               (window_end_units k Hk)) in Hcold.
    apply Z.ltb_lt in Hcold. lia. }
  rewrite Hnz. reflexivity.
Qed.

(** X16: in binary64, on a window within the second [k]
    ([1 <= k < 2^53 - 1], buffered timestamps between [k] and [k + 1],
    and on the cold-start window a first record before [k + 1]),
    [TimeCache.add] does not raise on floats: it returns 1 when
    [ts - k > 1.0] and 0 otherwise; the durations of the window do not
    sum to zero, so the division of [_weight_time] is defined. *)
Theorem add_returns_on_bounded_window
    (tc : TimeCache.t float) (ts spread : float) (k : Z) :
  (1 <= k < 2 ^ 53 - 1)%Z ->
  window_in_second k tc ->
  TimeCache.tmp_cache tc <> [] ->
  (TimeCache.last_spread tc = None ->
   forall r0 rest, TimeCache.tmp_cache tc = r0 :: rest ->
                   (fst r0 <? of_int k + 1) = true) ->
  snd (TimeCache.add (PyFloat ts) (PyFloat spread) tc)
  = Ok (PyInt (if 1 <? ts - of_int k then 1 else 0)).
Proof.
  intros Hk Hwin Htmp Hcold.
  destruct (bounded_window_average tc k Hk Hwin Htmp Hcold)
    as [sp [tw [_ Havg]]].
  destruct Hwin as [[arch [avg Harch]] _].
  rewrite (@add_warm float b64_ops tc ts spread (of_int k) avg arch Htmp Harch).
  rewrite Havg.
  change (@flt float b64_ops (of_int 1) (fsub ts (of_int k)))
    with (1 <? ts - of_int k).
  destruct (1 <? ts - of_int k); reflexivity.
Qed.

End BoundedWindows.

(** ** Binary64: a number is within one second of its floor *)

Module RoundingBound.
#[local] Unset Implicit Arguments.
Import Ieee Rounding Whole.
Open Scope Z_scope.

(** [shr_fexp] divides the mantissa by a power of two, rounding down. *)
Lemma shr_fexp_floor (m : positive) (e : Z) (l : location) :
  emin64 <= e ->
  exists n,
    0 <= n
    /\ snd (shr_fexp prec emax (Zpos m) e l) = e + n
    /\ shr_m (fst (shr_fexp prec emax (Zpos m) e l)) = Zpos m / 2 ^ n
    /\ e + n = Z.max e (fexp64 (Zpos (digits2_pos m) + e)).
Proof.
  rewrite emin64_eq. intros He. unfold shr_fexp, shr.
  cbn [Zdigits2]. change (SpecFloat.fexp prec emax) with fexp64.
  rewrite fexp64_eq, emin64_eq.
  destruct (Z.max (Zpos (digits2_pos m) + e - 53) (-1074) - e) as [|p|p] eqn:En;
    cbn [fst snd]; rewrite ?shr_record_of_loc_m.
  - exists 0. rewrite Z.div_1_r. repeat split; lia.
  - exists (Zpos p). rewrite iter_shr_1_m by (rewrite shr_record_of_loc_m; lia).
    rewrite shr_record_of_loc_m. repeat split; lia.
  - exists 0. rewrite Z.div_1_r. repeat split; lia.
Qed.

Lemma round_nearest_even_le (m : Z) (l : location) :
  round_nearest_even m l <= m + 1.
Proof.
  destruct l as [|[ | | ]]; cbn [round_nearest_even]; try lia.
  destruct (Z.even m); lia.
Qed.

Lemma pow2_le_inv (a b : Z) : 0 <= b -> 2 ^ a <= 2 ^ b -> a <= b.
Proof.
  intros Hb H. destruct (Z_le_gt_dec a b) as [Hle|Hgt]; [exact Hle|exfalso].
  assert (2 ^ b < 2 ^ a) by (apply Z.pow_lt_mono_r; lia). lia.
Qed.

(** A multiple of [2^a] below [2^b] is at least one step below. *)
Lemma multiple_below_pow2 (m a b : Z) :
  0 <= a <= b -> m * 2 ^ a < 2 ^ b -> (m + 1) * 2 ^ a <= 2 ^ b.
Proof.
  intros Hab Hlt.
  pose proof (pow2_pos a ltac:(lia)) as Ha.
  replace b with ((b - a) + a) in * by lia.
  rewrite Z.pow_add_r in * by lia.
  assert (m < 2 ^ (b - a)) by nia. nia.
Qed.

(** Rounding a positive value below a power of two gives at most that
    power of two. *)
Lemma round_aux_below (m : positive) (e J : Z) (l : location) :
  emin64 <= e -> 0 <= J <= 2045 ->
  Zpos m * 2 ^ (e - emin64) < 2 ^ J ->
  exists R,
    SFunits (binary_round_aux prec emax false (Zpos m) e l) = Some R
    /\ 0 <= R <= 2 ^ J.
Proof.
  intros He HJ Hlt. unfold binary_round_aux.
  destruct (shr_fexp_floor m e l He) as [n1 [Hn1 [He1 [Hm1 Hmax1]]]].
  destruct (shr_fexp_pos m e l He) as [Hp1 Hemin1].
  destruct (shr_fexp prec emax (Zpos m) e l) as [mrs1 e1]; cbn [fst snd] in *.
  subst e1. rewrite emin64_eq in *. rewrite fexp64_eq, emin64_eq in Hmax1.
  pose proof (digits2_lower m) as Dlo.
  pose proof (pow2_pos (e - -1074) ltac:(lia)) as Pe.
  pose proof (pow2_pos n1 Hn1) as Pn1.
  (* the exponent after the shift is within [J] *)
  assert (Hd : Zpos (digits2_pos m) - 1 + (e - -1074) < J).
  { apply pow2_lt_inv; [lia|]. rewrite Z.pow_add_r by lia.
    apply Z.le_lt_trans with (Zpos m * 2 ^ (e - -1074)); [|exact Hlt].
    apply Z.mul_le_mono_nonneg_r; lia. }
  assert (HeJ : e + n1 - -1074 <= J) by lia.
  assert (Hv1 : shr_m mrs1 * 2 ^ (e + n1 - -1074) < 2 ^ J).
  { apply Z.le_lt_trans with (Zpos m * 2 ^ (e - -1074)); [|exact Hlt].
    replace (e + n1 - -1074) with (n1 + (e - -1074)) by lia.
    rewrite Z.pow_add_r, Z.mul_assoc by lia.
    apply Z.mul_le_mono_nonneg_r; [lia|].
    rewrite Hm1. rewrite Z.mul_comm. apply Z.mul_div_le. lia. }
  pose proof (round_nearest_even_le (shr_m mrs1) (loc_of_shr_record mrs1)) as Hr.
  pose proof (round_nearest_even_pos (shr_m mrs1) (loc_of_shr_record mrs1) Hp1)
    as Hrp.
  destruct (round_nearest_even (shr_m mrs1) (loc_of_shr_record mrs1))
    as [|m2|m2]; try lia.
  assert (Hv2 : Zpos m2 * 2 ^ (e + n1 - -1074) <= 2 ^ J).
  { apply Z.le_trans with ((shr_m mrs1 + 1) * 2 ^ (e + n1 - -1074)).
    - apply Z.mul_le_mono_nonneg_r; [|lia].
      apply Z.pow_nonneg; lia.
    - apply multiple_below_pow2; [lia|exact Hv1]. }
  assert (He1 : emin64 <= e + n1) by (rewrite emin64_eq; lia).
  destruct (shr_fexp_floor m2 (e + n1) loc_Exact He1) as [n2 [Hn2 [He2 [Hm2 _]]]].
  destruct (shr_fexp_pos m2 (e + n1) loc_Exact He1) as [Hp2 _].
  destruct (shr_fexp prec emax (Zpos m2) (e + n1) loc_Exact) as [mrs2 e2];
    cbn [fst snd] in *.
  subst e2.
  pose proof (pow2_pos n2 Hn2) as Pn2.
  pose proof (pow2_pos (e + n1 - -1074) ltac:(lia)) as Pe1.
  assert (Hv3 : shr_m mrs2 * 2 ^ (e + n1 + n2 - -1074) <= 2 ^ J).
  { apply Z.le_trans with (Zpos m2 * 2 ^ (e + n1 - -1074)); [|exact Hv2].
    replace (e + n1 + n2 - -1074) with (n2 + (e + n1 - -1074)) by lia.
    rewrite Z.pow_add_r, Z.mul_assoc by lia.
    apply Z.mul_le_mono_nonneg_r; [lia|].
    rewrite Hm2. rewrite Z.mul_comm. apply Z.mul_div_le. lia. }
  destruct (shr_m mrs2) as [|m3|m3]; try lia.
  pose proof (pow2_pos (e + n1 + n2 - -1074) ltac:(lia)) as Pe2.
  assert (He3 : e + n1 + n2 - -1074 <= J).
  { apply pow2_le_inv; [lia|].
    apply Z.le_trans with (Zpos m3 * 2 ^ (e + n1 + n2 - -1074)); [nia|exact Hv3]. }
  replace (e + n1 + n2 <=? emax - prec) with true
    by (symmetry; apply Z.leb_le; change (emax - prec) with 971; lia).
  exists (Zpos m3 * 2 ^ (e + n1 + n2 - -1074)).
  split; [reflexivity|]. split; [lia|exact Hv3].
Qed.

Lemma normalize_below (M ez J : Z) :
  emin64 <= ez -> 0 <= J <= 2045 ->
  0 < M -> M * 2 ^ (ez - emin64) < 2 ^ J ->
  exists R,
    SFunits (binary_normalize prec emax M ez false) = Some R
    /\ 0 <= R <= 2 ^ J.
Proof.
  intros He HJ HM Hlt. destruct M as [|m|m]; try lia.
  cbn [binary_normalize]. unfold binary_round.
  destruct (shl_align_fst m ez (SpecFloat.fexp prec emax (Zpos (digits2_pos m) + ez)))
    as [Hv [_ Hsnd]].
  change (SpecFloat.fexp prec emax) with fexp64 in *.
  rewrite fexp64_eq in Hsnd. rewrite emin64_eq in *.
  destruct (shl_align m ez _) as [mz e']; cbn [fst snd] in *.
  apply round_aux_below; rewrite ?emin64_eq; [lia|exact HJ|].
  replace (Zpos mz * 2 ^ (e' - -1074)) with (Zpos m * 2 ^ (ez - -1074));
    [exact Hlt|].
  rewrite Hv, <- Z.mul_assoc, <- Z.pow_add_r by lia. eq_exp.
Qed.

(** A difference that is not negative and below a power of two rounds
    to a double between zero and that power of two. *)
Lemma SFsub_below (x y : spec_float) (X Y J : Z) :
  SpecFloat.valid_binary prec emax x = true ->
  SpecFloat.valid_binary prec emax y = true ->
  SFunits x = Some X -> SFunits y = Some Y ->
  0 <= J <= 2045 ->
  0 <= X - Y < 2 ^ J ->
  exists R, SFunits (SFsub prec emax x y) = Some R /\ 0 <= R <= 2 ^ J.
Proof.
  intros Hx Hy HX HY HJ Hb.
  destruct (Z.eq_dec (X - Y) 0) as [Hz|Hnz].
  { exists 0. split; [|split; [lia|apply Z.pow_nonneg; lia]].
    rewrite <- Hz. apply SFsub_exact; try assumption.
    rewrite Hz. exact representable_0. }
  destruct x as [sx|sx| |sx mx ex], y as [sy|sy| |sy my ey];
    cbn [SFunits] in HX, HY; try discriminate;
    inversion HX; inversion HY; subst X Y; clear HX HY.
  - lia.
  - exists (0 - cond_Zopp sy (Zpos my) * 2 ^ (ey - emin64)).
    split; [|lia]. cbn [SFsub SFunits]. f_equal.
    destruct sy; cbn [negb cond_Zopp]; lia.
  - exists (cond_Zopp sx (Zpos mx) * 2 ^ (ex - emin64) - 0).
    split; [|lia]. cbn [SFsub SFunits]. f_equal. lia.
  - pose proof (valid_emin _ _ _ Hx) as Ex. pose proof (valid_emin _ _ _ Hy) as Ey.
    cbn [SFsub].
    rewrite <- (aligned_units sx mx ex (Z.min ex ey)) in * by lia.
    rewrite <- (aligned_units sy my ey (Z.min ex ey)) in * by lia.
    rewrite <- Z.mul_sub_distr_r in *.
    rewrite emin64_eq in *.
    pose proof (pow2_pos (Z.min ex ey - -1074) ltac:(lia)) as Pz.
    apply normalize_below; rewrite ?emin64_eq; [lia|exact HJ|nia|lia].
Qed.

Lemma sub_below (x y : float) (X Y J : Z) :
  units x = Some X -> units y = Some Y ->
  0 <= J <= 2045 ->
  0 <= X - Y < 2 ^ J ->
  exists R, units (x - y)%float = Some R /\ 0 <= R <= 2 ^ J.
Proof.
  unfold units. rewrite sub_spec. intros HX HY.
  apply SFsub_below; try assumption; apply Prim2SF_valid.
Qed.

End RoundingBound.

Module Floor.
#[local] Unset Implicit Arguments.
Import Ieee Rounding Whole RoundingBound.
Open Scope Z_scope.

(** The quotient [float(n)] is computed from, for an integer of more
    than 53 bits: [n] itself. *)
Lemma div_core_large (m : positive) :
  54 <= Zpos (digits2_pos m) ->
  SFdiv_core_binary prec emax (Zpos m) 0 1 0 = (Zpos m, 0, loc_Exact).
Proof.
  intros Hd. unfold SFdiv_core_binary.
  change (Zdigits2 (Zpos m)) with (Zpos (digits2_pos m)).
  change (Zdigits2 1) with 1.
  change (SpecFloat.fexp prec emax) with fexp64.
  rewrite fexp64_eq, emin64_eq.
  replace (Z.min (Z.max (Zpos (digits2_pos m) + 0 - (1 + 0) - 53) (-1074)) (0 - 0))
    with 0 by lia.
  cbn [Z.sub Z.opp Z.add]. rewrite div_eucl_1. reflexivity.
Qed.

Lemma representable_abs_mul (z P : Z) :
  representable (z * P) -> representable (Z.abs z * P).
Proof.
  intros H. destruct (Z.abs_spec z) as [[_ E]|[_ E]]; rewrite E.
  - exact H.
  - apply representable_opp in H. rewrite <- Z.mul_opp_l in H. exact H.
Qed.

(** [float(z)] is exact for every integer a double can hold. *)
Lemma of_int_representable (z : Z) :
  representable (z * 2 ^ 1074) ->
  units (b64_of_int z) = Some (z * 2 ^ 1074).
Proof.
  intros Hrep.
  destruct (Z_lt_le_dec (Z.abs z) (2 ^ 53)) as [Hsmall|Hbig];
    [apply of_int_units; exact Hsmall|].
  unfold units, b64_of_int, Q2B.
  destruct (Z.abs z) as [|m|m] eqn:Ez; [lia| |lia].
  pose proof (digits2_upper m) as Dhi.
  assert (Hd : 54 <= Zpos (digits2_pos m)).
  { destruct (Z_lt_le_dec (Zpos (digits2_pos m)) 54) as [Hlt|Hge]; [|exact Hge].
    exfalso.
    assert (2 ^ Zpos (digits2_pos m) <= 2 ^ 53)
      by (apply Z.pow_le_mono_r; lia).
    lia. }
  rewrite (div_core_large m Hd).
  assert (Hrm : representable (Zpos m * 2 ^ (0 - emin64))).
  { rewrite emin64_eq. change (0 - -1074) with 1074. rewrite <- Ez.
    apply representable_abs_mul. exact Hrep. }
  destruct (round_aux_exact (z <? 0) m 0) as [m' [e' [Hr [Hv [He Hc]]]]].
  - rewrite emin64_eq. lia.
  - exact Hrm.
  - rewrite Hr. rewrite fexp64_eq, emin64_eq in Hc.
    specialize (Hc ltac:(lia)).
    rewrite Prim2SF_SF2Prim by (apply finite_valid; [exact Hc|lia]).
    cbn [SFunits]. f_equal.
    rewrite emin64_eq in Hv. change (0 - -1074) with 1074 in Hv.
    rewrite emin64_eq.
    destruct (Z.ltb_spec z 0); unfold cond_Zopp;
      rewrite ?Z.mul_opp_l, Hv; lia.
Qed.

(** The floor of a finite double is a double at most one second below
    it; the other doubles are their own floor. *)
Lemma floor_units (ts : float) :
  match units ts with
  | Some X => exists Fz, units (b64_floor ts) = Some Fz /\ 0 <= X - Fz < 2 ^ 1074
  | None => b64_floor ts = ts
  end.
Proof.
  pose proof (Prim2SF_valid ts) as Hv.
  pose proof (pow2_pos 1074 ltac:(lia)) as HU.
  unfold units at 1. unfold b64_floor, B2Q.
  destruct (Prim2SF ts) as [s|s| |s m e] eqn:E; cbn [SFunits].
  - exists 0. split; [unfold units; rewrite E; reflexivity|lia].
  - reflexivity.
  - reflexivity.
  - pose proof (valid_emin _ _ _ Hv) as He.
    destruct (valid_mantissa _ _ _ Hv) as [Hm _].
    rewrite emin64_eq in *.
    destruct (Z_lt_le_dec e 0) as [Hneg|Hpos].
    + destruct e as [|p|p]; try lia.
      cbv iota beta.
      change (Q2B (?z <? 0) (Z.abs ?z) 1) with (b64_of_int z).
      set (a := if s then - Zpos m else Zpos m).
      set (d := Zpos (2 ^ p)).
      assert (Hd : d = 2 ^ Zpos p) by (unfold d; apply Pos2Z.inj_pow).
      pose proof (pow2_pos (Zpos p) ltac:(lia)) as Pd.
      pose proof (Z.div_mod a d ltac:(lia)) as Hdm.
      pose proof (Z.mod_pos_bound a d ltac:(lia)) as Hmod.
      assert (Ha : Z.abs a < 2 ^ 53) by (unfold a; destruct s; lia).
      assert (Hq : Z.abs (a / d) <= Z.abs a) by nia.
      exists (a / d * 2 ^ 1074). split; [apply of_int_units; lia|].
      assert (Hs : 2 ^ 1074 = d * 2 ^ (Zneg p - -1074)).
      { rewrite Hd, <- Z.pow_add_r by lia. eq_exp. }
      pose proof (pow2_pos (Zneg p - -1074) ltac:(lia)) as Pe.
      assert (Hx : cond_Zopp s (Zpos m) = a) by (destruct s; reflexivity).
      rewrite Hx, Hs.
      replace (a * 2 ^ (Zneg p - -1074) - a / d * (d * 2 ^ (Zneg p - -1074)))
        with ((a mod d) * 2 ^ (Zneg p - -1074)) by nia.
      split; [nia|]. apply Z.mul_lt_mono_pos_r; lia.
    + assert (Hb : exists M, Zpos m * 2 ^ e = Zpos M).
      { pose proof (pow2_pos e Hpos) as Pe.
        destruct (Zpos m * 2 ^ e) as [|M|M] eqn:EM; try nia.
        exists M. reflexivity. }
      destruct Hb as [M HM].
      set (z := if s then - Zpos M else Zpos M).
      assert (Hz : z * 2 ^ 1074 = cond_Zopp s (Zpos m) * 2 ^ (e - -1074)).
      { unfold z. rewrite <- HM.
        replace (e - -1074) with (e + 1074) by lia.
        rewrite Z.pow_add_r by lia. destruct s; unfold cond_Zopp; ring. }
      assert (Hu : units (b64_of_int z) = Some (z * 2 ^ 1074)).
      { apply of_int_representable. rewrite Hz.
        exists (cond_Zopp s (Zpos m)), (e - -1074).
        split; [reflexivity|]. split; [destruct s; unfold cond_Zopp; lia|lia]. }
      exists (z * 2 ^ 1074). split; [|rewrite Hz; lia].
      rewrite <- Hu. f_equal.
      destruct e as [|p|p]; try lia; rewrite HM; cbv iota beta zeta;
        rewrite Z.div_1_r; reflexivity.
Qed.

(** On binary64 a number is not more than one above its floor, and the
    doubles that are not finite give a difference that compares as
    false. *)
Lemma floor_within_second (ts : float) :
  flt (of_int 1) (fsub ts (floor ts)) = false.
Proof.
  cbn [flt of_int fsub floor b64_ops].
  pose proof (floor_units ts) as Hf.
  destruct (units ts) as [X|] eqn:EX.
  - destruct Hf as [Fz [HF Hb]].
    destruct (sub_below ts (b64_floor ts) X Fz 1074 EX HF ltac:(lia) Hb)
      as [R [HR HRb]].
    assert (H1 : units (b64_of_int 1) = Some (1 * 2 ^ 1074))
      by (apply of_int_units; cbn; lia).
    rewrite (ltb_units _ _ _ _ H1 HR). apply Z.ltb_ge. lia.
  - rewrite Hf. rewrite ltb_spec, sub_spec. unfold units in EX.
    destruct (Prim2SF ts) as [s|s| |s m e]; cbn [SFunits] in EX;
      try discriminate EX.
    + unfold SF64sub. cbn [SFsub].
      destruct s; destruct (Prim2SF (b64_of_int 1)); reflexivity.
    + unfold SF64sub. cbn [SFsub].
      destruct (Prim2SF (b64_of_int 1)); reflexivity.
Qed.

(** X11: in binary64, whatever calls of [add] and [log] a cache has
    seen, with any arguments, no buffered record is more than one second
    after the last archived second ([ts - last_second > 1.0] is false
    for each of them). *)
Theorem buffer_stays_within_second (with_log : bool) (tc : TimeCache.t float) :
  reachable with_log tc -> buffer_within_second tc.
Proof.
  intros Hr.
  exact (proj2 (@reachable_buffer_within_second float b64_ops
                  floor_within_second with_log tc Hr)).
Qed.

End Floor.

(** ** stream_data.stream *)

Section StreamFacts.
Open Scope string_scope.

Lemma string_app_nil_r (s : string) : s ++ "" = s.
Proof. induction s as [|c s IH]; cbn; [reflexivity | rewrite IH; reflexivity]. Qed.

Lemma string_app_assoc (a b c : string) : (a ++ b) ++ c = a ++ (b ++ c).
Proof. induction a as [|x a IH]; cbn; [reflexivity | rewrite IH; reflexivity]. Qed.

Lemma has_newline_app (a b : string) :
  has_newline (a ++ b) = has_newline a || has_newline b.
Proof.
  induction a as [|c a IH]; cbn; [reflexivity|].
  rewrite IH, orb_assoc. reflexivity.
Qed.

Lemma string_length_app (a b : string) :
  String.length (a ++ b) = (String.length a + String.length b)%nat.
Proof. induction a as [|c a IH]; cbn; [reflexivity | rewrite IH; reflexivity]. Qed.

(** Reading a text without a newline only extends the chunk. *)
Lemma stream_from_text (l : string) :
  forall chunk rest,
    has_newline l = false ->
    StreamData.stream_from chunk (l ++ rest)
    = StreamData.stream_from (chunk ++ l) rest.
Proof.
  induction l as [|c l IH]; intros chunk rest Hl; cbn [append].
  - rewrite string_app_nil_r. reflexivity.
  - cbn [has_newline] in Hl. apply orb_false_iff in Hl. destruct Hl as [Hc Hl].
    cbn [StreamData.stream_from]. rewrite Hc.
    rewrite IH by exact Hl. rewrite string_app_assoc. reflexivity.
Qed.

Lemma stream_from_line (l : string) (chunk rest : string) :
  has_newline l = false ->
  StreamData.stream_from chunk (l ++ newline ++ rest)
  = (chunk ++ l) :: StreamData.stream_from "" rest.
Proof.
  intros Hl. rewrite stream_from_text by exact Hl. reflexivity.
Qed.

(** X17: a file made of lines without newlines, each closed by a
    newline, followed by a last text [tail] that no newline closes, is
    streamed as exactly these lines, in order, followed by [tail] when
    it is not empty; empty lines are yielded as empty strings. *)
Theorem stream_unlines (ls : list string) (tail : string) :
  Forall (fun l => has_newline l = false) ls ->
  has_newline tail = false ->
  StreamData.stream (unlines ls ++ tail)
  = (ls ++ (if (String.length tail =? 0)%nat then [] else [tail]))%list.
Proof.
  intros Hls Htail. unfold StreamData.stream.
  induction Hls as [|l ls Hl _ IH]; cbn [unlines app].
  - cbn [append].
    pose proof (stream_from_text tail "" "" Htail) as Ht.
    rewrite string_app_nil_r in Ht. rewrite Ht.
    cbn [append StreamData.stream_from].
    destruct (String.length tail =? 0)%nat; reflexivity.
  - rewrite !string_app_assoc.
    rewrite stream_from_line by exact Hl. cbn [append].
    rewrite IH. reflexivity.
Qed.

Lemma stream_from_no_newline (f : string) :
  forall chunk,
    has_newline chunk = false ->
    Forall (fun l => has_newline l = false) (StreamData.stream_from chunk f).
Proof.
  induction f as [|c f IH]; intros chunk Hc; cbn [StreamData.stream_from].
  - destruct (negb _); constructor; [exact Hc | constructor].
  - destruct (Ascii.eqb c (ascii_of_nat 10)) eqn:E.
    + constructor; [exact Hc | apply IH; reflexivity].
    + apply IH. rewrite has_newline_app, Hc. cbn [has_newline orb]. rewrite E. reflexivity.
Qed.

(** X18: no line the stream yields holds a newline character, whatever
    the file. *)
Theorem stream_lines_have_no_newline (f : string) :
  Forall (fun l => has_newline l = false) (StreamData.stream f).
Proof. apply stream_from_no_newline. reflexivity. Qed.

Lemma ends_line_cons (c : ascii) (s : string) :
  s <> "" -> ends_line (String c s) = ends_line s.
Proof. destruct s; [congruence | reflexivity]. Qed.

Lemma ends_line_app (a b : string) :
  b <> "" -> ends_line (a ++ b) = ends_line b.
Proof.
  intros Hb. induction a as [|c a IH]; cbn [append]; [reflexivity|].
  rewrite ends_line_cons; [exact IH|].
  destruct a; cbn; [exact Hb | discriminate].
Qed.

Lemma unlines_stream_from (f : string) :
  forall chunk,
    unlines (StreamData.stream_from chunk f)
    = if (String.length (chunk ++ f) =? 0)%nat then ""
      else if ends_line f && negb (String.length f =? 0)%nat
           then chunk ++ f
           else chunk ++ f ++ newline.
Proof.
  induction f as [|c f IH]; intros chunk; cbn [StreamData.stream_from].
  - rewrite string_app_nil_r. cbn [ends_line String.length Nat.eqb negb andb append].
    destruct (String.length chunk =? 0)%nat; cbn [negb unlines]; [reflexivity|].
    rewrite string_app_nil_r. reflexivity.
  - rewrite string_length_app. cbn [String.length].
    replace (String.length chunk + S (String.length f) =? 0)%nat with false
      by (symmetry; apply Nat.eqb_neq; lia).
    cbn [Nat.eqb negb]. rewrite andb_true_r.
    destruct (Ascii.eqb c (ascii_of_nat 10)) eqn:E.
    + apply Ascii.eqb_eq in E. subst c.
      cbn [unlines]. rewrite IH. cbn [append].
      destruct f as [|d f].
      * cbn. reflexivity.
      * cbn [String.length Nat.eqb negb]. rewrite andb_true_r.
        rewrite (@ends_line_cons (ascii_of_nat 10) (String d f)) by discriminate.
        destruct (ends_line (String d f)); reflexivity.
    + rewrite IH. rewrite !string_length_app. cbn [String.length].
      rewrite !string_app_assoc. cbn [append].
      destruct f as [|d f].
      * cbn [String.length]. 
        replace (String.length chunk + 1 + 0 =? 0)%nat with false
          by (symmetry; apply Nat.eqb_neq; lia).
        cbn [ends_line Nat.eqb negb andb]. rewrite E. reflexivity.
      * replace (String.length chunk + 1 + String.length (String d f) =? 0)%nat
          with false by (symmetry; apply Nat.eqb_neq; cbn; lia).
        rewrite (@ends_line_cons c (String d f)) by discriminate.
        cbn [String.length Nat.eqb negb]. rewrite andb_true_r. reflexivity.
Qed.

(** X19: the stream loses no character: joining the yielded lines, each
    with its newline, gives the file back, with a newline added when the
    file does not end with one. *)
Theorem unlines_stream (f : string) :
  unlines (StreamData.stream f) = if ends_line f then f else f ++ newline.
Proof.
  unfold StreamData.stream. rewrite unlines_stream_from. cbn [append].
  destruct f as [|c f]; [reflexivity|].
  cbn [String.length Nat.eqb negb]. rewrite andb_true_r. reflexivity.
Qed.

End StreamFacts.

(** ** The properties on concrete objects *)

Module Instances.
Import Cases.
Open Scope float_scope.

(** [test_add]: a bid is held, an ask arrives one millisecond later. *)
Lemma add_raise_keeps_prices_test_add :
  let q1 := QuotePair.mk (Some 1469404799.897461) None (Some 42) in
  QuotePair.add (PyFloat 1469404799.898461) (PyStr ":a") (PyFloat 43) q1
  = (q1, Raise QuoteError)
  /\ QuotePair.ask q1 = QuotePair.ask q1
  /\ QuotePair.bid q1 = QuotePair.bid q1.
Proof.
  cbv zeta. split; [vm_compute; reflexivity|].
  destruct (@add_raise_keeps_prices float Binary64.b64_ops
              (QuotePair.mk (Some 1469404799.897461) None (Some 42))
              (QuotePair.mk (Some 1469404799.897461) None (Some 42))
              (PyFloat 1469404799.898461) (PyStr ":a") (PyFloat 43) QuoteError)
    as [_ [Ha [Hb _]]].
  - vm_compute. reflexivity.
  - split; [exact Ha | exact Hb].
Defined.

(** [test_add_and_log]: the ask that completes the first pair. *)
Lemma add_return_effect_first_pair :
  let q1 := QuotePair.mk (Some 800.2) None (Some 1.5) in
  let q2 := QuotePair.mk (Some 800.2) (Some 1.6) (Some 1.5) in
  QuotePair.add (PyFloat 800.2) (PyStr ":a") (PyFloat 1.6) q1
  = (q2, Ok (Some (1.6 - 1.5)))
  /\ exists a b,
       QuotePair.ask q2 = Some a /\ QuotePair.bid q2 = Some b
       /\ 1.6 - 1.5 = fsub a b.
Proof.
  cbv zeta.
  assert (Hadd : QuotePair.add (PyFloat 800.2) (PyStr ":a") (PyFloat 1.6)
                   (QuotePair.mk (Some 800.2) None (Some 1.5))
                 = (QuotePair.mk (Some 800.2) (Some 1.6) (Some 1.5),
                    Ok (Some (1.6 - 1.5))))
    by (vm_compute; reflexivity).
  split; [exact Hadd|].
  destruct (@add_return_effect float Binary64.b64_ops _ _ _ _ _ _ Hadd)
    as [t [p [_ [_ [_ [_ Hs]]]]]].
  exact (Hs _ eq_refl).
Defined.

(** [test_add]: the bid of the held timestamp is sent again. *)
Lemma add_duplicate_side_test_add :
  let q1 := QuotePair.mk (Some 1469404799.897461) None (Some 42) in
  QuotePair.add (PyFloat 1469404799.897461) (PyStr ":b") (PyFloat 42) q1
  = (q1, Raise QuoteError).
Proof.
  cbv zeta.
  apply (@add_duplicate_side float Binary64.b64_ops
           (QuotePair.mk (Some 1469404799.897461) None (Some 42))
           1469404799.897461 1469404799.897461 42 ":b"%string).
  - reflexivity.
  - vm_compute. reflexivity.
  - right. split; [reflexivity | discriminate].
Defined.

(** The object after the first record of [test_add_and_log]. *)
Lemma pair_reachable_shape_first_record :
  let q := fst (QuotePair.add (PyFloat 800.2) (PyStr ":b") (PyFloat 1.5)
                  QuotePair.__init__) in
  q = QuotePair.__init__
  \/ (QuotePair.current_ts q <> None
      /\ (QuotePair.ask q <> None \/ QuotePair.bid q <> None)).
Proof.
  cbv zeta.
  apply (@pair_reachable_shape float Binary64.b64_ops).
  apply pair_add. apply pair_init.
Defined.

(** Archive at 800, a record at exactly 801: buffered, [add] returns 0. *)
Lemma add_return_value_801 :
  let tc := TimeCache.mk [(800, None)] None [(800.2, 0.1)] in
  let tc' := TimeCache.mk [(800, None)] None [(800.2, 0.1); (801, 0.2)] in
  TimeCache.add (PyFloat 801) (PyFloat 0.2) tc = (tc', Ok (PyInt 0))
  /\ TimeCache.tmp_cache tc <> [].
Proof.
  cbv zeta.
  assert (Hadd : TimeCache.add (PyFloat 801) (PyFloat 0.2)
                   (TimeCache.mk [(800, None)] None [(800.2, 0.1)])
                 = (TimeCache.mk [(800, None)] None [(800.2, 0.1); (801, 0.2)],
                    Ok (PyInt 0)))
    by (vm_compute; reflexivity).
  split; [exact Hadd|].
  assert (Hiff : TimeCache.archive
                   (TimeCache.mk [(800, @None float)] None [(800.2, 0.1)]) = []
                 <-> TimeCache.tmp_cache
                       (TimeCache.mk [(800, @None float)] None [(800.2, 0.1)]) = [])
    by (split; discriminate).
  destruct (@add_return_value float Binary64.b64_ops _ _ _ _ _ Hiff Hadd)
    as [t [s [_ [_ [Htmp _]]]]].
  exact Htmp.
Defined.

(** The first window of [test_add_and_log], closed by the record at
    801.5. *)
Lemma add_promotes_first_window :
  let tc := TimeCache.mk [(800, None)] None
              [(800.2, 1.6 - 1.5); (800.6, 1.95 - 1.75)] in
  TimeCache.add (PyFloat 801.5) (PyFloat (1.9 - 1.8)) tc
  = match window_average tc with
    | Ok twa =>
        (TimeCache.mk [(800, None); (801, Some twa)] (Some (1.95 - 1.75))
           [(801.5, 1.9 - 1.8)],
         Ok (PyInt 1))
    | Raise e => (tc, Raise e)
    | OutOfFuel => (tc, OutOfFuel)
    end.
Proof.
  cbv zeta.
  rewrite (@add_promotes float Binary64.b64_ops
             (TimeCache.mk [(800, None)] None
                [(800.2, 1.6 - 1.5); (800.6, 1.95 - 1.75)])
             801.5 (1.9 - 1.8) 800 None []
             ltac:(discriminate) eq_refl ltac:(vm_compute; reflexivity)).
  vm_compute. reflexivity.
Defined.

(** The first [log] of the streamed scenario: archive at 800 without an
    average, first closed second 801. *)
Lemma log_cold_gap_not_filled_801 :
  TimeCache.log 0
    (TimeCache.mkw (TimeCache.mk [(800, None); (801, Some 0.15)] None []) [])
  = (TimeCache.mkw (TimeCache.mk [(801, Some 0.15)] None [])
       [line "801000000,0.15000000"%string],
     Ok tt).
Proof.
  apply (@log_cold_gap_not_filled float Binary64.b64_ops 0 800 801 0.15 None [] []
           (line "801000000,0.15000000"%string)).
  vm_compute. reflexivity.
Defined.

(** [log] on the cache of [test_add_and_log]. *)
Lemma log_effect_scenario :
  exists out,
    TimeCache.stdout (fst (run_log 2 fed_cache)) = [] ++ out.
Proof.
  destruct (@log_effect float Binary64.b64_ops 2 (TimeCache.mkw fed_cache [])
              (fst (run_log 2 fed_cache)) (snd (run_log 2 fed_cache)))
    as [Hout _].
  - unfold run_log. destruct (TimeCache.log 2 _); reflexivity.
  - exact Hout.
Defined.

(** The cache two calls of [add] build. *)
Lemma reachable_well_formed_cold_window : well_formed cold_window.
Proof.
  apply (@reachable_well_formed float Binary64.b64_ops false).
  unfold cold_window. apply reach_add. apply reach_add. apply reach_init.
Defined.

Lemma reachable_cold_window_seeded_cold_window :
  cold_window_seeded cold_window.
Proof.
  apply (@reachable_cold_window_seeded float Binary64.b64_ops false).
  unfold cold_window. apply reach_add. apply reach_add. apply reach_init.
Defined.

(** A file of three lines, the last one not closed. *)
Lemma stream_unlines_three_lines :
  StreamData.stream
    (unlines ["800200000,:b,1.50"%string; "800200000,:a,1.60"%string]
     ++ "800600000,:b,1.75")%string
  = ["800200000,:b,1.50"%string; "800200000,:a,1.60"%string;
     "800600000,:b,1.75"%string].
Proof.
  apply (@stream_unlines
           ["800200000,:b,1.50"%string; "800200000,:a,1.60"%string]
           "800600000,:b,1.75"%string).
  - repeat constructor.
  - reflexivity.
Defined.

(** The duplicate bid of [test_add], as a record of a stream. *)
Lemma compute_twa_skips_refused_duplicate :
  let q1 := QuotePair.mk (Some 800.2) None (Some 1.5) in
  let w := TimeCache.mkw TimeCache.__init__ [] in
  compute_twa 1 [(800200000, ":b"%string, 1.5); (800200000, ":a"%string, 1.6)]
    (q1, w)
  = compute_twa 1 [(800200000, ":a"%string, 1.6)] (q1, w).
Proof.
  cbv zeta.
  apply (@Binary64More.compute_twa_skips_refused 1 800200000 1.5 ":b"%string
           [(800200000, ":a"%string, 1.6)]
           (QuotePair.mk (Some 800.2) None (Some 1.5))
           (QuotePair.mk (Some 800.2) None (Some 1.5))
           (TimeCache.mkw TimeCache.__init__ [])).
  - discriminate.
  - vm_compute. reflexivity.
Defined.

(** A record with the side token [":c"]. *)
Lemma compute_twa_stops_at_bad_side_c :
  let s := (QuotePair.__init__, TimeCache.mkw TimeCache.__init__ []) in
  compute_twa 1 [(800200000, ":c"%string, 1.5); (800200000, ":a"%string, 1.6)] s
  = (s, Raise InputError).
Proof.
  cbv zeta.
  apply (@Binary64More.compute_twa_stops_at_bad_side 1 800200000 1.5 ":c"%string
           [(800200000, ":a"%string, 1.6)]
           (QuotePair.__init__, TimeCache.mkw TimeCache.__init__ []));
    discriminate.
Defined.

End Instances.

(** ** The bounded properties on the windows of [test_add_and_log] *)

Module BoundedInstances.
#[local] Unset Implicit Arguments.
Import Cases.
Open Scope float_scope.

(** The cache after a first record at 800.2. *)
Lemma buffer_stays_within_second_first_record :
  buffer_within_second
    (fst (TimeCache.add (PyFloat 800.2) (PyFloat 0.1)
            (@TimeCache.__init__ float))).
Proof.
  apply (Floor.buffer_stays_within_second false).
  apply reach_add. apply reach_init.
Defined.

(** The second window, closed by the record at 803.3. *)
Lemma add_returns_on_bounded_window_second_window :
  snd (TimeCache.add (PyFloat 803.3) (PyFloat 0.15) second_window)
  = Ok (PyInt (if 1 <? 803.3 - of_int 801 then 1 else 0)).
Proof.
  apply (BoundedWindows.add_returns_on_bounded_window second_window 803.3 0.15 801).
  - lia.
  - split.
    + exists [(800, None)], (Some 0.15). vm_compute. reflexivity.
    + repeat constructor; vm_compute; reflexivity.
  - discriminate.
  - discriminate.
Defined.

(** The second [log] of [test_add_and_log] run as a stream: the archive
    holds 801 and 803, the second 802 is filled with the average of
    801. *)
Lemma log_fills_gap_802 :
  TimeCache.log 1
    (TimeCache.mkw
       (TimeCache.mk [(of_int 801, Some 0.15); (of_int 803, Some 0.15)] None [])
       [])
  = (TimeCache.mkw (TimeCache.mk [(of_int 803, Some 0.15)] None [])
       ([] ++ map (record_line 0.15) (range (801 + 1) 803)
           ++ [record_line 0.15 803]),
     Ok tt).
Proof.
  apply (WholeSeconds.log_fills_gap 1 801 803 0.15 0.15 None [] []).
  - lia.
  - lia.
  - lia.
  - vm_compute. lia.
Defined.

End BoundedInstances.
